(** * goCrawler: a shallow embedding of the crawl engine and its sinks

    The development follows the Go packages of the repository:

    - [utf8], [unicode], [Strings] and [url] embed the parts of Go's
      [unicode/utf8], [unicode], [strings] and [net/url] standard packages
      that the repository calls;
    - [crawler] embeds [crawler/url.go] (NormalizeURL, IsURLValid,
      ResolveURL), [crawler/fetcher.go] (crawlURL) and the revision of
      [crawler/crawler.go] that carries the pending-job counter.  Goroutines
      are interleaved by a labelled step function: one step is one critical
      section, one channel operation or one blocking call of a goroutine;
    - [storage] embeds the CSV and JSON sinks.

    Go strings are byte sequences: they are Rocq strings, one [ascii] per
    byte.  Go's [int] values that the statements are about (depths, the pending
    counter) are integers in [Z]; the counter is shown to stay far below the
    64-bit range. *)

From stdpp Require Import gmap strings list sorting pretty.
From Stdlib Require Import ZArith Ascii String Lia.

Open Scope string_scope.
Open Scope Z_scope.

(* ===================================================================== *)
(** * Part I: definitions                                                 *)
(* ===================================================================== *)

(** ** Go's [unicode/utf8] package: one rune from and to its bytes

    A rune is an [int32]; the runes that occur lie between 0 and
    [MaxRune].  [byte c] is the value of a byte, [to_byte x] the conversion
    [byte(x)], which keeps the low eight bits. *)
Module utf8.

Definition rune := Z.

Definition RuneError : rune := 0xFFFD.
Definition RuneSelf : Z := 0x80.
Definition MaxRune : rune := 0x10FFFF.

Definition byte (c : ascii) : Z := Z.of_nat (nat_of_ascii c).

Definition to_byte (x : Z) : ascii :=
  Ascii (Z.testbit x 0) (Z.testbit x 1) (Z.testbit x 2) (Z.testbit x 3)
        (Z.testbit x 4) (Z.testbit x 5) (Z.testbit x 6) (Z.testbit x 7).

(** the table [first] with [acceptRanges]: for a leading byte the length
    of the sequence and the range of the second byte; [None] for a byte
    that cannot lead (0x80 to 0xC1 and 0xF5 to 0xFF) *)
Definition first (s0 : Z) : option (nat * Z * Z) :=
  if (0xC2 <=? s0) && (s0 <=? 0xDF) then Some (2%nat, 0x80, 0xBF)
  else if s0 =? 0xE0 then Some (3%nat, 0xA0, 0xBF)
  else if (0xE1 <=? s0) && (s0 <=? 0xEC) then Some (3%nat, 0x80, 0xBF)
  else if s0 =? 0xED then Some (3%nat, 0x80, 0x9F)
  else if (0xEE <=? s0) && (s0 <=? 0xEF) then Some (3%nat, 0x80, 0xBF)
  else if s0 =? 0xF0 then Some (4%nat, 0x90, 0xBF)
  else if (0xF1 <=? s0) && (s0 <=? 0xF3) then Some (4%nat, 0x80, 0xBF)
  else if s0 =? 0xF4 then Some (4%nat, 0x80, 0x8F)
  else None.

Definition locb : Z := 0x80.
Definition hicb : Z := 0xBF.
Definition maskx : Z := 0x3F.
Definition mask2 : Z := 0x1F.
Definition mask3 : Z := 0x0F.
Definition mask4 : Z := 0x07.

(** [utf8.DecodeRuneInString]: the first rune of [s] and its width in
    bytes; a byte that starts no well-formed sequence is [RuneError] of
    width 1 *)
Definition DecodeRuneInString (s : string) : rune * nat :=
  match s with
  | EmptyString => (RuneError, 0%nat)
  | String c0 t =>
      let s0 := byte c0 in
      if s0 <? RuneSelf then (s0, 1%nat)
      else
        match first s0 with
        | None => (RuneError, 1%nat)
        | Some (sz, lo, hi) =>
            if (String.length s <? sz)%nat then (RuneError, 1%nat)
            else
              match t with
              | EmptyString => (RuneError, 1%nat)
              | String c1 t1 =>
                  let s1 := byte c1 in
                  if (s1 <? lo) || (hi <? s1) then (RuneError, 1%nat)
                  else if (sz <=? 2)%nat then
                    (Z.lor (Z.shiftl (Z.land s0 mask2) 6) (Z.land s1 maskx), 2%nat)
                  else
                    match t1 with
                    | EmptyString => (RuneError, 1%nat)
                    | String c2 t2 =>
                        let s2 := byte c2 in
                        if (s2 <? locb) || (hicb <? s2) then (RuneError, 1%nat)
                        else if (sz <=? 3)%nat then
                          (Z.lor (Z.lor (Z.shiftl (Z.land s0 mask3) 12)
                                        (Z.shiftl (Z.land s1 maskx) 6))
                                 (Z.land s2 maskx), 3%nat)
                        else
                          match t2 with
                          | EmptyString => (RuneError, 1%nat)
                          | String c3 _ =>
                              let s3 := byte c3 in
                              if (s3 <? locb) || (hicb <? s3) then (RuneError, 1%nat)
                              else
                                (Z.lor (Z.lor (Z.lor (Z.shiftl (Z.land s0 mask4) 18)
                                                     (Z.shiftl (Z.land s1 maskx) 12))
                                              (Z.shiftl (Z.land s2 maskx) 6))
                                       (Z.land s3 maskx), 4%nat)
                          end
                    end
              end
        end
  end.

(** [utf8.AppendRune] to the empty string: the bytes of a rune; a rune
    out of range or a surrogate half is written as [RuneError] *)
Definition AppendRune (r : rune) : string :=
  if (0 <=? r) && (r <=? 0x7F) then String (to_byte r) EmptyString
  else if (0 <=? r) && (r <=? 0x7FF) then
    String (to_byte (Z.lor 0xC0 (Z.shiftr r 6)))
      (String (to_byte (Z.lor 0x80 (Z.land r maskx))) EmptyString)
  else
    let r := if (r <? 0) || (MaxRune <? r) || ((0xD800 <=? r) && (r <=? 0xDFFF))
             then RuneError else r in
    if r <=? 0xFFFF then
      String (to_byte (Z.lor 0xE0 (Z.shiftr r 12)))
        (String (to_byte (Z.lor 0x80 (Z.land (Z.shiftr r 6) maskx)))
           (String (to_byte (Z.lor 0x80 (Z.land r maskx))) EmptyString))
    else
      String (to_byte (Z.lor 0xF0 (Z.shiftr r 18)))
        (String (to_byte (Z.lor 0x80 (Z.land (Z.shiftr r 12) maskx)))
           (String (to_byte (Z.lor 0x80 (Z.land (Z.shiftr r 6) maskx)))
              (String (to_byte (Z.lor 0x80 (Z.land r maskx))) EmptyString))).

End utf8.

(** ** Go's [unicode] package: [ToLower]

    [CaseRanges] is the table of the package as far as the mapping to
    lower case goes: a range of code points and either the delta to add or
    the mark of a run in which upper-case and lower-case letters alternate.
    Ranges whose delta to lower case is zero are left out; a rune in none of
    the ranges is returned as it is.  The entries are the simple lower-case
    mappings of the Unicode Character Database, version 15.0, which Go
    carries from release 1.21 on; the tables of earlier releases differ in
    letters that were added since, none of which has a lower-case form in
    ASCII. *)
Module unicode.

Inductive delta :=
| UpperLower
| Delta (d : Z).

Record CaseRange := cr {
  Lo : Z;
  Hi : Z;
  lower : delta
}.

Definition MaxASCII : Z := 0x7F.

Definition CaseRanges : list CaseRange :=
  [cr 0x00C0 0x00D6 (Delta (32)); cr 0x00D8 0x00DE (Delta (32));
   cr 0x0100 0x012F UpperLower; cr 0x0130 0x0130 (Delta (-199));
   cr 0x0132 0x0137 UpperLower; cr 0x0139 0x0148 UpperLower;
   cr 0x014A 0x0177 UpperLower; cr 0x0178 0x0178 (Delta (-121));
   cr 0x0179 0x017E UpperLower; cr 0x0181 0x0181 (Delta (210));
   cr 0x0182 0x0185 UpperLower; cr 0x0186 0x0186 (Delta (206));
   cr 0x0187 0x0187 (Delta (1)); cr 0x0189 0x018A (Delta (205));
   cr 0x018B 0x018B (Delta (1)); cr 0x018E 0x018E (Delta (79));
   cr 0x018F 0x018F (Delta (202)); cr 0x0190 0x0190 (Delta (203));
   cr 0x0191 0x0191 (Delta (1)); cr 0x0193 0x0193 (Delta (205));
   cr 0x0194 0x0194 (Delta (207)); cr 0x0196 0x0196 (Delta (211));
   cr 0x0197 0x0197 (Delta (209)); cr 0x0198 0x0198 (Delta (1));
   cr 0x019C 0x019C (Delta (211)); cr 0x019D 0x019D (Delta (213));
   cr 0x019F 0x019F (Delta (214)); cr 0x01A0 0x01A5 UpperLower;
   cr 0x01A6 0x01A6 (Delta (218)); cr 0x01A7 0x01A7 (Delta (1));
   cr 0x01A9 0x01A9 (Delta (218)); cr 0x01AC 0x01AC (Delta (1));
   cr 0x01AE 0x01AE (Delta (218)); cr 0x01AF 0x01AF (Delta (1));
   cr 0x01B1 0x01B2 (Delta (217)); cr 0x01B3 0x01B6 UpperLower;
   cr 0x01B7 0x01B7 (Delta (219)); cr 0x01B8 0x01B8 (Delta (1));
   cr 0x01BC 0x01BC (Delta (1)); cr 0x01C4 0x01C4 (Delta (2));
   cr 0x01C5 0x01C5 (Delta (1)); cr 0x01C7 0x01C7 (Delta (2));
   cr 0x01C8 0x01C8 (Delta (1)); cr 0x01CA 0x01CA (Delta (2));
   cr 0x01CB 0x01DC UpperLower; cr 0x01DE 0x01EF UpperLower;
   cr 0x01F1 0x01F1 (Delta (2)); cr 0x01F2 0x01F5 UpperLower;
   cr 0x01F6 0x01F6 (Delta (-97)); cr 0x01F7 0x01F7 (Delta (-56));
   cr 0x01F8 0x021F UpperLower; cr 0x0220 0x0220 (Delta (-130));
   cr 0x0222 0x0233 UpperLower; cr 0x023A 0x023A (Delta (10795));
   cr 0x023B 0x023B (Delta (1)); cr 0x023D 0x023D (Delta (-163));
   cr 0x023E 0x023E (Delta (10792)); cr 0x0241 0x0241 (Delta (1));
   cr 0x0243 0x0243 (Delta (-195)); cr 0x0244 0x0244 (Delta (69));
   cr 0x0245 0x0245 (Delta (71)); cr 0x0246 0x024F UpperLower;
   cr 0x0370 0x0373 UpperLower; cr 0x0376 0x0376 (Delta (1));
   cr 0x037F 0x037F (Delta (116)); cr 0x0386 0x0386 (Delta (38));
   cr 0x0388 0x038A (Delta (37)); cr 0x038C 0x038C (Delta (64));
   cr 0x038E 0x038F (Delta (63)); cr 0x0391 0x03A1 (Delta (32));
   cr 0x03A3 0x03AB (Delta (32)); cr 0x03CF 0x03CF (Delta (8));
   cr 0x03D8 0x03EF UpperLower; cr 0x03F4 0x03F4 (Delta (-60));
   cr 0x03F7 0x03F7 (Delta (1)); cr 0x03F9 0x03F9 (Delta (-7));
   cr 0x03FA 0x03FA (Delta (1)); cr 0x03FD 0x03FF (Delta (-130));
   cr 0x0400 0x040F (Delta (80)); cr 0x0410 0x042F (Delta (32));
   cr 0x0460 0x0481 UpperLower; cr 0x048A 0x04BF UpperLower;
   cr 0x04C0 0x04C0 (Delta (15)); cr 0x04C1 0x04CE UpperLower;
   cr 0x04D0 0x052F UpperLower; cr 0x0531 0x0556 (Delta (48));
   cr 0x10A0 0x10C5 (Delta (7264)); cr 0x10C7 0x10C7 (Delta (7264));
   cr 0x10CD 0x10CD (Delta (7264)); cr 0x13A0 0x13EF (Delta (38864));
   cr 0x13F0 0x13F5 (Delta (8)); cr 0x1C90 0x1CBA (Delta (-3008));
   cr 0x1CBD 0x1CBF (Delta (-3008)); cr 0x1E00 0x1E95 UpperLower;
   cr 0x1E9E 0x1E9E (Delta (-7615)); cr 0x1EA0 0x1EFF UpperLower;
   cr 0x1F08 0x1F0F (Delta (-8)); cr 0x1F18 0x1F1D (Delta (-8));
   cr 0x1F28 0x1F2F (Delta (-8)); cr 0x1F38 0x1F3F (Delta (-8));
   cr 0x1F48 0x1F4D (Delta (-8)); cr 0x1F59 0x1F59 (Delta (-8));
   cr 0x1F5B 0x1F5B (Delta (-8)); cr 0x1F5D 0x1F5D (Delta (-8));
   cr 0x1F5F 0x1F5F (Delta (-8)); cr 0x1F68 0x1F6F (Delta (-8));
   cr 0x1F88 0x1F8F (Delta (-8)); cr 0x1F98 0x1F9F (Delta (-8));
   cr 0x1FA8 0x1FAF (Delta (-8)); cr 0x1FB8 0x1FB9 (Delta (-8));
   cr 0x1FBA 0x1FBB (Delta (-74)); cr 0x1FBC 0x1FBC (Delta (-9));
   cr 0x1FC8 0x1FCB (Delta (-86)); cr 0x1FCC 0x1FCC (Delta (-9));
   cr 0x1FD8 0x1FD9 (Delta (-8)); cr 0x1FDA 0x1FDB (Delta (-100));
   cr 0x1FE8 0x1FE9 (Delta (-8)); cr 0x1FEA 0x1FEB (Delta (-112));
   cr 0x1FEC 0x1FEC (Delta (-7)); cr 0x1FF8 0x1FF9 (Delta (-128));
   cr 0x1FFA 0x1FFB (Delta (-126)); cr 0x1FFC 0x1FFC (Delta (-9));
   cr 0x2126 0x2126 (Delta (-7517)); cr 0x212A 0x212A (Delta (-8383));
   cr 0x212B 0x212B (Delta (-8262)); cr 0x2132 0x2132 (Delta (28));
   cr 0x2160 0x216F (Delta (16)); cr 0x2183 0x2183 (Delta (1));
   cr 0x24B6 0x24CF (Delta (26)); cr 0x2C00 0x2C2F (Delta (48));
   cr 0x2C60 0x2C60 (Delta (1)); cr 0x2C62 0x2C62 (Delta (-10743));
   cr 0x2C63 0x2C63 (Delta (-3814)); cr 0x2C64 0x2C64 (Delta (-10727));
   cr 0x2C67 0x2C6C UpperLower; cr 0x2C6D 0x2C6D (Delta (-10780));
   cr 0x2C6E 0x2C6E (Delta (-10749)); cr 0x2C6F 0x2C6F (Delta (-10783));
   cr 0x2C70 0x2C70 (Delta (-10782)); cr 0x2C72 0x2C72 (Delta (1));
   cr 0x2C75 0x2C75 (Delta (1)); cr 0x2C7E 0x2C7F (Delta (-10815));
   cr 0x2C80 0x2CE3 UpperLower; cr 0x2CEB 0x2CEE UpperLower;
   cr 0x2CF2 0x2CF2 (Delta (1)); cr 0xA640 0xA66D UpperLower;
   cr 0xA680 0xA69B UpperLower; cr 0xA722 0xA72F UpperLower;
   cr 0xA732 0xA76F UpperLower; cr 0xA779 0xA77C UpperLower;
   cr 0xA77D 0xA77D (Delta (-35332)); cr 0xA77E 0xA787 UpperLower;
   cr 0xA78B 0xA78B (Delta (1)); cr 0xA78D 0xA78D (Delta (-42280));
   cr 0xA790 0xA793 UpperLower; cr 0xA796 0xA7A9 UpperLower;
   cr 0xA7AA 0xA7AA (Delta (-42308)); cr 0xA7AB 0xA7AB (Delta (-42319));
   cr 0xA7AC 0xA7AC (Delta (-42315)); cr 0xA7AD 0xA7AD (Delta (-42305));
   cr 0xA7AE 0xA7AE (Delta (-42308)); cr 0xA7B0 0xA7B0 (Delta (-42258));
   cr 0xA7B1 0xA7B1 (Delta (-42282)); cr 0xA7B2 0xA7B2 (Delta (-42261));
   cr 0xA7B3 0xA7B3 (Delta (928)); cr 0xA7B4 0xA7C3 UpperLower;
   cr 0xA7C4 0xA7C4 (Delta (-48)); cr 0xA7C5 0xA7C5 (Delta (-42307));
   cr 0xA7C6 0xA7C6 (Delta (-35384)); cr 0xA7C7 0xA7CA UpperLower;
   cr 0xA7D0 0xA7D0 (Delta (1)); cr 0xA7D6 0xA7D9 UpperLower;
   cr 0xA7F5 0xA7F5 (Delta (1)); cr 0xFF21 0xFF3A (Delta (32));
   cr 0x10400 0x10427 (Delta (40)); cr 0x104B0 0x104D3 (Delta (40));
   cr 0x10570 0x1057A (Delta (39)); cr 0x1057C 0x1058A (Delta (39));
   cr 0x1058C 0x10592 (Delta (39)); cr 0x10594 0x10595 (Delta (39));
   cr 0x10C80 0x10CB2 (Delta (64)); cr 0x118A0 0x118BF (Delta (32));
   cr 0x16E40 0x16E5F (Delta (32)); cr 0x1E900 0x1E921 (Delta (34))].

(** [to(LowerCase, r, CaseRanges)]; the ranges are disjoint, so the search
    finds the one range of [r] *)
Definition to_lower (r : utf8.rune) (caseRange : list CaseRange) : utf8.rune :=
  match find (fun c => (Lo c <=? r) && (r <=? Hi c)) caseRange with
  | Some c =>
      match lower c with
      | UpperLower => Lo c + Z.lor (Z.ldiff (r - Lo c) 1) 1
      | Delta d => r + d
      end
  | None => r
  end.

(** [unicode.ToLower] *)
Definition ToLower (r : utf8.rune) : utf8.rune :=
  if r <=? MaxASCII then
    if (65 <=? r) && (r <=? 90) then r + 32 else r
  else to_lower r CaseRanges.

End unicode.

(** ** Go's [strings] package, as far as the crawler uses it *)
Module Strings.

Definition byte (c : ascii) : nat := nat_of_ascii c.

Definition byte_eqb (a b : ascii) : bool := Ascii.eqb a b.

(** [s[n:]] and [s[:n]] *)
Fixpoint from (n : nat) (s : string) : string :=
  match n, s with
  | O, _ => s
  | S n', String _ s' => from n' s'
  | S _, EmptyString => EmptyString
  end.

Fixpoint upto (n : nat) (s : string) : string :=
  match n, s with
  | O, _ => EmptyString
  | S n', String c s' => String c (upto n' s')
  | S _, EmptyString => EmptyString
  end.

Definition HasPrefix (s p : string) : bool := String.prefix p s.

Definition HasSuffix (s suf : string) : bool :=
  (String.length suf <=? String.length s)%nat &&
  String.eqb (from (String.length s - String.length suf) s) suf.

(** [strings.Index]: [None] stands for Go's [-1]. *)
Fixpoint Index (s sub : string) : option nat :=
  if String.prefix sub s then Some O
  else match s with
       | EmptyString => None
       | String _ s' => S <$> Index s' sub
       end.

Fixpoint LastIndex (s sub : string) : option nat :=
  match s with
  | EmptyString => if String.prefix sub s then Some O else None
  | String _ s' =>
      match LastIndex s' sub with
      | Some i => Some (S i)
      | None => if String.prefix sub s then Some O else None
      end
  end.

Definition IndexByte (s : string) (c : ascii) : option nat :=
  Index s (String c EmptyString).

Definition LastIndexByte (s : string) (c : ascii) : option nat :=
  LastIndex s (String c EmptyString).

Definition Contains (s sub : string) : bool :=
  match Index s sub with Some _ => true | None => false end.

(** [strings.Count(s, sep)] for a one-byte separator. *)
Fixpoint CountByte (s : string) (c : ascii) : nat :=
  match s with
  | EmptyString => O
  | String a s' => ((if byte_eqb a c then 1 else 0) + CountByte s' c)%nat
  end.

(** [strings.Cut]: before, after, found. *)
Definition Cut (s sep : string) : string * string * bool :=
  match Index s sep with
  | Some i => (upto i s, from (i + String.length sep) s, true)
  | None => (s, EmptyString, false)
  end.

(** [strings.Map]: the runes of [s] are taken one after another, a byte
    that starts no well-formed sequence as [RuneError], and what [mapping]
    makes of each is written, unless it is negative.  [skip] counts the
    bytes of the rune just taken that are still to be passed over. *)
Fixpoint Map_from (mapping : utf8.rune → utf8.rune) (skip : nat) (s : string) : string :=
  match s with
  | EmptyString => EmptyString
  | String _ s' =>
      match skip with
      | S k => Map_from mapping k s'
      | O =>
          let '(c, width) := utf8.DecodeRuneInString s in
          let r := mapping c in
          (if r <? 0 then EmptyString else utf8.AppendRune r)
            +:+ Map_from mapping (width - 1) s'
      end
  end.

Definition Map (mapping : utf8.rune → utf8.rune) (s : string) : string :=
  Map_from mapping 0 s.

Definition lower_byte (c : ascii) : ascii :=
  let b := byte c in
  if (65 <=? b)%nat && (b <=? 90)%nat then ascii_of_nat (b + 32) else c.

Fixpoint isASCII (s : string) : bool :=
  match s with
  | EmptyString => true
  | String c s' => (byte c <? 128)%nat && isASCII s'
  end.

Fixpoint lower_bytes (s : string) : string :=
  match s with
  | EmptyString => EmptyString
  | String c s' => String (lower_byte c) (lower_bytes s')
  end.

(** [strings.ToLower]: a string of ASCII bytes is lower-cased byte by
    byte, any other rune by rune *)
Definition ToLower (s : string) : string :=
  if isASCII s then lower_bytes s else Map unicode.ToLower s.

(** byte membership in a literal set of bytes *)
Fixpoint byte_in (c : ascii) (set : string) : bool :=
  match set with
  | EmptyString => false
  | String a set' => byte_eqb c a || byte_in c set'
  end.

Definition nonempty (s : string) : bool :=
  match s with EmptyString => false | _ => true end.

End Strings.

(** ** Go's [net/url] package, as far as the crawler uses it

    [Parse], [URL.String], [URL.Port], [URL.Query], [Values.Del],
    [Values.Encode] and [URL.ResolveReference], written after the standard
    library's source, function by function.  A failed call is [None]: the
    crawler only tests the error for [nil] and logs it. *)
Module url.
Import Strings.

Record Userinfo := mkUserinfo {
  username : string;
  password : string;
  passwordSet : bool
}.

Record URL := mkURL {
  Scheme : string;
  Opaque : string;
  User : option Userinfo;
  Host : string;
  Path : string;
  RawPath : string;
  OmitHost : bool;
  ForceQuery : bool;
  RawQuery : string;
  Fragment : string;
  RawFragment : string
}.

Definition empty_URL : URL :=
  mkURL "" "" None "" "" "" false false "" "" "".

Definition with_Path (u : URL) (p : string) : URL :=
  mkURL (Scheme u) (Opaque u) (User u) (Host u) p (RawPath u)
        (OmitHost u) (ForceQuery u) (RawQuery u) (Fragment u) (RawFragment u).

Definition with_Host (u : URL) (h : string) : URL :=
  mkURL (Scheme u) (Opaque u) (User u) h (Path u) (RawPath u)
        (OmitHost u) (ForceQuery u) (RawQuery u) (Fragment u) (RawFragment u).

Definition with_RawQuery (u : URL) (q : string) : URL :=
  mkURL (Scheme u) (Opaque u) (User u) (Host u) (Path u) (RawPath u)
        (OmitHost u) (ForceQuery u) q (Fragment u) (RawFragment u).

Definition with_Fragment (u : URL) (f : string) : URL :=
  mkURL (Scheme u) (Opaque u) (User u) (Host u) (Path u) (RawPath u)
        (OmitHost u) (ForceQuery u) (RawQuery u) f (RawFragment u).

Inductive encoding :=
| encodePath | encodePathSegment | encodeHost | encodeZone
| encodeUserPassword | encodeQueryComponent | encodeFragment.

Definition hostish (mode : encoding) : bool :=
  match mode with encodeHost | encodeZone => true | _ => false end.

Definition is_lower (c : ascii) : bool := (97 <=? byte c)%nat && (byte c <=? 122)%nat.
Definition is_upper (c : ascii) : bool := (65 <=? byte c)%nat && (byte c <=? 90)%nat.
Definition is_digit (c : ascii) : bool := (48 <=? byte c)%nat && (byte c <=? 57)%nat.
Definition is_alnum (c : ascii) : bool := is_lower c || is_upper c || is_digit c.

Definition dquote : ascii := ascii_of_nat 34.

(** [shouldEscape(c, mode)] *)
Definition shouldEscape (c : ascii) (mode : encoding) : bool :=
  if is_alnum c then false
  else if hostish mode && (byte_in c "!$&'()*+,;=:[]<>" || byte_eqb c dquote) then false
  else if byte_in c "-_.~" then false
  else
    let rest := match mode with
                | encodeFragment => negb (byte_in c "!()*")
                | _ => true
                end in
    if byte_in c "$&+,/:;=?@" then
      match mode with
      | encodePath => byte_eqb c "?"
      | encodePathSegment => byte_in c "/;,?"
      | encodeUserPassword => byte_in c "@/?:"
      | encodeQueryComponent => true
      | encodeFragment => false
      | encodeHost | encodeZone => rest
      end
    else rest.

Definition ishex (c : ascii) : bool :=
  is_digit c || ((97 <=? byte c)%nat && (byte c <=? 102)%nat)
             || ((65 <=? byte c)%nat && (byte c <=? 70)%nat).

Definition unhex (c : ascii) : nat :=
  if is_digit c then (byte c - 48)%nat
  else if (97 <=? byte c)%nat && (byte c <=? 102)%nat then (byte c - 97 + 10)%nat
  else if (65 <=? byte c)%nat && (byte c <=? 70)%nat then (byte c - 65 + 10)%nat
  else O.

Definition hexval (a b : ascii) : ascii := ascii_of_nat (unhex a * 16 + unhex b).

Definition is25 (a b : ascii) : bool := byte_eqb a "2" && byte_eqb b "5".

(** First pass of [unescape]: every [%] starts a well-formed escape that
    the mode admits, and host bytes are host bytes. *)
Fixpoint unescape_ok (s : string) (mode : encoding) : bool :=
  match s with
  | EmptyString => true
  | String c s1 =>
      if byte_eqb c "%" then
        match s1 with
        | String a (String b rest) =>
            if negb (ishex a && ishex b) then false
            else if match mode with encodeHost => true | _ => false end
                    && (unhex a <? 8)%nat && negb (is25 a b) then false
            else if match mode with encodeZone => true | _ => false end
                    && negb (is25 a b) && negb (byte_eqb (hexval a b) " ")
                    && shouldEscape (hexval a b) encodeHost then false
            else unescape_ok rest mode
        | _ => false
        end
      else if byte_eqb c "+" then unescape_ok s1 mode
      else if hostish mode && (byte c <? 128)%nat && shouldEscape c encodeHost then false
      else unescape_ok s1 mode
  end.

(** Second pass of [unescape]: decode. *)
Fixpoint unescape_bytes (s : string) (mode : encoding) : string :=
  match s with
  | EmptyString => EmptyString
  | String c s1 =>
      if byte_eqb c "%" then
        match s1 with
        | String a (String b rest) => String (hexval a b) (unescape_bytes rest mode)
        | _ => String c (unescape_bytes s1 mode)
        end
      else if byte_eqb c "+" then
        String (match mode with encodeQueryComponent => " "%char | _ => c end)
               (unescape_bytes s1 mode)
      else String c (unescape_bytes s1 mode)
  end.

Definition unescape (s : string) (mode : encoding) : option string :=
  if unescape_ok s mode then Some (unescape_bytes s mode) else None.

Definition upperhex (n : nat) : ascii :=
  match String.get n "0123456789ABCDEF" with Some c => c | None => "0"%char end.

Fixpoint escape (s : string) (mode : encoding) : string :=
  match s with
  | EmptyString => EmptyString
  | String c s' =>
      if shouldEscape c mode then
        if byte_eqb c " " && match mode with encodeQueryComponent => true | _ => false end
        then String "+" (escape s' mode)
        else String "%" (String (upperhex (byte c / 16))
               (String (upperhex (byte c mod 16)) (escape s' mode)))
      else String c (escape s' mode)
  end.

Definition QueryUnescape (s : string) : option string := unescape s encodeQueryComponent.
Definition QueryEscape (s : string) : string := escape s encodeQueryComponent.

(** [getScheme]: [None] is the error "missing protocol scheme"; otherwise
    the scheme (possibly empty) and the rest. *)
Fixpoint getScheme_from (i : nat) (s whole : string) : option (string * string) :=
  match s with
  | EmptyString => Some (EmptyString, whole)
  | String c s' =>
      if is_lower c || is_upper c then getScheme_from (S i) s' whole
      else if is_digit c || byte_in c "+-." then
        match i with
        | O => Some (EmptyString, whole)
        | S _ => getScheme_from (S i) s' whole
        end
      else if byte_eqb c ":" then
        match i with
        | O => None
        | S _ => Some (upto i whole, s')
        end
      else Some (EmptyString, whole)
  end.

Definition getScheme (rawURL : string) : option (string * string) :=
  getScheme_from O rawURL rawURL.

Fixpoint all_bytes (p : ascii -> bool) (s : string) : bool :=
  match s with
  | EmptyString => true
  | String c s' => p c && all_bytes p s'
  end.

Definition stringContainsCTLByte (s : string) : bool :=
  negb (all_bytes (fun c => negb ((byte c <? 32)%nat || (byte c =? 127)%nat)) s).

Definition validOptionalPort (port : string) : bool :=
  match port with
  | EmptyString => true
  | String c digits => byte_eqb c ":" && all_bytes is_digit digits
  end.

Definition validUserinfo (s : string) : bool :=
  all_bytes (fun c => is_alnum c || byte_in c "-._:~!$&'()*+,;=%@") s.

(** [parseHost] *)
Definition parseHost (host : string) : option string :=
  if HasPrefix host "[" then
    match LastIndex host "]" with
    | None => None
    | Some i =>
        if negb (validOptionalPort (from (S i) host)) then None
        else
          match Index (upto i host) "%25" with
          | Some zone =>
              host1 ← unescape (upto zone host) encodeHost;
              host2 ← unescape (upto (i - zone) (from zone host)) encodeZone;
              host3 ← unescape (from i host) encodeHost;
              Some (host1 +:+ host2 +:+ host3)
          | None => unescape host encodeHost
          end
    end
  else
    match LastIndex host ":" with
    | Some i =>
        if negb (validOptionalPort (from i host)) then None
        else unescape host encodeHost
    | None => unescape host encodeHost
    end.

(** [parseAuthority] *)
Definition parseAuthority (authority : string) : option (option Userinfo * string) :=
  match LastIndex authority "@" with
  | None => host ← parseHost authority; Some (None, host)
  | Some i =>
      host ← parseHost (from (S i) authority);
      let userinfo := upto i authority in
      if negb (validUserinfo userinfo) then None
      else if negb (Contains userinfo ":") then
        name ← unescape userinfo encodeUserPassword;
        Some (Some (mkUserinfo name "" false), host)
      else
        let '(name, pass, _) := Cut userinfo ":" in
        name' ← unescape name encodeUserPassword;
        pass' ← unescape pass encodeUserPassword;
        Some (Some (mkUserinfo name' pass' true), host)
  end.

(** [URL.setPath]: the decoded path and the [RawPath] hint. *)
Definition setPath (u : URL) (p : string) : option URL :=
  path ← unescape p encodePath;
  let raw := if String.eqb p (escape path encodePath) then "" else p in
  Some (mkURL (Scheme u) (Opaque u) (User u) (Host u) path raw
              (OmitHost u) (ForceQuery u) (RawQuery u) (Fragment u) (RawFragment u)).

Definition setFragment (u : URL) (f : string) : option URL :=
  frag ← unescape f encodeFragment;
  let raw := if String.eqb f (escape frag encodeFragment) then "" else f in
  Some (mkURL (Scheme u) (Opaque u) (User u) (Host u) (Path u) (RawPath u)
              (OmitHost u) (ForceQuery u) (RawQuery u) frag raw).

(** [parse(rawURL, viaRequest = false)] *)
Definition parse (rawURL : string) : option URL :=
  if stringContainsCTLByte rawURL then None
  else if String.eqb rawURL "*" then Some (with_Path empty_URL "*")
  else
    '(scheme0, rest0) ← getScheme rawURL;
    let scheme := ToLower scheme0 in
    let '(rest, force, rawq) :=
      if HasSuffix rest0 "?" && (CountByte rest0 "?" =? 1)%nat
      then (upto (String.length rest0 - 1) rest0, true, "")
      else let '(r, q, _) := Cut rest0 "?" in (r, false, q) in
    let u0 := mkURL scheme "" None "" "" "" false force rawq "" "" in
    if negb (HasPrefix rest "/") && nonempty scheme then
      Some (mkURL scheme rest None "" "" "" false force rawq "" "")
    else if negb (HasPrefix rest "/") &&
            (let '(segment, _, _) := Cut rest "/" in Contains segment ":") then None
    else if (nonempty scheme || negb (HasPrefix rest "///")) && HasPrefix rest "//" then
      let auth0 := from 2 rest in
      let '(authority, rest') :=
        match Index auth0 "/" with
        | Some i => (upto i auth0, from i auth0)
        | None => (auth0, "")
        end in
      '(user, host) ← parseAuthority authority;
      setPath (mkURL scheme "" user host "" "" false force rawq "" "") rest'
    else if nonempty scheme && HasPrefix rest "/" then
      setPath (mkURL scheme "" None "" "" "" true force rawq "" "") rest
    else setPath u0 rest.

(** [url.Parse] *)
Definition Parse (rawURL : string) : option URL :=
  let '(u, frag, _) := Cut rawURL "#" in
  url ← parse u;
  if String.eqb frag "" then Some url else setFragment url frag.

(** [validEncoded] *)
Definition validEncoded (s : string) (mode : encoding) : bool :=
  all_bytes (fun c => byte_in c "!$&'()*+,;=:@[]%" || negb (shouldEscape c mode)) s.

Definition EscapedPath (u : URL) : string :=
  if nonempty (RawPath u) && validEncoded (RawPath u) encodePath
     && match unescape (RawPath u) encodePath with
        | Some p => String.eqb p (Path u)
        | None => false
        end
  then RawPath u
  else if String.eqb (Path u) "*" then "*"
  else escape (Path u) encodePath.

Definition EscapedFragment (u : URL) : string :=
  if nonempty (RawFragment u) && validEncoded (RawFragment u) encodeFragment
     && match unescape (RawFragment u) encodeFragment with
        | Some f => String.eqb f (Fragment u)
        | None => false
        end
  then RawFragment u
  else escape (Fragment u) encodeFragment.

Definition Userinfo_String (ui : Userinfo) : string :=
  escape (username ui) encodeUserPassword +:+
  (if passwordSet ui then ":" +:+ escape (password ui) encodeUserPassword else "").

Definition is_nil {A} (o : option A) : bool :=
  match o with None => true | Some _ => false end.

(** [URL.String] *)
Definition String_ (u : URL) : string :=
  let scheme := if nonempty (Scheme u) then Scheme u +:+ ":" else "" in
  let body :=
    if nonempty (Opaque u) then scheme +:+ Opaque u
    else
      let auth :=
        if nonempty (Scheme u) || nonempty (Host u) || negb (is_nil (User u)) then
          if OmitHost u && negb (nonempty (Host u)) && is_nil (User u) then ""
          else
            (if nonempty (Host u) || nonempty (Path u) || negb (is_nil (User u))
             then "//" else "") +:+
            (match User u with Some ui => Userinfo_String ui +:+ "@" | None => "" end) +:+
            (if nonempty (Host u) then escape (Host u) encodeHost else "")
        else "" in
      let path := EscapedPath u in
      let sep :=
        if nonempty path && negb (HasPrefix path "/") && nonempty (Host u)
        then "/" else "" in
      let buf := scheme +:+ auth +:+ sep in
      let dot :=
        if negb (nonempty buf) &&
           (let '(segment, _, _) := Cut path "/" in Contains segment ":")
        then "./" else "" in
      buf +:+ dot +:+ path in
  body +:+
  (if ForceQuery u || nonempty (RawQuery u) then "?" +:+ RawQuery u else "") +:+
  (if nonempty (Fragment u) then "#" +:+ EscapedFragment u else "").

(** [splitHostPort] and [URL.Port] *)
Definition splitHostPort (hostPort : string) : string * string :=
  let '(host, port) :=
    match LastIndexByte hostPort ":" with
    | Some colon =>
        if validOptionalPort (from colon hostPort)
        then (upto colon hostPort, from (S colon) hostPort)
        else (hostPort, "")
    | None => (hostPort, "")
    end in
  if HasPrefix host "[" && HasSuffix host "]"
  then (upto (String.length host - 2) (from 1 host), port)
  else (host, port).

Definition Port (u : URL) : string := snd (splitHostPort (Host u)).

(** [Values] is Go's [map[string][]string]. *)
Definition Values := gmap string (list string).

Definition add_value (m : gmap string (list string)) (key value : string)
  : gmap string (list string) :=
  <[key := (default [] (m !! key) ++ [value])%list]> m.

(** [parseQuery]: pairs are taken one [&]-separated piece at a time; a
    piece with a semicolon or a bad escape is dropped ([URL.Query] ignores
    the error). *)
Definition parsePair (m : gmap string (list string)) (piece : string)
  : gmap string (list string) :=
  if Contains piece ";" then m
  else if String.eqb piece "" then m
  else
    let '(key, value, _) := Cut piece "=" in
    match QueryUnescape key, QueryUnescape value with
    | Some k, Some v => add_value m k v
    | _, _ => m
    end.

(** the pieces of [query] between [&] separators *)
Fixpoint pieces_from (s : string) (cur : string) : list string :=
  match s with
  | EmptyString => [cur]
  | String c s' =>
      if byte_eqb c "&" then cur :: pieces_from s' EmptyString
      else pieces_from s' (cur +:+ String c EmptyString)
  end.

Definition ParseQuery (query : string) : gmap string (list string) :=
  foldl parsePair ∅ (pieces_from query EmptyString).

Definition Query (u : URL) : gmap string (list string) := ParseQuery (RawQuery u).

Definition Del (m : gmap string (list string)) (key : string)
  : gmap string (list string) := delete key m.

Definition sorted_keys (m : gmap string (list string)) : list string :=
  merge_sort (fun a b => Is_true (String.leb a b)) (fst <$> map_to_list m).

Definition join_amp (parts : list string) : string :=
  match parts with
  | [] => ""
  | p :: ps => foldl (fun acc q => acc +:+ "&" +:+ q) p ps
  end.

(** [Values.Encode]: keys sorted, the values of a key in their order. *)
Definition Encode (m : gmap string (list string)) : string :=
  join_amp
    (k ← sorted_keys m;
     (fun v => QueryEscape k +:+ "=" +:+ QueryEscape v) <$> default [] (m !! k)).

(** [resolvePath] *)
Fixpoint split_slash (s cur : string) : list string :=
  match s with
  | EmptyString => [cur]
  | String c s' =>
      if byte_eqb c "/" then cur :: split_slash s' EmptyString
      else split_slash s' (cur +:+ String c EmptyString)
  end.

(** one round of the loop: [dst] is what was written after the leading
    slash, [first] the flag of the same name *)
Definition resolve_elem (st : string * bool) (elem : string) : string * bool :=
  let '(dst, first) := st in
  if String.eqb elem "." then (dst, false)
  else if String.eqb elem ".." then
    match LastIndexByte dst "/" with
    | None => ("", true)
    | Some index => (upto index dst, first)
    end
  else ((if first then dst else dst +:+ "/") +:+ elem, false).

Definition resolvePath (base ref : string) : string :=
  let full :=
    if String.eqb ref "" then base
    else if negb (HasPrefix ref "/") then
      match LastIndex base "/" with
      | Some i => upto (S i) base +:+ ref
      | None => ref
      end
    else ref in
  if String.eqb full "" then ""
  else
    let elems := split_slash full EmptyString in
    let '(dst, _) := foldl resolve_elem ("", true) elems in
    let lastelem := List.last elems "" in
    let r := "/" +:+ dst +:+
             (if String.eqb lastelem "." || String.eqb lastelem ".." then "/" else "") in
    if (1 <? String.length r)%nat && HasPrefix (from 1 r) "/" then from 1 r else r.

Definition setPath' (u : URL) (p : string) : URL :=
  match setPath u p with Some u' => u' | None => u end.

(** [URL.ResolveReference] *)
Definition ResolveReference (u ref : URL) : URL :=
  let url := if nonempty (Scheme ref) then ref
             else mkURL (Scheme u) (Opaque ref) (User ref) (Host ref) (Path ref)
                        (RawPath ref) (OmitHost ref) (ForceQuery ref) (RawQuery ref)
                        (Fragment ref) (RawFragment ref) in
  if nonempty (Scheme ref) || nonempty (Host ref) || negb (is_nil (User ref)) then
    setPath' url (resolvePath (EscapedPath ref) "")
  else if nonempty (Opaque ref) then
    mkURL (Scheme url) (Opaque url) None "" "" (RawPath url) (OmitHost url)
          (ForceQuery url) (RawQuery url) (Fragment url) (RawFragment url)
  else
    let url1 :=
      if negb (nonempty (Path ref)) && negb (ForceQuery ref) && negb (nonempty (RawQuery ref))
      then
        let q := with_RawQuery url (RawQuery u) in
        if negb (nonempty (Fragment ref))
        then mkURL (Scheme q) (Opaque q) (User q) (Host q) (Path q) (RawPath q)
                   (OmitHost q) (ForceQuery q) (RawQuery q) (Fragment u) (RawFragment u)
        else q
      else url in
    if negb (nonempty (Path ref)) && nonempty (Opaque u) then
      mkURL (Scheme url1) (Opaque u) None "" "" (RawPath url1) (OmitHost url1)
            (ForceQuery url1) (RawQuery url1) (Fragment url1) (RawFragment url1)
    else
      setPath' (mkURL (Scheme url1) (Opaque url1) (User u) (Host u) (Path url1)
                      (RawPath url1) (OmitHost url1) (ForceQuery url1) (RawQuery url1)
                      (Fragment url1) (RawFragment url1))
               (resolvePath (EscapedPath u) (EscapedPath ref)).

End url.

(** ** Package [crawler] *)
Module crawler.
Import Strings.

(** *** [crawler/url.go] *)

Definition removeParams : list string :=
  ["utm_source"; "utm_medium"; "utm_campaign"; "utm_term"; "utm_content"].

(** [NormalizeURL]: [None] is the parse error. *)
Definition NormalizeURL (rawURL : string) : option string :=
  let rawURL :=
    if negb (HasPrefix rawURL "http://") && negb (HasPrefix rawURL "https://")
    then "https://" +:+ rawURL else rawURL in
  parsedURL ← url.Parse rawURL;
  let parsedURL :=
    if negb (Contains (url.Path parsedURL) ".") && negb (HasSuffix (url.Path parsedURL) "/")
    then url.with_Path parsedURL (url.Path parsedURL +:+ "/")
    else parsedURL in
  let query := foldl url.Del (url.Query parsedURL) removeParams in
  let parsedURL := url.with_RawQuery parsedURL (url.Encode query) in
  let parsedURL := url.with_Fragment parsedURL "" in
  let parsedURL :=
    if (String.eqb (url.Scheme parsedURL) "http" && String.eqb (url.Port parsedURL) "80")
       || (String.eqb (url.Scheme parsedURL) "https" && String.eqb (url.Port parsedURL) "443")
    then
      let host := url.Host parsedURL in
      match IndexByte host ":" with
      | Some colonIndex => url.with_Host parsedURL (upto colonIndex host)
      | None => parsedURL
      end
    else parsedURL in
  Some (url.String_ parsedURL).

Definition excludedExtensions : list string :=
  [".pdf"; ".jpg"; ".jpeg"; ".png"; ".gif"; ".svg"; ".css"; ".js";
   ".zip"; ".tar"; ".gz"; ".rar"; ".exe"; ".mp3"; ".mp4"; ".avi";
   ".mov"; ".mkv"; ".doc"; ".docx"; ".xls"; ".xlsx"; ".ppt"; ".pptx"].

Definition IsURLValid (rawURL : string) : bool :=
  if String.eqb rawURL "" then false
  else if negb (HasPrefix rawURL "http://") && negb (HasPrefix rawURL "https://") then false
  else
    match url.Parse rawURL with
    | None => false
    | Some parsedURL =>
        negb (existsb (fun ext => HasSuffix (ToLower (url.Path parsedURL)) ext)
                      excludedExtensions)
    end.

(** [ResolveURL]: [None] is either parse error. *)
Definition ResolveURL (baseURL relativeURL : string) : option string :=
  base ← url.Parse baseURL;
  if HasPrefix relativeURL "http://" || HasPrefix relativeURL "https://"
  then Some relativeURL
  else
    rel ← url.Parse relativeURL;
    Some (url.String_ (url.ResolveReference base rel)).

(** *** [crawler/fetcher.go]

    The fetch capability is the environment of the crawl.  A [World] says
    what [c.client.Do] answers for a URL ([None]: the transport fails) and
    what the clock reads.  A [Document] is what goquery finds in the body:
    the trimmed text of the title and the [href] values of the [a[href]]
    elements in document order; a body that cannot be read or parsed is
    [None].  A [Time] value is kept as its RFC 3339 text, the only thing
    the sinks print of it. *)

Definition Time := string.

Record Document := mkDocument {
  doc_title : string;
  doc_hrefs : list string
}.

Record Response := mkResponse {
  resp_StatusCode : Z;
  resp_ContentLength : Z;
  resp_ContentType : string;
  resp_Body : option Document
}.

Record World := mkWorld {
  fetch : string -> option Response;
  now : Time
}.

Record Result := mkResult {
  URL : string;
  Title : string;
  StatusCode : Z;
  ContentLength : Z;
  Links : list string;
  Depth : Z;
  Timestamp : Time
}.

Inductive crawl_error :=
| ErrInvalidURL (u : string)
| ErrRequest                      (* c.client.Do failed, cancellation included *)
| ErrStatus (code : Z)
| ErrContentType (ct : string)
| ErrParse.

Inductive logline :=
| LogResolveError (href pageurl : string)
| LogNormalizeError (absoluteURL : string)
| LogPendingIncremented (n : Z)
| LogPendingDecremented (n : Z)
| LogAllJobsCompleted
| LogAddingStart
| LogAllWorkersCompleted
| LogCompleted
| LogCancelled
| LogWorkerStarted (id : Z)
| LogWorkerShuttingDown (id : Z)
| LogWorkerExitClosed (id : Z)
| LogWorkerCrawling (id : Z) (u : string) (depth : Z)
| LogErrorCrawling (u : string) (e : crawl_error)
| LogWorkerCancelledAdding (id : Z)
| LogWorkerAdded (id : Z) (n : Z) (u : string)
| LogWorkerMaxDepth (id : Z) (maxDepth : Z) (u : string).

Definition StatusOK : Z := 200.

(** the body of the [Each] callback: the link to append, if any, and the
    line it logs, if any *)
Definition each_href (pageurl href : string) : option string * list logline :=
  if String.eqb href "" || HasPrefix href "#" then (None, [])
  else
    match ResolveURL pageurl href with
    | None => (None, [LogResolveError href pageurl])
    | Some absoluteURL =>
        match NormalizeURL absoluteURL with
        | None => (None, [LogNormalizeError absoluteURL])
        | Some normalizedURL =>
            if negb (IsURLValid normalizedURL) then (None, [])
            else (Some normalizedURL, [])
        end
    end.

Definition extract_links (pageurl : string) (hrefs : list string) : list string :=
  omap (fun h => fst (each_href pageurl h)) hrefs.

Definition extract_logs (pageurl : string) (hrefs : list string) : list logline :=
  h ← hrefs; snd (each_href pageurl h).

(** [crawlURL]: the result, the error ([None] is [nil]) and the lines
    logged on the way.  [done] says whether [c.ctx] is cancelled: the
    request carries the context, so [Do] fails once it is. *)
Definition crawlURL (W : World) (done : bool) (u : string) (depth : Z)
  : Result * option crawl_error * list logline :=
  let result := mkResult u "" 0 0 [] depth (now W) in
  if negb (IsURLValid u) then (result, Some (ErrInvalidURL u), [])
  else if done then (result, Some ErrRequest, [])
  else
    match fetch W u with
    | None => (result, Some ErrRequest, [])
    | Some resp =>
        let result := mkResult u "" (resp_StatusCode resp) (resp_ContentLength resp)
                               [] depth (now W) in
        if negb (resp_StatusCode resp =? StatusOK)
        then (result, Some (ErrStatus (resp_StatusCode resp)), [])
        else if negb (Contains (ToLower (resp_ContentType resp)) "text/html")
        then (result, Some (ErrContentType (resp_ContentType resp)), [])
        else
          match resp_Body resp with
          | None => (result, Some ErrParse, [])
          | Some doc =>
              (mkResult u (doc_title doc) (resp_StatusCode resp)
                        (resp_ContentLength resp)
                        (extract_links u (doc_hrefs doc)) depth (now W),
               None, extract_logs u (doc_hrefs doc))
          end
    end.

(** *** [crawler/crawler.go], the revision with the pending-job counter *)

Record job := mkJob { url : string; depth : Z }.

(** [Config]: durations in nanoseconds; [Storage] tells whether a sink is
    configured ([Logger] is always set by [New]). *)
Record Config := mkConfig {
  StartURL : string;
  MaxDepth : Z;
  NumWorkers : Z;
  Timeout : Z;
  RateLimit : Z;
  Storage : bool
}.

Definition Second : Z := 1000000000.
Definition Millisecond : Z := 1000000.

(** the capacity of [c.jobs]: [make(chan job, 1000)] *)
Definition jobsCap : nat := 1000.

(** the defaults that [New] fills in *)
Definition New_config (config : Config) : Config :=
  mkConfig (StartURL config)
           (if MaxDepth config <=? 0 then 2 else MaxDepth config)
           (if NumWorkers config <=? 0 then 5 else NumWorkers config)
           (if Timeout config <=? 0 then 10 * Second else Timeout config)
           (if RateLimit config <=? 0 then 100 * Millisecond else RateLimit config)
           (Storage config).

(** Where a worker goroutine stands: each constructor names the shared
    operation it performs next. *)
Inductive exit_site :=
| ExitCancelled        (* return after <-c.ctx.Done() in the outer select *)
| ExitClosed           (* return after the closed channel was read *)
| ExitAborted.         (* return after cancellation while adding a job *)

Inductive wstate :=
| WStart                                           (* about to log that it started *)
| WSelect                                          (* the outer select *)
| WFetch (j : job)                                 (* <-c.rateLimiter, then crawlURL *)
| WFailed (j : job)                                (* decrementPendingJobs after an error *)
| WStore (j : job) (r : Result)                    (* append to c.results *)
| WCheck (j : job) (link : string) (rest : list string) (added : Z)   (* hasURLBeenSeen *)
| WMark (j : job) (link : string) (rest : list string) (added : Z)    (* markURLSeen *)
| WIncr (j : job) (link : string) (rest : list string) (added : Z)    (* incrementPendingJobs *)
| WSend (j : job) (link : string) (rest : list string) (added : Z)    (* the inner select *)
| WAbort                                           (* decrementPendingJobs, then return *)
| WFinish (j : job)                                (* decrementPendingJobs, job completed *)
| WExit (e : exit_site).

(** Where the goroutine that runs [Start] stands. *)
Inductive mstate :=
| MIncr                (* incrementPendingJobs *)
| MSend                (* c.jobs <- seed *)
| MMark                (* markURLSeen(startURL) *)
| MWait                (* select on c.stopChan and c.ctx.Done() *)
| MSave                (* copy c.results under c.mu, then Storage.Save *)
| MReturn              (* return c.results *)
| MDone.

Inductive event :=
| EvLog (l : logline)
| EvSend (j : job)                 (* c.jobs <- j completed *)
| EvRecv (j : job)                 (* j read from c.jobs *)
| EvClose                          (* close(c.jobs) *)
| EvSave (rs : list Result)        (* Storage.Save(rs) *)
| EvReturn (rs : list Result).     (* Start returns rs *)

(** The crawler and its goroutines.  [jobs] is the buffer of the channel,
    oldest first; [cancelled] says that [c.ctx] is done; [panicked] that
    some goroutine panicked (closing a closed channel or sending on it),
    which ends the program. *)
Record state := mkState {
  config : Config;
  startURL : string;
  baseDomain : string;
  seen : gmap string bool;
  results : list Result;
  jobs : list job;
  jobs_closed : bool;
  cancelled : bool;
  pendingJobs : Z;
  main : mstate;
  workers : list wstate;
  trace : list event;
  panicked : bool
}.

Definition set_seen (s : state) (x : gmap string bool) : state :=
  mkState (config s) (startURL s) (baseDomain s) x (results s) (jobs s) (jobs_closed s)
          (cancelled s) (pendingJobs s) (main s) (workers s) (trace s) (panicked s).
Definition set_results (s : state) (x : list Result) : state :=
  mkState (config s) (startURL s) (baseDomain s) (seen s) x (jobs s) (jobs_closed s)
          (cancelled s) (pendingJobs s) (main s) (workers s) (trace s) (panicked s).
Definition set_jobs (s : state) (x : list job) : state :=
  mkState (config s) (startURL s) (baseDomain s) (seen s) (results s) x (jobs_closed s)
          (cancelled s) (pendingJobs s) (main s) (workers s) (trace s) (panicked s).
Definition set_jobs_closed (s : state) (x : bool) : state :=
  mkState (config s) (startURL s) (baseDomain s) (seen s) (results s) (jobs s) x
          (cancelled s) (pendingJobs s) (main s) (workers s) (trace s) (panicked s).
Definition set_cancelled (s : state) (x : bool) : state :=
  mkState (config s) (startURL s) (baseDomain s) (seen s) (results s) (jobs s) (jobs_closed s)
          x (pendingJobs s) (main s) (workers s) (trace s) (panicked s).
Definition set_pendingJobs (s : state) (x : Z) : state :=
  mkState (config s) (startURL s) (baseDomain s) (seen s) (results s) (jobs s) (jobs_closed s)
          (cancelled s) x (main s) (workers s) (trace s) (panicked s).
Definition set_main (s : state) (x : mstate) : state :=
  mkState (config s) (startURL s) (baseDomain s) (seen s) (results s) (jobs s) (jobs_closed s)
          (cancelled s) (pendingJobs s) x (workers s) (trace s) (panicked s).
Definition set_workers (s : state) (x : list wstate) : state :=
  mkState (config s) (startURL s) (baseDomain s) (seen s) (results s) (jobs s) (jobs_closed s)
          (cancelled s) (pendingJobs s) (main s) x (trace s) (panicked s).
Definition set_trace (s : state) (x : list event) : state :=
  mkState (config s) (startURL s) (baseDomain s) (seen s) (results s) (jobs s) (jobs_closed s)
          (cancelled s) (pendingJobs s) (main s) (workers s) x (panicked s).
Definition set_panicked (s : state) (x : bool) : state :=
  mkState (config s) (startURL s) (baseDomain s) (seen s) (results s) (jobs s) (jobs_closed s)
          (cancelled s) (pendingJobs s) (main s) (workers s) (trace s) x.

Definition emit (s : state) (es : list event) : state :=
  set_trace s (trace s ++ es)%list.

Definition logs (ls : list logline) : list event := EvLog <$> ls.

(** worker [i] (counted from 0; its [id] in the log is [i + 1]) moves on *)
Definition goto (s : state) (i : nat) (w : wstate) : state :=
  set_workers s (<[i := w]> (workers s)).

Definition worker_id (i : nat) : Z := Z.of_nat i + 1.

(** *** The operations on the shared crawler *)

Definition incrementPendingJobs (s : state) : state :=
  let n := pendingJobs s + 1 in
  emit (set_pendingJobs s n) [EvLog (LogPendingIncremented n)].

(** [close(c.jobs)]: closing a closed channel panics. *)
Definition close_jobs (s : state) : state :=
  if jobs_closed s then set_panicked s true
  else emit (set_jobs_closed s true) [EvClose].

Definition decrementPendingJobs (s : state) : state :=
  let n := pendingJobs s - 1 in
  let s := emit (set_pendingJobs s n) [EvLog (LogPendingDecremented n)] in
  if n <=? 0 then
    let s := emit s [EvLog LogAllJobsCompleted] in
    if n =? 0 then close_jobs s else s
  else s.

(** [c.seen[url]]: a key that is absent reads as [false]. *)
Definition hasURLBeenSeen (s : state) (u : string) : bool :=
  default false (seen s !! u).

Definition markURLSeen (s : state) (u : string) : state :=
  set_seen s (<[u := true]> (seen s)).

(** [c.jobs <- j], when it can proceed: [None] when the buffer is full
    (the sender stays blocked); sending on a closed channel panics. *)
Definition send_job (s : state) (j : job) : option state :=
  if jobs_closed s then Some (set_panicked s true)
  else if (List.length (jobs s) <? jobsCap)%nat
  then Some (emit (set_jobs s (jobs s ++ [j])%list) [EvSend j])
  else None.

(** the head of the [for _, link := range result.Links] loop: with no link
    left the worker logs its count and goes on to the final decrement *)
Definition next_link (i : nat) (j : job) (links : list string) (added : Z)
  : wstate * list event :=
  match links with
  | [] => (WFinish j, [EvLog (LogWorkerAdded (worker_id i) added (url j))])
  | link :: rest => (WCheck j link rest added, [])
  end.

Definition move (s : state) (i : nat) (p : wstate * list event) : state :=
  emit (goto s i (fst p)) (snd p).

(** *** One step of worker [i] that is not a cancellation branch *)
Definition worker_step (W : World) (i : nat) (s : state) : option state :=
  w ← workers s !! i;
  match w with
  | WStart =>
      Some (move s i (WSelect, [EvLog (LogWorkerStarted (worker_id i))]))
  | WSelect =>
      match jobs s with
      | currentJob :: rest =>
          Some (move (set_jobs s rest) i (WFetch currentJob, [EvRecv currentJob]))
      | [] =>
          if jobs_closed s
          then Some (move s i (WExit ExitClosed,
                               [EvLog (LogWorkerExitClosed (worker_id i))]))
          else None
      end
  | WFetch j =>
      let '(result, err, lines) := crawlURL W (cancelled s) (url j) (depth j) in
      let crawling := EvLog (LogWorkerCrawling (worker_id i) (url j) (depth j)) in
      match err with
      | Some e =>
          Some (move s i (WFailed j,
                          crawling :: logs lines ++ [EvLog (LogErrorCrawling (url j) e)])%list)
      | None => Some (move s i (WStore j result, crawling :: logs lines))
      end
  | WFailed j => Some (goto (decrementPendingJobs s) i WSelect)
  | WStore j result =>
      let s := set_results s (results s ++ [result])%list in
      if depth j <? MaxDepth (config s)
      then Some (move s i (next_link i j (Links result) 0))
      else Some (move s i (WFinish j,
                           [EvLog (LogWorkerMaxDepth (worker_id i) (MaxDepth (config s)) (url j))]))
  | WCheck j link rest added =>
      if negb (hasURLBeenSeen s link) then
        match url.Parse link with
        | Some linkURL =>
            if String.eqb (url.Host linkURL) (baseDomain s)
            then Some (goto s i (WMark j link rest added))
            else Some (move s i (next_link i j rest added))
        | None => Some (move s i (next_link i j rest added))
        end
      else Some (move s i (next_link i j rest added))
  | WMark j link rest added =>
      Some (goto (markURLSeen s link) i (WIncr j link rest added))
  | WIncr j link rest added =>
      Some (goto (incrementPendingJobs s) i (WSend j link rest (added + 1)))
  | WSend j link rest added =>
      s' ← send_job s (mkJob link (depth j + 1));
      if panicked s' then Some s'
      else Some (move s' i (next_link i j rest added))
  | WAbort =>
      Some (move (decrementPendingJobs s) i
                 (WExit ExitAborted, [EvLog (LogWorkerCancelledAdding (worker_id i))]))
  | WFinish j => Some (goto (decrementPendingJobs s) i WSelect)
  | WExit _ => None
  end.

(** *** Worker [i] takes the [<-c.ctx.Done()] case of the select it is at *)
Definition worker_done (i : nat) (s : state) : option state :=
  w ← workers s !! i;
  if negb (cancelled s) then None
  else
    match w with
    | WSelect =>
        Some (move s i (WExit ExitCancelled,
                        [EvLog (LogWorkerShuttingDown (worker_id i))]))
    | WSend _ _ _ _ => Some (goto s i WAbort)
    | _ => None
    end.

Definition exited (w : wstate) : bool :=
  match w with WExit _ => true | _ => false end.

(** *** One step of the goroutine that runs [Start], after the workers
    were launched

    [c.stopChan] is closed by the goroutine that waits for [c.wg], that is
    once every worker has returned.  In [MSave] the results are copied
    under [c.mu] and handed to the sink, when there is one; [Start] then
    returns [c.results] as it reads it at that later moment (a worker of a
    cancelled run may have appended to it in between).  When [Save] fails
    [Start] returns the copy instead, the value of the [EvSave] event. *)
Definition start_step (s : state) : option state :=
  match main s with
  | MIncr =>
      Some (set_main (incrementPendingJobs (emit s [EvLog LogAddingStart])) MSend)
  | MSend =>
      s' ← send_job s (mkJob (startURL s) 0);
      if panicked s' then Some s' else Some (set_main s' MMark)
  | MMark => Some (set_main (markURLSeen s (startURL s)) MWait)
  | MWait =>
      if forallb exited (workers s)
      then Some (set_main (emit s [EvLog LogAllWorkersCompleted; EvLog LogCompleted]) MSave)
      else if cancelled s
      then Some (set_main (emit s [EvLog LogCancelled]) MSave)
      else None
  | MSave =>
      Some (set_main (emit s (if Storage (config s) then [EvSave (results s)] else []))
                     MReturn)
  | MReturn => Some (set_main (emit s [EvReturn (results s)]) MDone)
  | MDone => None
  end.

(** *** The interleaving *)
Inductive action :=
| AStart                       (* the goroutine of Start *)
| AWorker (i : nat)            (* worker i performs its next operation *)
| ADone (i : nat)              (* worker i's select takes <-c.ctx.Done() *)
| ACancel.                     (* c.cancel(): Stop, a signal or the crawl timeout *)

Definition exec (W : World) (a : action) (s : state) : option state :=
  if panicked s then None
  else
    match a with
    | AStart => start_step s
    | AWorker i => worker_step W i s
    | ADone i => worker_done i s
    | ACancel => if cancelled s then None else Some (set_cancelled s true)
    end.

Definition step (W : World) (s s' : state) : Prop :=
  ∃ a, exec W a s = Some s'.

(** a schedule is run as far as it is given; [None] when one of its
    actions is not enabled *)
Fixpoint run (W : World) (sched : list action) (s : state) : option state :=
  match sched with
  | [] => Some s
  | a :: sched' => s' ← exec W a s; run W sched' s'
  end.

(** [Start] up to the launch of the workers: the seed is normalized and
    parsed, and one goroutine per worker is started. *)
Definition Start (config : Config) : option state :=
  startURL ← NormalizeURL (StartURL config);
  baseURL ← url.Parse startURL;
  Some (mkState config startURL (url.Host baseURL) ∅ [] [] false false 0
                MIncr (replicate (Z.to_nat (NumWorkers config)) WStart) [] false).

(** [New] followed by [Start] *)
Definition crawl_init (config : Config) : option state := Start (New_config config).

Inductive reachable (W : World) (config : Config) : state -> Prop :=
| reach_init s : crawl_init config = Some s -> reachable W config s
| reach_step s s' : reachable W config s -> step W s s' -> reachable W config s'.

(** the actions that can be enabled in [s] at all *)
Definition actions (s : state) : list action :=
  (AStart :: ACancel :: (AWorker <$> seq 0 (List.length (workers s)))
          ++ (ADone <$> seq 0 (List.length (workers s))))%list.

Definition enabled (W : World) (s : state) : list action :=
  filter (fun a => is_Some (exec W a s)) (actions s).

End crawler.

(** ** Package [crawler], the revision of [crawler/crawler.go] without the
    pending-job counter

    In this revision [c.jobs] is made by [make(chan job)]: it has no buffer,
    so a send and a receive are one joint step of two goroutines, and no
    statement closes it.  [Start] sends the seed outside any [select].  The
    configuration, the jobs, the results, the events and [crawlURL] are
    those of the module [crawler]. *)
Module crawler0.
Import crawler.

Inductive wstate :=
| WSelect                                             (* the outer select *)
| WFetch (j : job)                                    (* <-c.rateLimiter, then crawlURL *)
| WStore (j : job) (r : Result)                       (* append to c.results *)
| WCheck (j : job) (link : string) (rest : list string)   (* hasURLBeenSeen *)
| WMark (j : job) (link : string) (rest : list string)    (* markURLSeen *)
| WSend (j : job) (link : string) (rest : list string)    (* the inner select *)
| WExit (e : exit_site).

Inductive mstate :=
| MSend                (* c.jobs <- seed *)
| MMark                (* markURLSeen(startURL) *)
| MWait                (* select on c.stopChan and c.ctx.Done() *)
| MSave                (* copy c.results under c.mu, then Storage.Save *)
| MReturn              (* return c.results *)
| MDone.

Record state := mkState {
  config : Config;
  startURL : string;
  baseDomain : string;
  seen : gmap string bool;
  results : list Result;
  cancelled : bool;
  main : mstate;
  workers : list wstate;
  trace : list event
}.

Definition set_seen (s : state) (x : gmap string bool) : state :=
  mkState (config s) (startURL s) (baseDomain s) x (results s) (cancelled s) (main s)
          (workers s) (trace s).
Definition set_results (s : state) (x : list Result) : state :=
  mkState (config s) (startURL s) (baseDomain s) (seen s) x (cancelled s) (main s)
          (workers s) (trace s).
Definition set_cancelled (s : state) (x : bool) : state :=
  mkState (config s) (startURL s) (baseDomain s) (seen s) (results s) x (main s)
          (workers s) (trace s).
Definition set_main (s : state) (x : mstate) : state :=
  mkState (config s) (startURL s) (baseDomain s) (seen s) (results s) (cancelled s) x
          (workers s) (trace s).
Definition set_workers (s : state) (x : list wstate) : state :=
  mkState (config s) (startURL s) (baseDomain s) (seen s) (results s) (cancelled s) (main s)
          x (trace s).
Definition set_trace (s : state) (x : list event) : state :=
  mkState (config s) (startURL s) (baseDomain s) (seen s) (results s) (cancelled s) (main s)
          (workers s) x.

Definition emit (s : state) (es : list event) : state :=
  set_trace s (trace s ++ es)%list.

Definition goto (s : state) (i : nat) (w : wstate) : state :=
  set_workers s (<[i := w]> (workers s)).

Definition hasURLBeenSeen (s : state) (u : string) : bool :=
  default false (seen s !! u).

Definition markURLSeen (s : state) (u : string) : state :=
  set_seen s (<[u := true]> (seen s)).

(** the head of the loop over the links: with no link left the worker is
    back at its outer select *)
Definition next_link (j : job) (links : list string) : wstate :=
  match links with
  | [] => WSelect
  | link :: rest => WCheck j link rest
  end.

(** *** One step of worker [i] that involves no channel *)
Definition worker_step (W : World) (i : nat) (s : state) : option state :=
  w ← workers s !! i;
  match w with
  | WFetch j =>
      let '(result, err, lines) := crawlURL W (cancelled s) (url j) (depth j) in
      let crawling := EvLog (LogWorkerCrawling (worker_id i) (url j) (depth j)) in
      match err with
      | Some e =>
          Some (emit (goto s i WSelect)
                     (crawling :: logs lines ++ [EvLog (LogErrorCrawling (url j) e)])%list)
      | None => Some (emit (goto s i (WStore j result)) (crawling :: logs lines))
      end
  | WStore j result =>
      let s := set_results s (results s ++ [result])%list in
      if depth j <? MaxDepth (config s)
      then Some (goto s i (next_link j (Links result)))
      else Some (goto s i WSelect)
  | WCheck j link rest =>
      if negb (hasURLBeenSeen s link) then
        match url.Parse link with
        | Some linkURL =>
            if String.eqb (url.Host linkURL) (baseDomain s)
            then Some (goto s i (WMark j link rest))
            else Some (goto s i (next_link j rest))
        | None => Some (goto s i (next_link j rest))
        end
      else Some (goto s i (next_link j rest))
  | WMark j link rest => Some (goto (markURLSeen s link) i (WSend j link rest))
  | WSelect | WSend _ _ _ | WExit _ => None
  end.

(** *** A job passes from a sender to worker [k], which is at its outer
    select: the sender is [Start] with the seed, or worker [i] at its inner
    select *)
Definition hand (sender : option nat) (k : nat) (s : state) : option state :=
  wk ← workers s !! k;
  match wk with
  | WSelect =>
      match sender with
      | None =>
          match main s with
          | MSend =>
              let j := mkJob (startURL s) 0 in
              Some (emit (set_main (goto s k (WFetch j)) MMark) [EvSend j; EvRecv j])
          | _ => None
          end
      | Some i =>
          wi ← workers s !! i;
          match wi with
          | WSend j link rest =>
              let j' := mkJob link (depth j + 1) in
              Some (emit (goto (goto s i (next_link j rest)) k (WFetch j'))
                         [EvSend j'; EvRecv j'])
          | _ => None
          end
      end
  | _ => None
  end.

(** *** Worker [i] takes the [<-c.ctx.Done()] case of the select it is at *)
Definition worker_done (i : nat) (s : state) : option state :=
  w ← workers s !! i;
  if negb (cancelled s) then None
  else
    match w with
    | WSelect =>
        Some (emit (goto s i (WExit ExitCancelled))
                   [EvLog (LogWorkerShuttingDown (worker_id i))])
    | WSend _ _ _ => Some (goto s i (WExit ExitAborted))
    | _ => None
    end.

Definition exited (w : wstate) : bool :=
  match w with WExit _ => true | _ => false end.

(** *** One step of [Start] once the seed is sent; [c.stopChan] is closed
    when every worker has returned *)
Definition start_step (s : state) : option state :=
  match main s with
  | MSend => None
  | MMark => Some (set_main (markURLSeen s (startURL s)) MWait)
  | MWait =>
      if forallb exited (workers s)
      then Some (set_main (emit s [EvLog LogCompleted]) MSave)
      else if cancelled s
      then Some (set_main (emit s [EvLog LogCancelled]) MSave)
      else None
  | MSave =>
      Some (set_main (emit s (if Storage (config s) then [EvSave (results s)] else []))
                     MReturn)
  | MReturn => Some (set_main (emit s [EvReturn (results s)]) MDone)
  | MDone => None
  end.

Inductive action :=
| AStart                                  (* the goroutine of Start, alone *)
| AWorker (i : nat)                       (* worker i, alone *)
| AHand (sender : option nat) (k : nat)   (* a send meets the receive of worker k *)
| ADone (i : nat)                         (* worker i's select takes <-c.ctx.Done() *)
| ACancel.                                (* c.cancel() *)

Definition exec (W : World) (a : action) (s : state) : option state :=
  match a with
  | AStart => start_step s
  | AWorker i => worker_step W i s
  | AHand sender k => hand sender k s
  | ADone i => worker_done i s
  | ACancel => if cancelled s then None else Some (set_cancelled s true)
  end.

Fixpoint run (W : World) (sched : list action) (s : state) : option state :=
  match sched with
  | [] => Some s
  | a :: sched' => s' ← exec W a s; run W sched' s'
  end.

(** [Start] up to the launch of the workers *)
Definition Start (config : Config) : option state :=
  startURL ← NormalizeURL (StartURL config);
  baseURL ← url.Parse startURL;
  Some (mkState config startURL (url.Host baseURL) ∅ [] false MSend
                (replicate (Z.to_nat (NumWorkers config)) WSelect) []).

(** [New] followed by [Start] *)
Definition crawl_init (config : Config) : option state := Start (New_config config).

(** no goroutine can move; only a cancellation could still happen *)
Definition stuck (W : World) (s : state) : Prop :=
  ∀ a, a ≠ ACancel → exec W a s = None.

Definition selecting (w : wstate) : bool :=
  match w with WSelect => true | _ => false end.

Definition sending (w : wstate) : bool :=
  match w with WSend _ _ _ => true | _ => false end.

(** what every run keeps *)
Record inv (N : nat) (s : state) : Prop := mkInv {
  inv_workers : List.length (workers s) = N;
  inv_alive : cancelled s = false → Forall (fun w => exited w = false) (workers s);
  inv_seed : main s = MSend →
             Forall (fun w => w = WSelect ∨ w = WExit ExitCancelled) (workers s);
  inv_wait : main s = MSave ∨ main s = MReturn ∨ main s = MDone →
             cancelled s = true ∨ Forall (fun w => exited w = true) (workers s)
}.

End crawler0.

(** ** Package [storage] *)
Module storage.
Import Strings.

(** What [reflect] shows of a struct field: its name, its package path
    (empty when the field is exported), its [json] tag and its value, by
    kind.  Where the sink prints a value with [%v] or formats a float,
    the value carries that text. *)
Inductive fvalue :=
| KString (s : string)
| KInt (n : Z)                              (* Int, Int8, Int16, Int32, Int64 *)
| KFloat (formatted : string)               (* FormatFloat(f, 'f', 2, 64) *)
| KBool (b : bool)
| KTime (t : crawler.Time)                  (* a struct of type time.Time *)
| KStruct (printed : string)                (* any other struct *)
| KSlice (len : nat) (printed : string)
| KOther (printed : string).

Record field := mkField {
  Name : string;
  PkgPath : string;
  json : string;
  Value : fvalue
}.

(** An element of the slice as [reflect.ValueOf] of its [Interface()]
    shows it: a struct, a nil interface value (the element of a slice of
    interfaces that holds nothing), or any other value, which carries what
    [%v] prints of it. *)
Inductive item :=
| IStruct (fields : list field)
| INil
| IOther (printed : string).

(** How a call of [Save] ends: it returns [nil], it returns an error, or
    it panics. *)
Inductive ending (A : Type) : Type :=
| Returns (a : A)
| Fails
| Panics.
Arguments Returns {A} a.
Arguments Fails {A}.
Arguments Panics {A}.

(** The dynamic type and value of the [interface{}] handed to [Save]. *)
Inductive dynamic :=
| SliceInterface (items : list item)           (* []interface{} *)
| SliceEmptyStruct (n : nat)                   (* []struct{} *)
| SliceResult (rs : list crawler.Result)       (* []crawler.Result *)
| SliceOther (items : list item)               (* a slice of another type *)
| NotSlice.

Definition join_space (l : list string) : string :=
  match l with
  | [] => ""
  | x :: xs => foldl (fun acc y => acc +:+ " " +:+ y) x xs
  end.

(** [crawler.Result] as [reflect] sees it: the fields in declaration
    order with their tags. *)
Definition reflect_Result (r : crawler.Result) : item :=
  IStruct
    [ mkField "URL" "" "url" (KString (crawler.URL r));
      mkField "Title" "" "title" (KString (crawler.Title r));
      mkField "StatusCode" "" "status_code" (KInt (crawler.StatusCode r));
      mkField "ContentLength" "" "content_length" (KInt (crawler.ContentLength r));
      mkField "Links" "" "links"
              (KSlice (List.length (crawler.Links r))
                      ("[" +:+ join_space (crawler.Links r) +:+ "]"));
      mkField "Depth" "" "depth" (KInt (crawler.Depth r));
      mkField "Timestamp" "" "timestamp" (KTime (crawler.Timestamp r)) ].

(** the elements of a slice value; [None] when the value is no slice *)
Definition elements (v : dynamic) : option (list item) :=
  match v with
  | SliceInterface items => Some items
  | SliceEmptyStruct n => Some (replicate n (IStruct []))
  | SliceResult rs => Some (reflect_Result <$> rs)
  | SliceOther items => Some items
  | NotSlice => None
  end.

(** what [Start] hands to [c.config.Storage.Save] *)
Definition of_results (rs : list crawler.Result) : dynamic := SliceResult rs.

(** *** [storage/csv.go] *)

Definition exported (f : field) : bool := String.eqb (PkgPath f) "".

Definition header_of (f : field) : string :=
  if String.eqb (json f) "" then Name f else json f.

Definition headers (first : item) : option (list string) :=
  match first with
  | IStruct fields => Some ((header_of <$> filter (fun f => exported f = true) fields)
                            ++ ["LinksCount"])%list
  | INil | IOther _ => None
  end.

Definition FormatInt (n : Z) : string := pretty n.
Definition Itoa (n : nat) : string := pretty (Z.of_nat n).
Definition FormatBool (b : bool) : string := if b then "true" else "false".

Definition cell (f : field) : string :=
  match Value f with
  | KString s => s
  | KInt n => FormatInt n
  | KFloat formatted => formatted
  | KBool b => FormatBool b
  | KTime t => t
  | KStruct printed => printed
  | KSlice len printed => if String.eqb (Name f) "Links" then Itoa len else printed
  | KOther printed => printed
  end.

Definition row (it : item) : list string :=
  match it with
  | IStruct fields => cell <$> filter (fun f => exported f = true) fields
  | INil => ["<nil>"]               (* Kind() of the zero Value is Invalid *)
  | IOther printed => [printed]
  end.

Definition empty_header : list string :=
  ["URL"; "Title"; "StatusCode"; "ContentLength"; "Depth"; "Timestamp"; "LinksCount"].

(** [CSVStorage.Save] on a file that can be created: the records handed
    to the CSV writer, in order.  A value that is no slice is an error.
    When the first element is a nil interface value, [reflect.ValueOf] of it
    is the zero [Value] and [firstItemValue.Type()] panics, before anything
    is written. *)
Definition CSV_Save (results : dynamic) : ending (list (list string)) :=
  match elements results with
  | None => Fails
  | Some [] => Returns [empty_header]
  | Some (firstItem :: rest) =>
      match firstItem with
      | INil => Panics
      | _ =>
          Returns ((match headers firstItem with Some h => [h] | None => [] end)
                   ++ (row <$> firstItem :: rest))%list
      end
  end.

(** the position of a header in the header row *)
Fixpoint column (name : string) (header : list string) : option nat :=
  match header with
  | [] => None
  | h :: hs => if String.eqb h name then Some O else S <$> column name hs
  end.

(** *** [storage/json.go] *)

Definition getResultCount (results : dynamic) : Z :=
  match results with
  | SliceInterface slice => Z.of_nat (List.length slice)
  | SliceEmptyStruct n => Z.of_nat n
  | _ => 0
  end.

(** the map that [JSONStorage.Save] encodes *)
Record output := mkOutput {
  out_results : dynamic;
  out_count : Z;
  out_timestamp : crawler.Time
}.

Definition JSON_Save (W : crawler.World) (results : dynamic) : output :=
  mkOutput results (getResultCount results) (crawler.now W).

(** the number of elements of the value, when it is a slice *)
Definition len (v : dynamic) : option nat := List.length <$> elements v.

(** *** [storage/storage.go] *)

(** [filepath.Ext] where the path separator is [/]: the loop runs from the
    last byte down, stops at a separator and returns at the first dot. *)
Fixpoint Ext_loop (i : nat) (path : string) : string :=
  match i with
  | O => ""
  | S i' =>
      match String.get i' path with
      | Some c =>
          if byte_eqb c "/" then ""
          else if byte_eqb c "." then from i' path
          else Ext_loop i' path
      | None => ""
      end
  end.

Definition Ext (path : string) : string := Ext_loop (String.length path) path.

Definition IsJSONFile (path : string) : bool := String.eqb (ToLower (Ext path)) ".json".

Definition IsCSVFile (path : string) : bool := String.eqb (ToLower (Ext path)) ".csv".

(** a byte that the loop of [Ext] passes over *)
Definition plain (c : ascii) : bool :=
  negb (byte_eqb c ".") && negb (byte_eqb c "/").

(** *** What the CSV sink is to write for a [crawler.Result] *)
Definition result_header : list string :=
  ["url"; "title"; "status_code"; "content_length"; "links"; "depth"; "timestamp";
   "LinksCount"].

Definition result_row (r : crawler.Result) : list string :=
  [crawler.URL r; crawler.Title r; FormatInt (crawler.StatusCode r);
   FormatInt (crawler.ContentLength r); Itoa (List.length (crawler.Links r));
   FormatInt (crawler.Depth r); crawler.Timestamp r].

(** *** The two implementations of the [Storage] interface *)
Inductive Storage :=
| JSONStorage (filePath : string)
| CSVStorage (filePath : string).



End storage.

(** ** [main.go]: the choice of the sink *)
Module cmd.


End cmd.

(** ** Vocabulary of the statements about bytes and runes *)
Module runes.

Definition is_ascii (c : ascii) : bool := (Strings.byte c <? 128)%nat.

Definition nonascii (s : string) : bool := url.all_bytes (fun c => negb (is_ascii c)) s.

(** the first [k] bytes are there and none is an ASCII byte *)
Fixpoint cont_prefix (k : nat) (t : string) : bool :=
  match k, t with
  | O, _ => true
  | S k', String c t' => negb (is_ascii c) && cont_prefix k' t'
  | S _, EmptyString => false
  end.

(** empty, or an ASCII byte first *)
Definition starts_ascii (b : string) : bool :=
  match b with
  | EmptyString => true
  | String d _ => is_ascii d
  end.

(** what [strings.Map] writes for one rune under [unicode.ToLower] *)
Definition chunk (r : utf8.rune) : string :=
  if unicode.ToLower r <? 0 then "" else utf8.AppendRune (unicode.ToLower r).

Definition lower_from (skip : nat) (s : string) : string :=
  Strings.Map_from unicode.ToLower skip s.

(** the checks that are run over the 256 bytes and over the case table *)
Definition lead_ok (c : ascii) : bool :=
  match utf8.first (utf8.byte c) with
  | None => true
  | Some (sz, lo, hi) =>
      (0x80 <=? lo) && (hi <=? 0xBF) &&
      match sz with
      | 2%nat => 2 <=? Z.land (utf8.byte c) utf8.mask2
      | 3%nat => (1 <=? Z.land (utf8.byte c) utf8.mask3) || (0xA0 <=? lo)
      | 4%nat => (1 <=? Z.land (utf8.byte c) utf8.mask4) || (0x90 <=? lo)
      | _ => false
      end
  end.

Definition second_ok (c : ascii) : bool :=
  (implb ((0xA0 <=? utf8.byte c) && (utf8.byte c <=? 0xBF))
         (0x20 <=? Z.land (utf8.byte c) utf8.maskx))
  && (implb ((0x90 <=? utf8.byte c) && (utf8.byte c <=? 0xBF))
            (0x10 <=? Z.land (utf8.byte c) utf8.maskx)).

Definition entry_ok (c : unicode.CaseRange) : bool :=
  match unicode.lower c with
  | unicode.UpperLower => 0x80 <=? unicode.Lo c
  | unicode.Delta d =>
      (0x80 <=? unicode.Lo c + d)
      || ((unicode.Lo c =? unicode.Hi c)
          && ((unicode.Lo c + d =? 0x69) || (unicode.Lo c + d =? 0x6B)))
  end.

End runes.

(** ** Vocabulary of the statements about the crawl engine *)
Module engine.
Import crawler.

(** the host of a URL string, as [url.Parse] reports it *)
Definition host_of (u : string) : option string := url.Host <$> url.Parse u.

(** [URL.IsAbs] of [net/url]: the reference carries a scheme *)
Definition IsAbs (r : string) : Prop :=
  ∃ u, url.Parse r = Some u ∧ url.Scheme u ≠ "".

(** the test by which [ResolveURL] takes its second argument as absolute *)
Definition has_http_prefix (r : string) : bool :=
  Strings.HasPrefix r "http://" || Strings.HasPrefix r "https://".

(** How many jobs a goroutine accounts for in the pending counter: the
    job it is processing, and the child it has counted but not yet sent.
    A worker that returned while adding a job leaves its own job
    counted. *)
Definition contrib (w : wstate) : Z :=
  match w with
  | WStart | WSelect => 0
  | WFetch _ | WFailed _ | WStore _ _ | WFinish _ => 1
  | WCheck _ _ _ _ | WMark _ _ _ _ | WIncr _ _ _ _ => 1
  | WSend _ _ _ _ | WAbort => 2
  | WExit ExitAborted => 1
  | WExit _ => 0
  end.

Definition in_flight (ws : list wstate) : Z :=
  foldr (fun w acc => contrib w + acc) 0 ws.

Definition seed_pending (m : mstate) : Z :=
  match m with MSend => 1 | _ => 0 end.

(** a worker that has not touched a job yet *)
Definition early (w : wstate) : Prop :=
  match w with
  | WStart | WSelect | WExit ExitCancelled => True
  | _ => False
  end.

(** a worker on a path that only cancellation opens *)
Definition cancel_path (w : wstate) : Prop :=
  match w with
  | WAbort | WExit ExitCancelled | WExit ExitAborted => True
  | _ => False
  end.

Definition is_close (e : event) : bool :=
  match e with EvClose => true | _ => false end.

(** how often [close(c.jobs)] was executed *)
Fixpoint closes (tr : list event) : nat :=
  match tr with
  | [] => O
  | e :: tr' => ((if is_close e then 1 else 0) + closes tr')%nat
  end.

(** the queue is closed in the step from [s] to [s'] *)
Definition closes_queue (s s' : state) : Prop :=
  jobs_closed s = false ∧ jobs_closed s' = true.

(** the pending counter goes from a value other than zero to zero *)
Definition hits_zero (s s' : state) : Prop :=
  pendingJobs s ≠ 0 ∧ pendingJobs s' = 0.

(** no goroutine can move; only a cancellation could still happen *)
Definition stuck (W : World) (s : state) : Prop :=
  ∀ a, a ≠ ACancel → exec W a s = None.

(** the run ended the natural way: every worker left through the closed
    queue and [Start] returned *)
Definition completed (s : state) : Prop :=
  main s = MDone ∧ Forall (fun w => w = WExit ExitClosed) (workers s) ∧
  jobs s = [] ∧ jobs_closed s = true ∧ pendingJobs s = 0 ∧ closes (trace s) = 1%nat.

(** some worker waits to send while the buffer of the queue is full *)
Definition blocked_on_full_queue (s : state) : Prop :=
  List.length (jobs s) = jobsCap ∧
  ∃ i j link rest added, workers s !! i = Some (WSend j link rest added).

(** no page has more than [L] anchors *)
Definition anchors_bounded (W : World) (L : nat) : Prop :=
  ∀ u resp doc, fetch W u = Some resp → resp_Body resp = Some doc →
                (List.length (doc_hrefs doc) ≤ L)%nat.

(** *** A bound on the number of steps that are left

    [levels D d] is how many levels lie below depth [d]; [job_cost L k] is
    what a queued job with [k] levels below it can still cost when no page
    has more than [L] links. *)
Definition levels (D d : Z) : nat := Z.to_nat (D - d).

Fixpoint job_cost (L k : nat) : nat :=
  match k with
  | O => 5
  | S k' => 5 + L * (4 + job_cost L k')
  end.

Definition link_cost (L : nat) (D : Z) (j : job) : nat :=
  4 + job_cost L (Nat.pred (levels D (depth j))).

Definition worker_cost (L : nat) (D : Z) (w : wstate) : nat :=
  match w with
  | WStart => 2
  | WSelect => 1
  | WFetch j => 4 + (if depth j <? D then L * link_cost L D j else 0)
  | WFailed _ => 2
  | WStore j r =>
      3 + (if depth j <? D then List.length (Links r) * link_cost L D j else 0)
  | WCheck j _ rest _ => 2 + (1 + List.length rest) * link_cost L D j
  | WMark j _ rest _ => 1 + link_cost L D j + List.length rest * link_cost L D j
  | WIncr j _ rest _ => link_cost L D j + List.length rest * link_cost L D j
  | WSend j _ rest _ => link_cost L D j - 1 + List.length rest * link_cost L D j
  | WAbort => 1
  | WFinish _ => 2
  | WExit _ => 0
  end.

Definition main_cost (L : nat) (D : Z) (m : mstate) : nat :=
  match m with
  | MIncr => 6 + job_cost L (levels D 0)
  | MSend => 5 + job_cost L (levels D 0)
  | MMark => 4
  | MWait => 3
  | MSave => 2
  | MReturn => 1
  | MDone => 0
  end.

Definition sum_nat (l : list nat) : nat := foldr Nat.add O l.

Definition steps_left (L : nat) (s : state) : nat :=
  let D := MaxDepth (config s) in
  sum_nat ((fun j => job_cost L (levels D (depth j))) <$> jobs s)
  + sum_nat (worker_cost L D <$> workers s)
  + main_cost L D (main s)
  + (if cancelled s then 0 else 1)
  + (if panicked s then 0 else 1).

(** *** What holds of every job and result of a run with depth bound [D]
    on domain [dom] *)
Definition good_job (D : Z) (dom : string) (j : job) : Prop :=
  0 <= depth j <= D ∧ host_of (url j) = Some dom.

Definition good_result (D : Z) (dom : string) (r : Result) : Prop :=
  0 <= Depth r <= D ∧ host_of (URL r) = Some dom.

Definition good_worker (D : Z) (dom : string) (w : wstate) : Prop :=
  match w with
  | WFetch j | WFailed j | WFinish j => good_job D dom j
  | WStore j r => good_job D dom j ∧ URL r = url j ∧ Depth r = depth j
  | WCheck j _ _ _ => good_job D dom j ∧ depth j < D
  | WMark j link _ _ | WIncr j link _ _ | WSend j link _ _ =>
      good_job D dom j ∧ depth j < D ∧ host_of link = Some dom
  | _ => True
  end.

Definition good_event (D : Z) (dom : string) (e : event) : Prop :=
  match e with
  | EvSend j | EvRecv j => good_job D dom j
  | EvSave rs | EvReturn rs => Forall (good_result D dom) rs
  | _ => True
  end.

Record good (D : Z) (dom : string) (s : state) : Prop := mkGood {
  good_jobs : Forall (good_job D dom) (jobs s);
  good_workers : Forall (good_worker D dom) (workers s);
  good_results : Forall (good_result D dom) (results s);
  good_trace : Forall (good_event D dom) (trace s)
}.

(** a decrement that takes the counter to zero *)
Definition closing (s : state) : bool := pendingJobs s =? 1.

Definition sending (w : wstate) : bool :=
  match w with WSend _ _ _ _ => true | _ => false end.

Definition selecting (w : wstate) : bool :=
  match w with WSelect => true | _ => false end.

(** *** The accounting that ties the pending counter to the queue *)

Record accounted (s : state) : Prop := mkAccounted {
  acc_panicked : panicked s = false;
  acc_count : pendingJobs s
              = Z.of_nat (List.length (jobs s)) + in_flight (workers s) + seed_pending (main s);
  acc_closed : jobs_closed s = true ↔ (pendingJobs s = 0 ∧ main s ≠ MIncr);
  acc_early : main s = MIncr ∨ main s = MSend → jobs s = [] ∧ Forall early (workers s);
  acc_closes : closes (trace s) = if jobs_closed s then 1%nat else 0%nat;
  acc_cancel : cancelled s = false → Forall (fun w => ¬ cancel_path w) (workers s);
  acc_exit : Forall (fun w => w = WExit ExitClosed → jobs_closed s = true) (workers s);
  acc_wait : main s = MSave ∨ main s = MReturn ∨ main s = MDone →
             cancelled s = true ∨ Forall (fun w => exited w = true) (workers s)
}.

(** *** Where the jobs and the results of a run come from *)

(** [u] at depth [d] is the seed, or a link of a stored result one level
    up *)
Definition linked (s : state) (u : string) (d : Z) : Prop :=
  (d = 0 ∧ u = startURL s) ∨
  ∃ p, p ∈ results s ∧ Depth p + 1 = d ∧ u ∈ Links p.

(** [u] is marked seen; the seed is marked in the step after it was sent *)
Definition marked (s : state) (u : string) : Prop :=
  hasURLBeenSeen s u = true ∨ (main s = MMark ∧ u = startURL s).

Definition sound_job (s : state) (j : job) : Prop :=
  linked s (url j) (depth j) ∧ marked s (url j).

(** the links a worker still walks through are links of the result it
    stored for its job *)
Definition links_of_stored (s : state) (j : job) (links : list string) : Prop :=
  ∃ p, p ∈ results s ∧ Depth p = depth j ∧ links ⊆ Links p.

Definition sound_worker (s : state) (w : wstate) : Prop :=
  match w with
  | WFetch j | WFailed j | WFinish j => sound_job s j
  | WStore j r => sound_job s j ∧ URL r = url j ∧ Depth r = depth j
  | WCheck j link rest _ | WMark j link rest _ =>
      sound_job s j ∧ links_of_stored s j (link :: rest)
  | WIncr j link rest _ | WSend j link rest _ =>
      sound_job s j ∧ links_of_stored s j (link :: rest) ∧ hasURLBeenSeen s link = true
  | _ => True
  end.

Definition sound_result (s : state) (r : Result) : Prop :=
  linked s (URL r) (Depth r) ∧ marked s (URL r).

Record lineage (s : state) : Prop := mkLineage {
  lin_jobs : Forall (sound_job s) (jobs s);
  lin_workers : Forall (sound_worker s) (workers s);
  lin_results : Forall (sound_result s) (results s);
  lin_first : ∀ r, head (results s) = Some r → URL r = startURL s ∧ Depth r = 0;
  lin_early : main s = MIncr ∨ main s = MSend → results s = [];
  lin_seen : ∀ u, hasURLBeenSeen s u = true → host_of u = Some (baseDomain s)
}.

(** what a step keeps of the state it starts from *)
Record extends (s s' : state) : Prop := mkExtends {
  ext_startURL : startURL s' = startURL s;
  ext_baseDomain : baseDomain s' = baseDomain s;
  ext_results : results s `prefix_of` results s';
  ext_seen : ∀ u, hasURLBeenSeen s u = true → hasURLBeenSeen s' u = true;
  ext_mark : main s = MMark →
             main s' = MMark ∨ hasURLBeenSeen s' (startURL s) = true
}.

(** a worker holds a fetched page that waits to be stored *)
Definition storing (w : wstate) : bool :=
  match w with WStore _ _ => true | _ => false end.

(** an event that hands over no result *)
Definition empty_handed (e : event) : Prop :=
  match e with
  | EvSave rs | EvReturn rs => rs = []
  | _ => True
  end.

(** nothing was stored, nothing is about to be, nothing was handed over *)
Record barren (s : state) : Prop := mkBarren {
  bar_results : results s = [];
  bar_workers : Forall (fun w => storing w = false) (workers s);
  bar_trace : Forall empty_handed (trace s)
}.

(** *** What [Start] hands over *)

(** an event in which [Start] hands nothing over *)
Definition silent (e : event) : Prop :=
  match e with
  | EvSave _ | EvReturn _ => False
  | _ => True
  end.

(** an event in which [Start] hands over the results as they are in [s] *)
Definition current (s : state) (e : event) : Prop :=
  match e with
  | EvSave rs | EvReturn rs => rs = results s
  | _ => True
  end.

Record handed (s : state) : Prop := mkHanded {
  hand_before : main s ≠ MReturn → main s ≠ MDone → Forall silent (trace s);
  hand_current : cancelled s = false → Forall (current s) (trace s)
}.

(** *** The links that the workers have sent *)

(** the URLs of the jobs that were sent below the seed, in the order of
    the sends *)
Definition sent_links (tr : list event) : list string :=
  omap (fun e => match e with
                 | EvSend j => if depth j =? 0 then None else Some (url j)
                 | _ => None
                 end) tr.

(** the link that the worker is about to mark, count or send has not been
    sent before *)
Definition fresh (s : state) (w : wstate) : Prop :=
  match w with
  | WMark _ link _ _ | WIncr _ link _ _ | WSend _ link _ _ =>
      link ∉ sent_links (trace s)
  | _ => True
  end.

Record sent_once (s : state) : Prop := mkSentOnce {
  once_nodup : NoDup (sent_links (trace s));
  once_seen : ∀ u, u ∈ sent_links (trace s) → hasURLBeenSeen s u = true;
  once_fresh : Forall (fresh s) (workers s)
}.

(** everything that is kept along a run of [New] and [Start] on [cfg] *)
Record run_inv (cfg : Config) (s : state) : Prop := mkRunInv {
  inv_config : config s = New_config cfg;
  inv_seed : NormalizeURL (StartURL cfg) = Some (startURL s);
  inv_host : host_of (startURL s) = Some (baseDomain s);
  inv_workers : List.length (workers s) = Z.to_nat (NumWorkers (New_config cfg));
  inv_cap : (List.length (jobs s) <= jobsCap)%nat;
  inv_accounted : accounted s;
  inv_good : good (MaxDepth (New_config cfg)) (baseDomain s) s
}.

End engine.

(** ** The runs that the statements below evaluate *)
Module runs.
Import crawler.

Definition clock : Time := "2024-01-01T00:00:00Z".

(** an HTML page with the given anchors *)
Definition page (hrefs : list string) : option Response :=
  Some (mkResponse 200 (-1) "text/html; charset=utf-8" (Some (mkDocument "page" hrefs))).

(** the state after a schedule, from [New] and [Start] on *)
Definition after (W : World) (cfg : Config) (sched : list action) : option state :=
  s0 ← crawl_init cfg; run W sched s0.

Definition w0 (n : nat) : list action := replicate n (AWorker 0).
Definition w1 (n : nat) : list action := replicate n (AWorker 1).

(** *** A site whose home page links to itself, crawled by one worker *)
Definition home_world : World :=
  mkWorld (fun u => if String.eqb u "https://example.com/" then page ["/"] else None) clock.

Definition home_config : Config := mkConfig "https://example.com" 1 1 0 0 true.

(** [Start] counts and sends the seed; the worker takes it and gets as
    far as sending the link it found, before [Start] marks the seed *)
Definition home_early : list action := ([AStart; AStart] ++ w0 2)%list.

Definition home_sched : list action :=
  ([AStart; AStart] ++ w0 8 ++ [AStart] ++ w0 6 ++ [AStart; AStart; AStart])%list.

(** *** Two pages that link to the same third page, two workers *)
Definition diamond_world : World :=
  mkWorld (fun u =>
             if String.eqb u "https://example.com/" then page ["/a"; "/b"]
             else if String.eqb u "https://example.com/a/" then page ["/x"]
             else if String.eqb u "https://example.com/b/" then page ["/x"]
             else if String.eqb u "https://example.com/x/" then page []
             else None) clock.

Definition diamond_config : Config := mkConfig "https://example.com" 2 2 0 0 true.

(** worker 0 crawls the seed and sends [/a/] and [/b/]; worker 0 takes
    [/a/] and worker 1 takes [/b/]; both test [/x/] before either marks it *)
Definition diamond_tested : list action :=
  ([AStart; AStart; AStart] ++ w0 13 ++ w0 3 ++ [AWorker 1] ++ w1 3
     ++ [AWorker 0; AWorker 1])%list.

(** then each of them marks, counts and sends it *)
Definition diamond_sched : list action := (diamond_tested ++ w0 3 ++ w1 3)%list.

(** *** A home page with 1001 links, one worker *)
Definition wide_links : list string :=
  (fun k => "/p" +:+ pretty k) <$> seq 0 1001.

Definition wide_world : World :=
  mkWorld (fun u => if String.eqb u "https://example.com/" then page wide_links else None)
          clock.

Definition wide_config : Config := mkConfig "https://example.com" 1 1 0 0 true.

Definition wide_sched : list action :=
  ([AStart; AStart; AStart] ++ w0 (4 + 4 * 1000 + 3))%list.

(** *** A home page whose one link answers with status 404 *)
Definition broken_world : World :=
  mkWorld (fun u =>
             if String.eqb u "https://example.com/" then page ["/b"]
             else if String.eqb u "https://example.com/b/"
                  then Some (mkResponse 404 0 "text/html" None)
                  else None) clock.

(** the worker crawls the seed, sends [/b/] and takes it *)
Definition broken_sched : list action := ([AStart; AStart; AStart] ++ w0 10)%list.

(** *** A home page with a link on its host, a link to another host and a
    fragment *)
Definition mixed_world : World :=
  mkWorld (fun u =>
             if String.eqb u "https://example.com/"
             then page ["/a"; "https://other.com/b"; "#frag"]
             else if String.eqb u "https://example.com/a/" then page []
             else None) clock.

Definition mixed_config : Config := mkConfig "https://example.com" 1 1 0 0 true.

Definition mixed_sched : list action :=
  ([AStart; AStart; AStart] ++ w0 15 ++ [AStart; AStart; AStart])%list.

(** *** Runs of the revision without the pending-job counter, with one
    worker *)

(** cancelled before the worker has taken the seed *)
Definition strand_sched : list crawler0.action := [crawler0.ACancel; crawler0.ADone 0].

(** the home page that links to itself is crawled, and nothing is left *)
Definition idle_sched : list crawler0.action :=
  [crawler0.AHand None 0; crawler0.AStart;
   crawler0.AWorker 0; crawler0.AWorker 0; crawler0.AWorker 0].

(** the home page links to [/b]: the worker wants to send it *)
Definition deadlock_sched : list crawler0.action :=
  [crawler0.AHand None 0; crawler0.AStart;
   crawler0.AWorker 0; crawler0.AWorker 0; crawler0.AWorker 0; crawler0.AWorker 0].

End runs.

(* ===================================================================== *)
(** * Part II: proofs                                                     *)
(* ===================================================================== *)

Import crawler engine.
Open Scope list_scope.

(** ** Counting the jobs in flight *)

Lemma contrib_nonneg w : 0 <= contrib w.
Proof. destruct w as [| | | | | | | | | | |[]]; simpl; lia. Qed.

Lemma contrib_le w : contrib w <= 2.
Proof. destruct w as [| | | | | | | | | | |[]]; simpl; lia. Qed.

Lemma in_flight_nonneg ws : 0 <= in_flight ws.
Proof. induction ws as [|w ws IH]; simpl; [lia|]. pose proof (contrib_nonneg w). lia. Qed.

Lemma in_flight_insert ws i w w' :
  ws !! i = Some w →
  in_flight (<[i := w']> ws) = in_flight ws - contrib w + contrib w'.
Proof.
  revert i. induction ws as [|x ws IH]; intros [|i] Hi; simpl in *; try discriminate.
  - injection Hi as ->. lia.
  - rewrite (IH _ Hi). lia.
Qed.

Lemma in_flight_lookup ws i w : ws !! i = Some w → contrib w <= in_flight ws.
Proof.
  revert i. induction ws as [|x ws IH]; intros [|i] Hi; simpl in *; try discriminate.
  - injection Hi as ->. pose proof (in_flight_nonneg ws). lia.
  - specialize (IH _ Hi). pose proof (contrib_nonneg x). lia.
Qed.

Lemma in_flight_zero ws : Forall (fun w => contrib w = 0) ws → in_flight ws = 0.
Proof. induction 1 as [|w ws Hw _ IH]; simpl; lia. Qed.

Lemma in_flight_early ws : Forall early ws → in_flight ws = 0.
Proof.
  intros H. apply in_flight_zero. eapply Forall_impl; [exact H|].
  intros w Hw. destruct w as [| | | | | | | | | | |[]]; simpl in *; done.
Qed.

Lemma in_flight_le ws : in_flight ws <= 2 * Z.of_nat (List.length ws).
Proof.
  induction ws as [|w ws IH]; [simpl; lia|].
  pose proof (contrib_le w). cbn [in_flight foldr List.length] in *.
  fold (in_flight ws). lia.
Qed.

Lemma in_flight_replicate n : in_flight (replicate n WStart) = 0.
Proof. induction n; simpl; lia. Qed.

Lemma closes_app a b : closes (a ++ b) = (closes a + closes b)%nat.
Proof. induction a as [|e a IH]; simpl; [done|]. rewrite IH. lia. Qed.

Lemma closes_logs ls : closes (logs ls) = 0%nat.
Proof. induction ls; simpl; auto. Qed.

Lemma forallb_exited ws : forallb exited ws = true → Forall (fun w => exited w = true) ws.
Proof.
  intros H. apply Forall_forall. intros w Hw.
  eapply forallb_forall in H; [done|]. by apply list_elem_of_In.
Qed.

Lemma Forall_or_Exists {A} (p : A → bool) (l : list A) :
  Forall (fun x => p x = false) l ∨ Exists (fun x => p x = true) l.
Proof.
  induction l as [|x l [IH|IH]]; [left; constructor| |].
  - destruct (p x) eqn:Hx; [right; by left|left; by constructor].
  - right. by right.
Qed.

(** ** The fields of a state after an operation *)

Ltac proj :=
  cbn [config startURL baseDomain seen results jobs jobs_closed cancelled
       pendingJobs main workers trace panicked fst snd
       set_seen set_results set_jobs set_jobs_closed set_cancelled
       set_pendingJobs set_main set_workers set_trace set_panicked
       emit goto move incrementPendingJobs markURLSeen] in *.

Ltac dec_tac :=
  intros; unfold decrementPendingJobs, close_jobs, closing;
  repeat (case_match; proj); try done; try lia.

Lemma dec_config s : config (decrementPendingJobs s) = config s.
Proof. dec_tac. Qed.

Lemma dec_startURL s : startURL (decrementPendingJobs s) = startURL s.
Proof. dec_tac. Qed.

Lemma dec_baseDomain s : baseDomain (decrementPendingJobs s) = baseDomain s.
Proof. dec_tac. Qed.

Lemma dec_seen s : seen (decrementPendingJobs s) = seen s.
Proof. dec_tac. Qed.

Lemma dec_results s : results (decrementPendingJobs s) = results s.
Proof. dec_tac. Qed.

Lemma dec_jobs s : jobs (decrementPendingJobs s) = jobs s.
Proof. dec_tac. Qed.

Lemma dec_cancelled s : cancelled (decrementPendingJobs s) = cancelled s.
Proof. dec_tac. Qed.

Lemma dec_main s : main (decrementPendingJobs s) = main s.
Proof. dec_tac. Qed.

Lemma dec_workers s : workers (decrementPendingJobs s) = workers s.
Proof. dec_tac. Qed.

Lemma dec_pendingJobs s : pendingJobs (decrementPendingJobs s) = pendingJobs s - 1.
Proof. dec_tac. Qed.

Lemma dec_jobs_closed s :
  jobs_closed (decrementPendingJobs s) = jobs_closed s || closing s.
Proof. dec_tac; destruct (jobs_closed s); simpl; try done; lia. Qed.

Lemma dec_panicked s :
  panicked (decrementPendingJobs s) = panicked s || (jobs_closed s && closing s).
Proof. dec_tac; destruct (panicked s), (jobs_closed s); simpl in *; try done; lia. Qed.

Lemma dec_trace s :
  trace (decrementPendingJobs s)
  = (trace s ++ [EvLog (LogPendingDecremented (pendingJobs s - 1))]
       ++ (if pendingJobs s - 1 <=? 0 then [EvLog LogAllJobsCompleted] else [])
       ++ (if closing s && negb (jobs_closed s) then [EvClose] else []))%list.
Proof.
  dec_tac; rewrite <- ?app_assoc; simpl; try done; try lia.
  all: destruct (jobs_closed s); simpl in *; try done; try lia.
Qed.

Ltac dec_simpl :=
  rewrite ?dec_config, ?dec_startURL, ?dec_baseDomain, ?dec_seen, ?dec_results,
          ?dec_jobs, ?dec_cancelled, ?dec_main, ?dec_workers, ?dec_pendingJobs,
          ?dec_jobs_closed, ?dec_panicked, ?dec_trace in *.

Ltac unfold_ops := unfold next_link in *; repeat first [progress proj | progress dec_simpl].

Lemma send_job_Some s j s' :
  send_job s j = Some s' →
  (jobs_closed s = true ∧ s' = set_panicked s true) ∨
  (jobs_closed s = false ∧ (List.length (jobs s) < jobsCap)%nat ∧
   s' = emit (set_jobs s (jobs s ++ [j])) [EvSend j]).
Proof.
  unfold send_job. destruct (jobs_closed s); [intros [= <-]; by left|].
  destruct (Nat.ltb_spec (List.length (jobs s)) jobsCap); [|done].
  intros [= <-]. right. done.
Qed.

(** the case analysis of one step: which goroutine moved, from where, and
    which branch it took *)
Ltac exec_cases H :=
  unfold exec in H;
  destruct (panicked _) eqn:?; [discriminate H|];
  match type of H with
  | match ?a with _ => _ end = _ => destruct a
  end;
  [ unfold start_step in H; destruct (main _) eqn:?
  | unfold worker_step in H;
    destruct (workers _ !! _) as [[]|] eqn:?; simpl in H
  | unfold worker_done in H;
    destruct (workers _ !! _) as [[]|] eqn:?; simpl in H
  | idtac ];
  repeat (simplify_eq; try case_match; try discriminate);
  simplify_option_eq;
  repeat match goal with
         | S : send_job _ _ = Some _ |- _ =>
             apply send_job_Some in S; destruct S as [[? ->]|(? & ? & ->)]
         end;
  repeat match goal with
         | S : context [panicked _] |- _ =>
             progress cbn [panicked set_panicked emit set_jobs set_trace] in S
         | E : panicked ?s = false, S : context [panicked ?s] |- _ =>
             rewrite E in S
         end;
  simplify_eq.

Lemma step_frame W a s s' :
  exec W a s = Some s' →
  config s' = config s ∧ startURL s' = startURL s ∧ baseDomain s' = baseDomain s.
Proof. intros H. exec_cases H; unfold_ops; done. Qed.

Lemma step_workers_length W a s s' :
  exec W a s = Some s' → List.length (workers s') = List.length (workers s).
Proof. intros H. exec_cases H; proj; dec_simpl; rewrite ?length_insert; done. Qed.

Lemma step_cap W a s s' :
  exec W a s = Some s' → (List.length (jobs s) <= jobsCap)%nat →
  (List.length (jobs s') <= jobsCap)%nat.
Proof.
  intros H Hc. exec_cases H; proj; dec_simpl; rewrite ?length_app; cbn [List.length].
  all: try match goal with E : jobs _ = _ |- _ => rewrite ?E in *; cbn [List.length] in * end.
  all: lia.
Qed.

(** ** The pending counter accounts for every job *)

Ltac worker_facts :=
  repeat match goal with
         | Hi : workers ?s !! ?i = Some ?w |- _ =>
             lazymatch goal with
             | _ : contrib w <= in_flight (workers s) |- _ => fail
             | _ => pose proof (in_flight_lookup _ _ _ Hi)
             end
         end;
  repeat match goal with
         | s : state |- _ =>
             lazymatch goal with
             | _ : 0 <= in_flight (workers s) |- _ => fail
             | _ => pose proof (in_flight_nonneg (workers s))
             end
         end.

(** the arithmetic content of [accounted] *)
Lemma accounted_facts s :
  accounted s →
  panicked s = false ∧
  pendingJobs s
  = Z.of_nat (List.length (jobs s)) + in_flight (workers s) + seed_pending (main s) ∧
  0 <= in_flight (workers s) ∧ 0 <= seed_pending (main s) <= 1 ∧
  (jobs_closed s = true → pendingJobs s = 0 ∧ main s ≠ MIncr) ∧
  (jobs_closed s = false → pendingJobs s ≠ 0 ∨ main s = MIncr) ∧
  (main s = MIncr ∨ main s = MSend → jobs s = [] ∧ in_flight (workers s) = 0).
Proof.
  intros [A1 A2 A3 A4 A5 A6 A7 A8]. split_and!; try done.
  - apply in_flight_nonneg.
  - destruct (main s); simpl; lia.
  - destruct (main s); simpl; lia.
  - apply A3.
  - intros Hc. destruct (decide (pendingJobs s = 0)) as [Hp|]; [|by left].
    right. destruct (main s) eqn:Hm; try done.
    all: exfalso; assert (jobs_closed s = true) as Hc'
        by (apply A3; split; [done|congruence]).
    all: congruence.
  - intros Hm. destruct (A4 Hm) as [Hj He]. split; [done|]. by apply in_flight_early.
Qed.

Ltac start A :=
  let F := fresh "F" in
  pose proof (accounted_facts _ A) as F;
  destruct F as (F1 & F2 & F3 & F3' & F4 & F5 & F6);
  worker_facts.

Ltac arith :=
  repeat match goal with
         | H : ?m = MIncr ∨ ?m = MSend → _ |- _ =>
             first [ specialize (H (or_introl eq_refl)) | specialize (H (or_intror eq_refl)) ]
         | H : ?b = ?b → _ |- _ => specialize (H eq_refl)
         | H : true = false → _ |- _ => clear H
         | H : false = true → _ |- _ => clear H
         | H : _ ∧ _ |- _ => destruct H
         | H : _ ∨ _ |- _ => destruct H
         end;
  try match goal with E : main ?s = _ |- _ => rewrite !E in * end;
  simpl in *; try congruence; try lia; try (exfalso; lia).

(** split on whether the queue is closed and on whether a decrement closes it *)
Ltac cases s :=
  unfold closing in *;
  repeat match goal with
         | |- context [match ?l with [] => _ | _ :: _ => _ end] => destruct l eqn:?
         end;
  proj;
  try match goal with
      | E : jobs s = _ |- _ =>
          let L := fresh in pose proof (f_equal (@List.length _) E) as L; simpl in L
      end;
  try match goal with E : panicked s = false |- _ => rewrite !E in * end;
  try match goal with E : main s = _ |- _ => rewrite !E in * end;
  destruct (jobs_closed s) eqn:?; try discriminate;
  destruct (Z.eqb_spec (pendingJobs s) 1);
  simpl.

Lemma step_panicked W a s s' : exec W a s = Some s' → accounted s → panicked s' = false.
Proof.
  intros H A. exec_cases H; start A; unfold_ops; try done.
  all: cases s; arith.
Qed.

Lemma step_count W a s s' :
  exec W a s = Some s' → accounted s →
  pendingJobs s'
  = Z.of_nat (List.length (jobs s')) + in_flight (workers s') + seed_pending (main s').
Proof.
  intros H A. exec_cases H; start A; unfold_ops; try done.
  all: try (erewrite in_flight_insert by eassumption).
  all: rewrite ?length_app.
  all: cases s; arith.
Qed.

Lemma step_closed W a s s' :
  exec W a s = Some s' → accounted s →
  jobs_closed s' = true ↔ (pendingJobs s' = 0 ∧ main s' ≠ MIncr).
Proof.
  intros H A. exec_cases H; start A; unfold_ops.
  all: cases s; arith.
  all: try (split; [intros ?|intros [? ?]]; arith; try done).
  all: try (split; arith; done).
  all: destruct (main s) eqn:?; arith; split; arith; done.
Qed.

Lemma step_closes W a s s' :
  exec W a s = Some s' → accounted s →
  closes (trace s') = if jobs_closed s' then 1%nat else 0%nat.
Proof.
  intros H A. exec_cases H; pose proof (acc_closes _ A) as A5; start A; unfold_ops.
  all: rewrite ?closes_app, ?closes_logs.
  all: cases s; rewrite ?closes_app, ?closes_logs; simpl; arith.
  all: repeat case_match; simpl; arith.
Qed.

Lemma step_early W a s s' :
  exec W a s = Some s' → accounted s →
  main s' = MIncr ∨ main s' = MSend → jobs s' = [] ∧ Forall early (workers s').
Proof.
  intros H A. exec_cases H; start A; pose proof (acc_early _ A) as A4; unfold_ops.
  all: try (intros [?|?]; discriminate).
  all: try (intros _; apply A4; rewrite Heqm; by left).
  all: intros Hm; destruct (A4 Hm) as [Hj He]; try done.
  all: try (pose proof (Forall_lookup_1 _ _ _ _ He Heqo) as Hw; simpl in Hw; try done).
  all: try (split; [done|apply Forall_insert; done]).
  all: cases s; arith.
Qed.

Lemma step_cancel W a s s' :
  exec W a s = Some s' → accounted s →
  cancelled s' = false → Forall (fun w => ¬ cancel_path w) (workers s').
Proof.
  intros H A. exec_cases H; pose proof (acc_cancel _ A) as A6; unfold_ops; try done.
  all: intros Hc; try congruence; specialize (A6 Hc); try done.
  all: try (apply Forall_insert; [done|]).
  all: try (unfold next_link; repeat case_match; simpl; by auto).
  all: try (by intros []).
  all: try (pose proof (Forall_lookup_1 _ _ _ _ A6 Heqo) as Hw; simpl in Hw; done).
  all: try (rewrite Hc in *; done).
Qed.

Lemma step_exit W a s s' :
  exec W a s = Some s' → accounted s →
  Forall (fun w => w = WExit ExitClosed → jobs_closed s' = true) (workers s').
Proof.
  intros H A. exec_cases H; pose proof (acc_exit _ A) as A7; unfold_ops; try done.
  all: try (apply Forall_insert; [|unfold next_link; repeat case_match; simpl; done]).
  all: try done.
  all: try (eapply Forall_impl; [exact A7|]; simpl; intros w Hw Hx;
            rewrite (Hw Hx); done).
Qed.

Lemma step_wait W a s s' :
  exec W a s = Some s' → accounted s →
  main s' = MSave ∨ main s' = MReturn ∨ main s' = MDone →
  cancelled s' = true ∨ Forall (fun w => exited w = true) (workers s').
Proof.
  intros H A. exec_cases H; pose proof (acc_wait _ A) as A8; unfold_ops; try done.
  all: try (intros [?|[?|?]]; discriminate).
  all: try (intros _; right; by apply forallb_exited).
  all: try (intros _; by left).
  all: try (intros _; apply A8; rewrite Heqm; auto; fail).
  all: intros Hm; destruct (A8 Hm) as [Hc|He]; [by left|].
  all: pose proof (Forall_lookup_1 _ _ _ _ He Heqo) as Hw; simpl in Hw; try done.
Qed.

Lemma accounted_step W a s s' : exec W a s = Some s' → accounted s → accounted s'.
Proof.
  intros H A. split.
  - by eapply step_panicked.
  - by eapply step_count.
  - by eapply step_closed.
  - by eapply step_early.
  - by eapply step_closes.
  - by eapply step_cancel.
  - by eapply step_exit.
  - by eapply step_wait.
Qed.

(** the queue is closed in a step exactly when the counter reaches zero in it *)
Lemma step_close_iff W a s s' :
  accounted s → exec W a s = Some s' → closes_queue s s' ↔ hits_zero s s'.
Proof.
  intros A H. pose proof (accounted_step _ _ _ _ H A) as A'.
  pose proof (acc_closed _ A') as C'. pose proof (acc_closed _ A) as C.
  unfold closes_queue, hits_zero.
  exec_cases H; start A; unfold_ops.
  all: cases s; arith.
  all: try (split; intros [? ?]; arith; fail).
  all: try (destruct (main s) eqn:?; arith; split; intros [? ?]; arith; done).
Qed.

(** ** Depth and host of every job and result *)

Lemma crawlURL_ok W b u d r ls :
  crawlURL W b u d = (r, None, ls) → URL r = u ∧ Depth r = d.
Proof. unfold crawlURL. repeat case_match; intros; simplify_eq; done. Qed.

Lemma good_next_link D dom i j links added :
  good_job D dom j → depth j < D →
  good_worker D dom (next_link i j links added).1 ∧
  Forall (good_event D dom) (next_link i j links added).2.
Proof.
  intros. unfold next_link. destruct links; simpl; split; try done.
  by repeat constructor.
Qed.

Lemma good_logs D dom ls : Forall (good_event D dom) (logs ls).
Proof. unfold logs. apply Forall_fmap, Forall_true. done. Qed.

Lemma host_of_eqb link u dom :
  url.Parse link = Some u → String.eqb (url.Host u) dom = true → host_of link = Some dom.
Proof.
  intros Hp He. apply String.eqb_eq in He. unfold host_of. rewrite Hp. simpl. by rewrite He.
Qed.

Ltac good_solve :=
  repeat first
    [ done
    | lia
    | congruence
    | match goal with E : jobs _ = _ |- _ => rewrite E end
    | apply Forall_app; split
    | apply Forall_insert; [done|]
    | apply Forall_cons; split
    | apply Forall_nil
    | apply good_logs
    | eapply proj1, good_next_link
    | eapply proj2, good_next_link
    | progress simpl
    | split
    | case_match ].

Lemma good_step W a D dom s s' :
  exec W a s = Some s' →
  MaxDepth (config s) = D → baseDomain s = dom → host_of (startURL s) = Some dom →
  0 <= D →
  good D dom s → good D dom s'.
Proof.
  intros H HD Hdom Hseed HD0 [G1 G2 G3 G4].
  exec_cases H; proj; dec_simpl.
  all: try (match goal with Hi : workers _ !! _ = Some _ |- _ =>
              pose proof (Forall_lookup_1 _ _ _ _ G2 Hi) as Gw; simpl in Gw end).
  all: try match goal with E : crawlURL _ _ _ _ = (_, None, _) |- _ =>
              apply crawlURL_ok in E; destruct E end.
  all: try match goal with E : jobs _ = _ |- _ => rewrite ?E in * end.
  all: try match goal with G : Forall _ (_ :: _) |- _ => inversion G; subst end.
  all: try match goal with E : (_ <? _) = true |- _ => apply Z.ltb_lt in E end.
  all: try match goal with
           | P : url.Parse _ = Some _, E : String.eqb _ _ = true |- _ =>
               pose proof (host_of_eqb _ _ _ P E) end.
  all: split; proj; dec_simpl; try done.
  all: unfold good_job, good_result in *; destruct_and?.
  all: repeat match goal with
              | E : URL _ = _ |- _ => rewrite !E in *; clear E
              | E : Depth _ = _ |- _ => rewrite !E in *; clear E
              end.
  all: good_solve.
Qed.

(** ** Every run is finite *)

Lemma sum_nat_cons x l : sum_nat (x :: l) = (x + sum_nat l)%nat.
Proof. done. Qed.

Lemma sum_nat_app l1 l2 : sum_nat (l1 ++ l2) = (sum_nat l1 + sum_nat l2)%nat.
Proof.
  induction l1 as [|x l1 IH]; [done|].
  rewrite <- app_comm_cons, !sum_nat_cons, IH. lia.
Qed.

Lemma sum_nat_insert {A} (g : A → nat) (l : list A) i x y :
  l !! i = Some x →
  (sum_nat (g <$> <[i := y]> l) + g x = sum_nat (g <$> l) + g y)%nat.
Proof.
  revert i. induction l as [|z l IH]; intros [|i] Hi; try discriminate.
  - injection Hi as ->. change (<[0%nat:=y]> (x :: l)) with (y :: l).
    rewrite !fmap_cons, !sum_nat_cons. lia.
  - specialize (IH _ Hi). change (<[S i:=y]> (z :: l)) with (z :: <[i:=y]> l).
    rewrite !fmap_cons, !sum_nat_cons. lia.
Qed.

Lemma length_omap_le {A B} (f : A → option B) (l : list A) :
  (List.length (omap f l) <= List.length l)%nat.
Proof.
  induction l as [|x l IH]; [done|].
  change (omap f (x :: l))
    with (match f x with Some y => y :: omap f l | None => omap f l end).
  destruct (f x); simpl; lia.
Qed.

Lemma levels_succ D d : levels D (d + 1) = Nat.pred (levels D d).
Proof. unfold levels. lia. Qed.

Lemma levels_lt D d : d < D → levels D d = S (Nat.pred (levels D d)).
Proof. unfold levels. lia. Qed.

Lemma levels_ge D d : ¬ d < D → levels D d = 0%nat.
Proof. unfold levels. lia. Qed.

Lemma job_cost_lt L D d :
  (d <? D) = true →
  job_cost L (levels D d) = (5 + L * (4 + job_cost L (Nat.pred (levels D d))))%nat.
Proof. intros H%Z.ltb_lt. rewrite (levels_lt D d) at 1 by done. done. Qed.

Lemma job_cost_ge L D d : (d <? D) = false → job_cost L (levels D d) = 5%nat.
Proof. intros H%Z.ltb_ge. rewrite levels_ge by lia. done. Qed.

Lemma job_cost_pos L k : (5 <= job_cost L k)%nat.
Proof. destruct k; simpl; lia. Qed.

Section Termination.
Context (W : World) (L : nat) (HL : anchors_bounded W L).

Lemma crawlURL_links b u d r ls :
  crawlURL W b u d = (r, None, ls) → (List.length (Links r) <= L)%nat.
Proof.
  unfold crawlURL. repeat case_match; intros; simplify_eq. simpl.
  unfold extract_links. etrans; [apply length_omap_le|]. by eapply HL.
Qed.

(** each step uses up at least one of the steps that are left *)
Lemma steps_left_step a s s' :
  exec W a s = Some s' → (steps_left L s' < steps_left L s)%nat.
Proof.
  intros H.
  exec_cases H; unfold steps_left; proj; dec_simpl; set (D := MaxDepth (config s)).
  all: try match goal with Hi : workers _ !! _ = Some _ |- context [<[_ := ?w]> _] =>
             pose proof (sum_nat_insert (worker_cost L D) _ _ _ w Hi) as Hsum
           end.
  all: try match goal with E : crawlURL _ _ _ _ = (_, None, _) |- _ =>
              pose proof (crawlURL_links _ _ _ _ _ E) end.
  all: try match goal with E : jobs _ = _ |- _ => rewrite ?E in * end.
  all: try match goal with E : main _ = _ |- _ => rewrite ?E in * end.
  all: rewrite ?fmap_app, ?sum_nat_app, ?fmap_cons, ?sum_nat_cons.
  all: unfold next_link in *.
  all: repeat match goal with
              | _ : context [match ?l with [] => _ | _ :: _ => _ end] |- _ => destruct l eqn:?
              | |- context [match ?l with [] => _ | _ :: _ => _ end] => destruct l eqn:?
              end.
  all: cbn [worker_cost main_cost fst snd depth List.length fmap list_fmap sum_nat foldr] in *.
  all: unfold link_cost in *.
  all: repeat match goal with
              | |- context [job_cost ?l ?k] =>
                  lazymatch goal with
                  | _ : (5 <= job_cost l k)%nat |- _ => fail
                  | _ => pose proof (job_cost_pos l k)
                  end
              | _ : context [job_cost ?l ?k] |- _ =>
                  lazymatch goal with
                  | _ : (5 <= job_cost l k)%nat |- _ => fail
                  | _ => pose proof (job_cost_pos l k)
                  end
              end.
  all: rewrite ?levels_succ.
  all: try match goal with
           | E : Links ?r = _, Hs : context [List.length (Links ?r)] |- _ =>
               rewrite E in Hs; cbn [List.length] in Hs
           end.
  all: repeat case_match.
  all: try match goal with
           | E : (depth ?j <? ?D) = true |- _ => pose proof (job_cost_lt L _ _ E)
           | E : (depth ?j <? ?D) = false |- _ => pose proof (job_cost_ge L _ _ E)
           end.
  all: try lia.
  all: try nia.
Qed.

Lemma run_steps_left sched s s' :
  run W sched s = Some s' →
  (List.length sched + steps_left L s' <= steps_left L s)%nat.
Proof.
  revert s. induction sched as [|a sched IH]; intros s Hrun; simpl in Hrun.
  - injection Hrun as <-. simpl. lia.
  - destruct (exec W a s) as [s1|] eqn:He; simpl in Hrun; [|done].
    specialize (IH _ Hrun). pose proof (steps_left_step _ _ _ He). simpl. lia.
Qed.

End Termination.

(** ** The states of a run *)

Lemma run_app W sched1 sched2 s :
  run W (sched1 ++ sched2) s = run W sched1 s ≫= run W sched2.
Proof.
  revert s. induction sched1 as [|a sched1 IH]; intros s; simpl; [done|].
  destruct (exec W a s); simpl; [apply IH|done].
Qed.

Lemma run_reachable W cfg s0 sched s :
  crawl_init cfg = Some s0 → run W sched s0 = Some s → reachable W cfg s.
Proof.
  intros Hi. revert s. induction sched as [|a sched IH] using rev_ind; intros s Hrun.
  - injection Hrun as <-. by apply reach_init.
  - rewrite run_app in Hrun.
    destruct (run W sched s0) as [s1|] eqn:H1; simpl in Hrun; [|done].
    destruct (exec W a s1) as [s2|] eqn:H2; simpl in Hrun; [|done].
    injection Hrun as <-. eapply reach_step; [by apply IH|]. by exists a.
Qed.

Lemma run_reachable_from W cfg s sched s' :
  reachable W cfg s → run W sched s = Some s' → reachable W cfg s'.
Proof.
  intros Hr. revert s Hr. induction sched as [|a sched IH]; intros s Hr Hrun; simpl in Hrun.
  - by injection Hrun as <-.
  - destruct (exec W a s) as [s1|] eqn:He; simpl in Hrun; [|done].
    eapply IH; [|done]. eapply reach_step; [done|]. by exists a.
Qed.

Lemma reachable_run W cfg s :
  reachable W cfg s → ∃ s0 sched, crawl_init cfg = Some s0 ∧ run W sched s0 = Some s.
Proof.
  induction 1 as [s Hi|s s' _ (s0 & sched & Hi & Hrun) [a Ha]].
  - by exists s, [].
  - exists s0, (sched ++ [a]). split; [done|]. rewrite run_app, Hrun. simpl. by rewrite Ha.
Qed.

Lemma after_Some W cfg sched s :
  runs.after W cfg sched = Some s →
  ∃ s0, crawl_init cfg = Some s0 ∧ run W sched s0 = Some s.
Proof.
  unfold runs.after. destruct (crawl_init cfg) as [s0|]; simpl; [|done].
  intros H. by exists s0.
Qed.

Lemma New_config_bounds cfg :
  1 <= MaxDepth (New_config cfg) ∧ 1 <= NumWorkers (New_config cfg).
Proof. unfold New_config; simpl. split; case_match; lia. Qed.

Lemma init_facts cfg s :
  crawl_init cfg = Some s →
  config s = New_config cfg ∧
  NormalizeURL (StartURL cfg) = Some (startURL s) ∧
  host_of (startURL s) = Some (baseDomain s) ∧
  workers s = replicate (Z.to_nat (NumWorkers (New_config cfg))) WStart ∧
  main s = MIncr ∧ jobs s = [] ∧ results s = [] ∧ trace s = [] ∧ seen s = ∅ ∧
  jobs_closed s = false ∧ cancelled s = false ∧ pendingJobs s = 0 ∧ panicked s = false.
Proof.
  unfold crawl_init, Start. intros H.
  change (StartURL (New_config cfg)) with (StartURL cfg) in H.
  destruct (NormalizeURL (StartURL cfg)) as [u|] eqn:Hn; simpl in H; [|done].
  destruct (url.Parse u) as [b|] eqn:Hp; simpl in H; [|done].
  injection H as <-. simpl. unfold host_of. rewrite Hp. done.
Qed.

Lemma init_accounted cfg s : crawl_init cfg = Some s → accounted s.
Proof.
  intros (Hc & Hn & Hh & Hw & Hm & Hj & Hr & Ht & Hs & Hcl & Hca & Hp & Hpa)%init_facts.
  split; rewrite ?Hw, ?Hm, ?Hj, ?Hp, ?Ht, ?Hcl, ?Hca; simpl; try done.
  - rewrite in_flight_replicate. done.
  - split; [done|]. intros [_ ?]. done.
  - intros _. split; [done|]. apply Forall_replicate. done.
  - intros _. apply Forall_replicate. simpl. tauto.
  - apply Forall_replicate. done.
  - intros [?|[?|?]]; done.
Qed.

Lemma init_good cfg s :
  crawl_init cfg = Some s → good (MaxDepth (New_config cfg)) (baseDomain s) s.
Proof.
  intros (Hc & Hn & Hh & Hw & Hm & Hj & Hr & Ht & Hs & Hcl & Hca & Hp & Hpa)%init_facts.
  split; rewrite ?Hw, ?Hj, ?Hr, ?Ht; try done.
  apply Forall_replicate. done.
Qed.

Lemma reachable_inv W cfg s : reachable W cfg s → run_inv cfg s.
Proof.
  induction 1 as [s Hi|s s' _ IH [a Ha]].
  - pose proof (init_facts _ _ Hi) as (Hc & Hn & Hh & Hw & _ & Hj & _).
    split; try done.
    + rewrite Hw. apply length_replicate.
    + rewrite Hj. cbn [List.length]. lia.
    + by eapply init_accounted.
    + by eapply init_good.
  - destruct IH as [I1 I2 I3 I4 I5 I6 I7].
    pose proof (step_frame _ _ _ _ Ha) as (F1 & F2 & F3).
    split.
    + congruence.
    + congruence.
    + congruence.
    + erewrite step_workers_length by done. done.
    + by eapply step_cap.
    + by eapply accounted_step.
    + rewrite F3. eapply good_step; try done.
      * congruence.
      * pose proof (New_config_bounds cfg). lia.
Qed.

Lemma run_inv_run W cfg s0 sched s :
  crawl_init cfg = Some s0 → run W sched s0 = Some s → run_inv cfg s.
Proof. intros Hi Hr. eapply reachable_inv, run_reachable; done. Qed.

(** the counter stays far below the range of a 64-bit [int], so that its
    increments and decrements never wrap around *)
Lemma pending_bounded W cfg s :
  reachable W cfg s →
  0 <= pendingJobs s <= Z.of_nat jobsCap + 2 * NumWorkers (New_config cfg) + 1.
Proof.
  intros Hr. destruct (reachable_inv _ _ _ Hr) as [_ _ _ I4 Hcap A _].
  pose proof (accounted_facts _ A) as (_ & F2 & F3 & F3' & _).
  pose proof (in_flight_le (workers s)) as Hle. rewrite I4 in Hle.
  pose proof (New_config_bounds cfg) as [_ HN]. lia.
Qed.

(** ** Where a run can come to rest *)

Lemma enabled_complete W a s s' : exec W a s = Some s' → a ∈ enabled W s.
Proof.
  intros H. unfold enabled. apply list_elem_of_filter. split; [by rewrite H|].
  unfold actions. destruct a as [|i|i|].
  - left.
  - right. right. apply elem_of_app. left. apply list_elem_of_fmap. exists i. split; [done|].
    apply elem_of_seq. split; [lia|]. simpl.
    unfold exec in H. destruct (panicked s); [done|]. unfold worker_step in H.
    destruct (workers s !! i) eqn:Hi; [|done]. by apply lookup_lt_Some in Hi.
  - right. right. apply elem_of_app. right. apply list_elem_of_fmap. exists i. split; [done|].
    apply elem_of_seq. split; [lia|]. simpl.
    unfold exec in H. destruct (panicked s); [done|]. unfold worker_done in H.
    destruct (workers s !! i) eqn:Hi; [|done]. by apply lookup_lt_Some in Hi.
  - right. left.
Qed.

Lemma enabled_stuck W s : enabled W s = [ACancel] ∨ enabled W s = [] → stuck W s.
Proof.
  intros He a Ha. destruct (exec W a s) as [s'|] eqn:Hx; [|done].
  apply enabled_complete in Hx. destruct He as [He|He]; rewrite He in Hx.
  - apply list_elem_of_singleton in Hx. done.
  - by apply not_elem_of_nil in Hx.
Qed.

(** why a worker cannot move *)
Lemma worker_blocked W i s w :
  workers s !! i = Some w → worker_step W i s = None →
  (w = WSelect ∧ jobs s = [] ∧ jobs_closed s = false) ∨
  (sending w = true ∧ jobs_closed s = false ∧ (jobsCap <= List.length (jobs s))%nat) ∨
  exited w = true.
Proof.
  intros Hi. unfold worker_step. rewrite Hi. simpl.
  destruct w; simpl; try done; repeat case_match; try done; auto.
  all: unfold send_job; destruct (jobs_closed s); simpl; try (case_match; done).
  all: destruct (Nat.ltb_spec (List.length (jobs s)) jobsCap); simpl; try (case_match; done).
  all: try (intros; discriminate).
  all: auto.
Qed.

Lemma stuck_cases W cfg s :
  reachable W cfg s → cancelled s = false → stuck W s →
  completed s ∨ blocked_on_full_queue s.
Proof.
  intros Hr Hnc Hst.
  destruct (reachable_inv _ _ _ Hr) as [I1 I2 I3 I4 Hcap [A1 A2 A3 A4 A5 A6 A7 A8] _].
  assert (Hw : ∀ i w, workers s !! i = Some w →
            (w = WSelect ∧ jobs s = [] ∧ jobs_closed s = false) ∨
            (sending w = true ∧ jobs_closed s = false
             ∧ (jobsCap <= List.length (jobs s))%nat) ∨
            exited w = true).
  { intros i w Hi. eapply worker_blocked; [done|].
    specialize (Hst (AWorker i)). unfold exec in Hst. rewrite A1 in Hst. by apply Hst. }
  assert (Hm : start_step s = None).
  { specialize (Hst AStart). unfold exec in Hst. rewrite A1 in Hst. by apply Hst. }
  specialize (A6 Hnc).
  destruct (Forall_or_Exists sending (workers s)) as [Hns|Hs].
  2:{ right. apply Exists_exists in Hs as (w & Hin & Hsw).
      apply list_elem_of_lookup in Hin as [i Hi].
      destruct (Hw _ _ Hi) as [(-> & _)|[(_ & _ & Hfull)|Hex]]; try done.
      - split; [lia|]. destruct w; try done. by exists i, j, link, rest, added.
      - destruct w; done. }
  left.
  destruct (Forall_or_Exists selecting (workers s)) as [Hnsel|Hsel].
  2:{ exfalso. apply Exists_exists in Hsel as (w & Hin & Hsw).
      apply list_elem_of_lookup in Hin as [i Hi].
      destruct (Hw _ _ Hi) as [(-> & Hj & Hcl)|[(Hx & _)|Hex]];
        [|destruct w; done|destruct w; done].
      assert (in_flight (workers s) = 0) as Hif.
      { apply in_flight_zero. apply Forall_lookup. intros k w Hk.
        pose proof (Forall_lookup_1 _ _ _ _ A6 Hk) as Hcp.
        destruct (Hw _ _ Hk) as [(-> & _)|[(Hx & _)|Hex]]; [reflexivity| |].
        - pose proof (Forall_lookup_1 _ _ _ _ Hns Hk) as Hn. simpl in Hn. congruence.
        - destruct w as [| | | | | | | | | | |[]]; simpl in *; try done; tauto. }
      rewrite Hj, Hif in A2. simpl in A2.
      unfold start_step in Hm. destruct (main s) eqn:Hmain; try done.
      + unfold send_job in Hm. rewrite Hcl, Hj in Hm.
        change (List.length (@nil job) <? jobsCap)%nat with true in Hm.
        cbn [mbind option_bind panicked emit set_jobs set_trace] in Hm.
        rewrite A1 in Hm. done.
      + assert (jobs_closed s = true) by (apply A3; split; [done|congruence]). congruence.
      + assert (jobs_closed s = true) by (apply A3; split; [done|congruence]). congruence. }
  assert (Hall : Forall (fun w => w = WExit ExitClosed) (workers s)).
  { apply Forall_lookup. intros k w Hk.
    pose proof (Forall_lookup_1 _ _ _ _ A6 Hk) as Hcp.
    pose proof (Forall_lookup_1 _ _ _ _ Hns Hk) as Hn.
    pose proof (Forall_lookup_1 _ _ _ _ Hnsel Hk) as Hn'.
    destruct (Hw _ _ Hk) as [(-> & _)|[(Hx & _)|Hex]]; [done|simpl in *; congruence|].
    destruct w as [| | | | | | | | | | |[]]; simpl in *; try done; tauto. }
  assert (Hexd : forallb exited (workers s) = true).
  { apply forallb_forall. intros w Hin%list_elem_of_In.
    eapply Forall_forall in Hall; [|done]. by subst. }
  assert (Hcl : jobs_closed s = true).
  { pose proof (New_config_bounds cfg) as [_ HN].
    destruct (workers s) as [|w ws] eqn:Hws; [cbn [List.length] in I4; lia|].
    inversion Hall; subst. inversion A7; subst. auto. }
  apply A3 in Hcl as Hp. destruct Hp as [Hp Hnm].
  assert (Hmain : main s = MDone).
  { unfold start_step in Hm. rewrite Hexd in Hm.
    destruct (main s); try done.
    unfold send_job in Hm. rewrite Hcl in Hm. done. }
  assert (in_flight (workers s) = 0) as Hif.
  { apply in_flight_zero. eapply Forall_impl; [exact Hall|]. by intros w ->. }
  split_and!; try done.
  - rewrite Hp, Hif, Hmain in A2. simpl in A2. destruct (jobs s); [done|simpl in A2; lia].
  - by rewrite A5, Hcl.
Qed.

(* ===================================================================== *)
(** * Part III: the statements of the specification, C1 to C10            *)
(* ===================================================================== *)

(** ** C1: closing the queue and termination *)

Lemma wide_run_facts :
  (s ← runs.after runs.wide_world runs.wide_config runs.wide_sched;
   Some (cancelled s, enabled runs.wide_world s, main s, jobs_closed s, pendingJobs s,
         List.length (jobs s), closes (trace s), forallb sending (workers s)))
  = Some (false, [ACancel], MWait, false, 1002, 1000%nat, 0%nat, true).
Proof. vm_compute. reflexivity. Qed.

Lemma wide_anchors : anchors_bounded runs.wide_world 1001.
Proof.
  intros u resp doc. cbn [fetch runs.wide_world].
  destruct (String.eqb u "https://example.com/"); [|done].
  intros [= <-]. cbn [resp_Body runs.page]. intros [= <-]. cbn [doc_hrefs].
  unfold runs.wide_links. by rewrite length_fmap, length_seq.
Qed.

Lemma stuck_stays W s sched s' :
  stuck W s → ACancel ∉ sched → run W sched s = Some s' → s' = s.
Proof.
  intros Hst Hn. destruct sched as [|a sched]; simpl; [by intros [= <-]|].
  rewrite Hst; [done|]. intros ->. apply Hn. by left.
Qed.

(** C1, the code at the failing input.  Nothing is cancelled.  The site
    is one page with 1001 links to its own host, crawled by one worker to
    depth 1.  The worker takes the seed, stores the page and sends link
    after link; after 1000 sends the buffer of the queue is full, and the
    worker, who alone reads the queue, waits to send the last link.  [Start]
    waits for the worker.  No goroutine can move, and as long as the run is
    not cancelled none ever will: the queue is never closed, and the counter
    stays at 1002. *)
Theorem C1_full_queue_blocks_the_crawl :
  anchors_bounded runs.wide_world 1001 ∧
  ∃ s0 s, crawl_init runs.wide_config = Some s0 ∧
          run runs.wide_world runs.wide_sched s0 = Some s ∧
          cancelled s = false ∧ main s = MWait ∧
          Forall (fun w => sending w = true) (workers s) ∧
          List.length (jobs s) = jobsCap ∧
          jobs_closed s = false ∧ closes (trace s) = 0%nat ∧ pendingJobs s = 1002 ∧
          stuck runs.wide_world s ∧ ¬ completed s ∧
          (∀ sched s', ACancel ∉ sched → run runs.wide_world sched s = Some s' → s' = s).
Proof.
  split; [exact wide_anchors|].
  pose proof wide_run_facts as H.
  destruct (runs.after runs.wide_world runs.wide_config runs.wide_sched)
    as [s|] eqn:Ha; cbn [mbind option_bind] in H; [|discriminate H].
  apply after_Some in Ha as (s0 & Hi & Hr).
  injection H as Hc He Hm Hcl Hp Hl Ht Hs.
  assert (Hst : stuck runs.wide_world s) by (apply enabled_stuck; left; exact He).
  exists s0, s.
  split; [exact Hi|]. split; [exact Hr|]. split; [exact Hc|]. split; [exact Hm|].
  split.
  { apply Forall_forall. intros w Hw. rewrite forallb_forall in Hs. apply Hs.
    by apply list_elem_of_In. }
  split; [exact Hl|]. split; [exact Hcl|]. split; [exact Ht|]. split; [exact Hp|].
  split; [exact Hst|]. split.
  - intros (Hd & _). congruence.
  - intros sched s'. by apply stuck_stays.
Qed.

(** ** C2: the test and the mark of the seen set *)

(** C2, the code at the failing input.  Two workers crawl two pages that
    both link to [/x/].  [hasURLBeenSeen] and [markURLSeen] are two critical
    sections: after both workers have tested [/x/], both stand before
    [markURLSeen] with [/x/] still unmarked; both then mark it, count it and
    send it, and the queue holds the job twice. *)
Lemma C2_same_link_enqueued_twice :
  (s ← runs.after runs.diamond_world runs.diamond_config runs.diamond_tested;
   Some (workers s, seen s !! "https://example.com/x/"))
  = Some ([WMark (mkJob "https://example.com/a/" 1) "https://example.com/x/" [] 0;
           WMark (mkJob "https://example.com/b/" 1) "https://example.com/x/" [] 0],
          None) ∧
  (s ← runs.after runs.diamond_world runs.diamond_config runs.diamond_sched;
   Some (jobs s, seen s !! "https://example.com/x/", pendingJobs s))
  = Some ([mkJob "https://example.com/x/" 2; mkJob "https://example.com/x/" 2],
          Some true, 4).
Proof. split; vm_compute; reflexivity. Qed.

(** ** C3: the depth bound *)

(** C3.  In every state of every run with effective maximum depth [D]
    (the configured depth after the defaults of [New], at least 1): every
    job in the queue, every job that was ever sent on the queue, the job a
    worker is about to send, every result in the collection and every
    result [Start] returns has depth at most [D]. *)
Theorem C3_depth_never_exceeds_max_depth
  (W : World) (cfg : Config) (s0 : state) (sched : list action) (s : state) :
  crawl_init cfg = Some s0 → run W sched s0 = Some s →
  let D := MaxDepth (New_config cfg) in
  MaxDepth (config s) = D ∧ 1 <= D ∧
  (∀ j, j ∈ jobs s → depth j <= D) ∧
  (∀ j, EvSend j ∈ trace s → depth j <= D) ∧
  (∀ i j link rest added,
     workers s !! i = Some (WSend j link rest added) → depth j + 1 <= D) ∧
  (∀ r, r ∈ results s → Depth r <= D) ∧
  (∀ rs r, EvReturn rs ∈ trace s → r ∈ rs → Depth r <= D).
Proof.
  intros Hi Hr D. destruct (run_inv_run _ _ _ _ _ Hi Hr) as [I1 _ _ _ _ _ [G1 G2 G3 G4]].
  fold D in G1, G2, G3, G4.
  split_and!.
  - by rewrite I1.
  - apply New_config_bounds.
  - intros j Hj. eapply Forall_forall in G1; [|done]. apply G1.
  - intros j Hj. eapply Forall_forall in G4; [|done]. apply G4.
  - intros i j link rest added Hw. eapply Forall_lookup_1 in G2; [|done].
    simpl in G2. lia.
  - intros r Hx. eapply Forall_forall in G3; [|done]. apply G3.
  - intros rs r Hrs Hx. eapply Forall_forall in G4; [|done]. simpl in G4.
    eapply Forall_forall in G4; [|done]. apply G4.
Qed.

(** C3, witness: the complete crawl of a site with one inner and one foreign link. *)
Lemma C3_witness :
  ∃ s0 s, crawl_init runs.mixed_config = Some s0 ∧
          run runs.mixed_world runs.mixed_sched s0 = Some s ∧
          let D := MaxDepth (New_config runs.mixed_config) in
          MaxDepth (config s) = D ∧ 1 <= D ∧
          (∀ j, j ∈ jobs s → depth j <= D) ∧
          (∀ j, EvSend j ∈ trace s → depth j <= D) ∧
          (∀ i j link rest added,
             workers s !! i = Some (WSend j link rest added) → depth j + 1 <= D) ∧
          (∀ r, r ∈ results s → Depth r <= D) ∧
          (∀ rs r, EvReturn rs ∈ trace s → r ∈ rs → Depth r <= D).
Proof.
  eexists _, _. split; [vm_compute; reflexivity|]. split; [vm_compute; reflexivity|].
  eapply (C3_depth_never_exceeds_max_depth runs.mixed_world runs.mixed_config _
            runs.mixed_sched).
  - vm_compute; reflexivity.
  - vm_compute; reflexivity.
Defined.

(** ** C4: the domain of the results *)

(** C4.  In every state of every run the seed normalizes to a URL with a
    host, and every result in the collection, and every result that [Start]
    saves or returns, has a URL whose host is that same string. *)
Theorem C4_results_stay_on_the_seed_host
  (W : World) (cfg : Config) (s0 : state) (sched : list action) (s : state) :
  crawl_init cfg = Some s0 → run W sched s0 = Some s →
  ∃ seed host,
    NormalizeURL (StartURL cfg) = Some seed ∧ host_of seed = Some host ∧
    (∀ r, r ∈ results s → host_of (URL r) = Some host) ∧
    (∀ rs r, EvReturn rs ∈ trace s ∨ EvSave rs ∈ trace s → r ∈ rs →
             host_of (URL r) = Some host).
Proof.
  intros Hi Hr. destruct (run_inv_run _ _ _ _ _ Hi Hr) as [_ I2 I3 _ _ _ [_ _ G3 G4]].
  exists (startURL s), (baseDomain s). split_and!; try done.
  - intros r Hx. eapply Forall_forall in G3; [|done]. apply G3.
  - intros rs r [Hrs|Hrs] Hx; (eapply Forall_forall in G4; [|done]); simpl in G4;
      (eapply Forall_forall in G4; [|done]); apply G4.
Qed.

(** C4, witness: the home page links to [/a], to a page of another host and
    to a fragment; the crawl returns the home page and [/a/]. *)
Lemma C4_witness :
  ∃ s0 s, crawl_init runs.mixed_config = Some s0 ∧
          run runs.mixed_world runs.mixed_sched s0 = Some s ∧
    ∃ seed host,
      NormalizeURL (StartURL runs.mixed_config) = Some seed ∧ host_of seed = Some host ∧
      (∀ r, r ∈ results s → host_of (URL r) = Some host) ∧
      (∀ rs r, EvReturn rs ∈ trace s ∨ EvSave rs ∈ trace s → r ∈ rs →
               host_of (URL r) = Some host).
Proof.
  eexists _, _. split; [vm_compute; reflexivity|]. split; [vm_compute; reflexivity|].
  eapply (C4_results_stay_on_the_seed_host runs.mixed_world runs.mixed_config _
            runs.mixed_sched).
  - vm_compute; reflexivity.
  - vm_compute; reflexivity.
Defined.

(** the end-to-end example of the specification: exactly the seed and [/a/] *)
Lemma mixed_run_results :
  (s ← runs.after runs.mixed_world runs.mixed_config runs.mixed_sched;
   Some (URL <$> results s, main s, enabled runs.mixed_world s))
  = Some (["https://example.com/"; "https://example.com/a/"], MDone, [ACancel]).
Proof. vm_compute. reflexivity. Qed.

(** ** C5: normalization twice *)

(** C5, the code at the failing input.  For the valid URL
    [https://[::1]:443/] the default port is cut off at the first colon of
    the host, which lies inside the IPv6 literal: [NormalizeURL] succeeds
    with [https://[/], and on that output it fails. *)
Lemma C5_ipv6_default_port_breaks_idempotence :
  IsURLValid "https://[::1]:443/" = true ∧
  NormalizeURL "https://[::1]:443/" = Some "https://[/" ∧
  NormalizeURL "https://[/" = None.
Proof. vm_compute. done. Qed.

(** ** C6: resolving a link *)

(** C6, counterexample.  [HTTP://example.com/] is an absolute URL, and the
    base parses; [ResolveURL] does not return it unchanged but parses and
    prints it again, with the scheme in lower case. *)
Lemma C6_uppercase_scheme_is_rewritten :
  is_Some (url.Parse "https://example.com/") ∧ IsAbs "HTTP://example.com/" ∧
  ResolveURL "https://example.com/" "HTTP://example.com/" = Some "http://example.com/" ∧
  ResolveURL "https://example.com/" "HTTP://example.com/" ≠ Some "HTTP://example.com/".
Proof.
  split_and!.
  - vm_compute. eauto.
  - eexists. split; [vm_compute; reflexivity|]. simpl. discriminate.
  - vm_compute. reflexivity.
  - vm_compute. discriminate.
Qed.

(** C6, as amended.  For every base URL that parses: a second argument
    that starts with [http://] or [https://] is returned unchanged; any other
    second argument is parsed, resolved against the base by
    [URL.ResolveReference] and printed, and the call fails when it does not
    parse. *)
Theorem C6_ResolveURL_returns_http_urls_unchanged (b r : string) (base : url.URL) :
  url.Parse b = Some base →
  (has_http_prefix r = true → ResolveURL b r = Some r) ∧
  (has_http_prefix r = false →
   ResolveURL b r = (fun rel => url.String_ (url.ResolveReference base rel)) <$> url.Parse r).
Proof.
  intros Hb. unfold ResolveURL, has_http_prefix. rewrite Hb. simpl.
  split; intros ->; [done|]. destruct (url.Parse r); done.
Qed.

(** C6, witness: an absolute link and a relative link on the same base. *)
Lemma C6_witness :
  url.Parse "https://example.com/a/b"
  = Some (url.mkURL "https" "" None "example.com" "/a/b" "" false false "" "" "") ∧
  ResolveURL "https://example.com/a/b" "https://other.org/x" = Some "https://other.org/x" ∧
  ResolveURL "https://example.com/a/b" "../c" = Some "https://example.com/c".
Proof.
  assert (H : url.Parse "https://example.com/a/b"
              = Some (url.mkURL "https" "" None "example.com" "/a/b" "" false false "" "" ""))
    by (vm_compute; reflexivity).
  split; [exact H|].
  destruct (C6_ResolveURL_returns_http_urls_unchanged "https://example.com/a/b"
              "https://other.org/x" _ H) as [H1 _].
  destruct (C6_ResolveURL_returns_http_urls_unchanged "https://example.com/a/b"
              "../c" _ H) as [_ H2].
  split; [apply H1; reflexivity|]. rewrite H2 by reflexivity. vm_compute. reflexivity.
Defined.

(** ** C7: a page that fails *)

(** C7.  In every state of every run in which worker [i] holds job [j] and
    [crawlURL] fails on it with error [e], of whatever kind: the worker's
    step logs the error last, appends no result, leaves the counter, the
    queue, the cancellation, [Start] and every other worker as they are, and
    takes the worker to the decrement.  Whatever the other goroutines do
    until the worker moves again, its next step decrements the counter by
    one, appends no result, leaves every other worker, the cancellation and
    [Start] as they are, panics in no case, and takes the worker back to the
    head of its loop; the queue is closed by it only if the counter is then
    zero. *)
Theorem C7_failed_fetch_is_logged_counted_and_skipped
  (W : World) (cfg : Config) (s0 : state) (sched : list action) (s : state)
  (i : nat) (j : job) (r : Result) (e : crawl_error) (lines : list logline) :
  crawl_init cfg = Some s0 → run W sched s0 = Some s →
  workers s !! i = Some (WFetch j) →
  crawlURL W (cancelled s) (url j) (depth j) = (r, Some e, lines) →
  ∃ s1,
    exec W (AWorker i) s = Some s1 ∧
    workers s1 = <[i := WFailed j]> (workers s) ∧
    last (trace s1) = Some (EvLog (LogErrorCrawling (url j) e)) ∧
    results s1 = results s ∧ pendingJobs s1 = pendingJobs s ∧ jobs s1 = jobs s ∧
    jobs_closed s1 = jobs_closed s ∧ cancelled s1 = cancelled s ∧ main s1 = main s ∧
    panicked s1 = false ∧
    ∀ sched' s2,
      run W sched' s1 = Some s2 → workers s2 !! i = Some (WFailed j) →
      ∃ s3,
        exec W (AWorker i) s2 = Some s3 ∧
        workers s3 = <[i := WSelect]> (workers s2) ∧
        pendingJobs s3 = pendingJobs s2 - 1 ∧
        results s3 = results s2 ∧ jobs s3 = jobs s2 ∧
        cancelled s3 = cancelled s2 ∧ main s3 = main s2 ∧ panicked s3 = false ∧
        (jobs_closed s3 = true ↔ pendingJobs s3 = 0).
Proof.
  intros Hi Hr Hw Hc. pose proof (run_reachable _ _ _ _ _ Hi Hr) as Hreach.
  destruct (reachable_inv _ _ _ Hreach) as [_ _ _ _ _ A _].
  pose proof (acc_panicked _ A) as Hp.
  assert (Hx : exec W (AWorker i) s
               = Some (move s i (WFailed j,
                    (EvLog (LogWorkerCrawling (worker_id i) (url j) (depth j))
                       :: logs lines ++ [EvLog (LogErrorCrawling (url j) e)])%list))).
  { unfold exec. rewrite Hp. unfold worker_step. rewrite Hw. simpl. rewrite Hc. done. }
  eexists. split; [exact Hx|]. proj. split_and!; try done.
  { rewrite app_comm_cons, app_assoc. apply last_snoc. }
  intros sched' s2 Hrun Hw2.
  assert (Hreach2 : reachable W cfg s2).
  { eapply run_reachable_from; [|exact Hrun]. eapply reach_step; [exact Hreach|]. by eexists. }
  destruct (reachable_inv _ _ _ Hreach2) as [_ _ _ _ _ A2 _].
  pose proof (acc_panicked _ A2) as Hp2.
  assert (Hx2 : exec W (AWorker i) s2 = Some (goto (decrementPendingJobs s2) i WSelect)).
  { unfold exec. rewrite Hp2. unfold worker_step. rewrite Hw2. done. }
  pose proof (accounted_step _ _ _ _ Hx2 A2) as A3.
  pose proof (acc_panicked _ A3) as Hp3. pose proof (acc_closed _ A3) as Hcl.
  eexists. split; [exact Hx2|]. proj. dec_simpl. split_and!; try done.
  rewrite Hcl. split; [tauto|]. intros Hz. split; [done|].
  intros Hm. destruct (acc_early _ A2 (or_introl Hm)) as [_ He].
  eapply Forall_lookup_1 in He; [|exact Hw2]. done.
Qed.

(** C7, witness: the one link of the home page answers with status 404. *)
Lemma C7_witness :
  ∃ s0 s r,
    crawl_init runs.home_config = Some s0 ∧
    run runs.broken_world runs.broken_sched s0 = Some s ∧
    workers s !! 0%nat = Some (WFetch (mkJob "https://example.com/b/" 1)) ∧
    crawlURL runs.broken_world (cancelled s) "https://example.com/b/" 1
    = (r, Some (ErrStatus 404), []) ∧
    ∃ s1,
      exec runs.broken_world (AWorker 0) s = Some s1 ∧
      workers s1 = <[0%nat := WFailed (mkJob "https://example.com/b/" 1)]> (workers s) ∧
      last (trace s1)
      = Some (EvLog (LogErrorCrawling "https://example.com/b/" (ErrStatus 404))) ∧
      results s1 = results s ∧ pendingJobs s1 = pendingJobs s ∧ jobs s1 = jobs s ∧
      jobs_closed s1 = jobs_closed s ∧ cancelled s1 = cancelled s ∧ main s1 = main s ∧
      panicked s1 = false ∧
      ∀ sched' s2,
        run runs.broken_world sched' s1 = Some s2 →
        workers s2 !! 0%nat = Some (WFailed (mkJob "https://example.com/b/" 1)) →
        ∃ s3,
          exec runs.broken_world (AWorker 0) s2 = Some s3 ∧
          workers s3 = <[0%nat := WSelect]> (workers s2) ∧
          pendingJobs s3 = pendingJobs s2 - 1 ∧
          results s3 = results s2 ∧ jobs s3 = jobs s2 ∧
          cancelled s3 = cancelled s2 ∧ main s3 = main s2 ∧ panicked s3 = false ∧
          (jobs_closed s3 = true ↔ pendingJobs s3 = 0).
Proof.
  eexists _, _, _.
  split; [vm_compute; reflexivity|]. split; [vm_compute; reflexivity|].
  split; [vm_compute; reflexivity|]. split; [vm_compute; reflexivity|].
  eapply (C7_failed_fetch_is_logged_counted_and_skipped
            runs.broken_world runs.home_config _ runs.broken_sched _ 0
            (mkJob "https://example.com/b/" 1)).
  - vm_compute; reflexivity.
  - vm_compute; reflexivity.
  - vm_compute; reflexivity.
  - vm_compute; reflexivity.
Defined.

(** X23.  [crawlURL] returns an error in five cases and in no other: the
    URL is not valid, the crawl is cancelled, the request fails, the status
    is not 200, the content type does not contain [text/html], or the body
    does not parse. *)
Lemma crawlURL_fails W done u d :
  (crawlURL W done u d).1.2 ≠ None ↔
  IsURLValid u = false ∨ done = true ∨ fetch W u = None ∨
  (∃ resp, fetch W u = Some resp ∧
           (resp_StatusCode resp ≠ StatusOK ∨
            Strings.Contains (Strings.ToLower (resp_ContentType resp)) "text/html" = false ∨
            resp_Body resp = None)).
Proof.
  unfold crawlURL.
  destruct (IsURLValid u) eqn:Hv; simpl; [|split; [auto|done]].
  destruct done; simpl; [split; [auto|done]|].
  destruct (fetch W u) as [resp|] eqn:Hf; simpl; [|split; [auto|done]].
  destruct (Z.eqb_spec (resp_StatusCode resp) StatusOK) as [Hs|Hs]; simpl.
  2:{ split; [|done]. intros _. right. right. right. exists resp. auto. }
  destruct (Strings.Contains _ _) eqn:Hc; simpl.
  2:{ split; [|done]. intros _. right. right. right. exists resp. auto. }
  destruct (resp_Body resp) eqn:Hb; simpl.
  - split; [done|]. intros [?|[?|[?|(resp' & [= <-] & [?|[?|?]])]]]; congruence.
  - split; [|done]. intros _. right. right. right. exists resp. auto.
Qed.

(** ** C8: the order in which [Start] seeds the first job *)

(** C8, the code at the failing input.  [Start] counts the seed, sends it
    and only then marks it: after its second operation the seed is in the
    queue, not in the seen set, and the next operation of [Start] is
    [markURLSeen].  On a home page that links to itself, a worker that tests
    the link before [Start] has marked the seed sends the seed again, and the
    run returns the page twice. *)
Lemma C8_seed_is_sent_before_it_is_marked :
  (s ← runs.after runs.home_world runs.home_config [AStart; AStart];
   Some (jobs s, seen s !! startURL s, main s, pendingJobs s))
  = Some ([mkJob "https://example.com/" 0], None, MMark, 1) ∧
  (s ← runs.after runs.home_world runs.home_config runs.home_sched;
   Some (URL <$> results s, main s, pendingJobs s))
  = Some (["https://example.com/"; "https://example.com/"], MDone, 0).
Proof. split; vm_compute; reflexivity. Qed.

(** ** C9: the CSV sink *)

(** C9, the code at the failing input.  For two results with three links
    and with none, [Save] writes a header of eight names and two rows of
    seven values: the counts [3] and [0] stand in the fifth column, under
    the header [links], and the rows have no value in the eighth column,
    the one headed [LinksCount]. *)
Lemma C9_counts_are_not_under_LinksCount
  (u1 t1 u2 t2 a b c : string) (sc1 cl1 d1 sc2 cl2 d2 : Z) (ts1 ts2 : string) :
  let r1 := mkResult u1 t1 sc1 cl1 [a; b; c] d1 ts1 in
  let r2 := mkResult u2 t2 sc2 cl2 [] d2 ts2 in
  let header := ["url"; "title"; "status_code"; "content_length"; "links"; "depth";
                 "timestamp"; "LinksCount"] in
  let row1 := [u1; t1; storage.FormatInt sc1; storage.FormatInt cl1; "3";
               storage.FormatInt d1; ts1] in
  let row2 := [u2; t2; storage.FormatInt sc2; storage.FormatInt cl2; "0";
               storage.FormatInt d2; ts2] in
  storage.CSV_Save (storage.of_results [r1; r2]) = storage.Returns [header; row1; row2] ∧
  storage.column "LinksCount" header = Some 7%nat ∧
  row1 !! 7%nat = None ∧ row2 !! 7%nat = None ∧
  storage.column "links" header = Some 4%nat ∧
  row1 !! 4%nat = Some "3" ∧ row2 !! 4%nat = Some "0" ∧
  List.length storage.empty_header = 7%nat.
Proof. done. Qed.

(** ** C10: the count of the JSON sink *)

(** C10.  For every slice of results that [Start] hands to the JSON sink,
    empty or not, [getResultCount] is 0 and so is the [count] that [Save]
    writes; the count equals the number of results only when there is
    none. *)
Theorem C10_json_count_is_zero_for_results (W : World) (rs : list Result) :
  storage.getResultCount (storage.of_results rs) = 0 ∧
  storage.out_count (storage.JSON_Save W (storage.of_results rs)) = 0 ∧
  (storage.out_count (storage.JSON_Save W (storage.of_results rs))
   = Z.of_nat (List.length rs) ↔ rs = []).
Proof.
  split_and!; try done. simpl. split.
  - destruct rs; [done|]. simpl. lia.
  - by intros ->.
Qed.

(* ===================================================================== *)
(** * Part IV: further properties of the code                             *)
(* ===================================================================== *)

(** ** Byte strings *)

Import runes.

Lemma append_cons c x y : String c x +:+ y = String c (x +:+ y).
Proof. reflexivity. Qed.

Lemma append_nil x : "" +:+ x = x.
Proof. reflexivity. Qed.

Ltac sapp := rewrite ?append_cons, ?append_nil in *; simpl.

Lemma length_from n s : String.length (Strings.from n s) = (String.length s - n)%nat.
Proof. revert s. induction n as [|n IH]; intros [|c s]; simpl; try done; lia. Qed.

Lemma upto_from n s : Strings.upto n s +:+ Strings.from n s = s.
Proof.
  revert s. induction n as [|n IH]; intros [|c s]; simpl; sapp; try done. f_equal. apply IH.
Qed.

Lemma from_app a x : Strings.from (String.length a) (a +:+ x) = x.
Proof. induction a as [|c a IH]; sapp; done. Qed.

Lemma length_append a x : String.length (a +:+ x) = (String.length a + String.length x)%nat.
Proof. induction a as [|c a IH]; sapp; [done|]. f_equal. apply IH. Qed.

Lemma append_assoc a b c : (a +:+ b) +:+ c = a +:+ (b +:+ c).
Proof. induction a as [|x a IH]; sapp; [done|]. f_equal. apply IH. Qed.

Lemma length_upto n s : (n <= String.length s)%nat → String.length (Strings.upto n s) = n.
Proof.
  revert s. induction n as [|n IH]; intros [|c s]; simpl; try done; try lia.
  intros H. rewrite IH; lia.
Qed.

Lemma get_append a x k : String.get (String.length a + k) (a +:+ x) = String.get k x.
Proof. induction a as [|c a IH]; sapp; done. Qed.

Lemma HasSuffix_spec s suf :
  Strings.HasSuffix s suf = true ↔
  (String.length suf <= String.length s)%nat ∧
  Strings.from (String.length s - String.length suf) s = suf.
Proof.
  unfold Strings.HasSuffix. rewrite andb_true_iff, Nat.leb_le, String.eqb_eq. done.
Qed.

Lemma append_empty_r x : x +:+ "" = x.
Proof. induction x as [|c x IH]; [done|]. rewrite append_cons. by f_equal. Qed.

Lemma all_bytes_app (P : ascii → bool) a b :
  url.all_bytes P (a +:+ b) = url.all_bytes P a && url.all_bytes P b.
Proof.
  induction a as [|c a IH]; rewrite ?append_cons, ?append_nil; [done|].
  cbn [url.all_bytes]. by rewrite IH, andb_assoc.
Qed.

Lemma all_bytes_impl (P Q : ascii → bool) s :
  (∀ c, P c = true → Q c = true) → url.all_bytes P s = true → url.all_bytes Q s = true.
Proof.
  intros H. induction s as [|c s IH]; [done|]. cbn [url.all_bytes].
  rewrite !andb_true_iff. intros [H1 H2]. split; [by apply H|by apply IH].
Qed.

Lemma HasSuffix_append a b : Strings.HasSuffix (a +:+ b) b = true.
Proof.
  apply HasSuffix_spec. rewrite length_append. split; [lia|].
  replace (String.length a + String.length b - String.length b)%nat
    with (String.length a) by lia.
  apply from_app.
Qed.

(** ** Runes: [unicode/utf8], [unicode.ToLower] and [strings.Map] *)


(** a property of bytes that holds of each of the 256 holds of all *)
Lemma each_byte (P : ascii → bool) :
  forallb P (ascii_of_nat <$> seq 0 256) = true → ∀ c, P c = true.
Proof.
  intros H c. rewrite forallb_forall in H. apply H.
  rewrite <- (ascii_nat_embedding c). apply in_map, in_seq.
  pose proof (nat_ascii_bounded c). lia.
Qed.

Lemma cont_prefix_length k t : cont_prefix k t = true → (k <= String.length t)%nat.
Proof.
  revert t. induction k as [|k IH]; intros [|c t]; simpl; try done; try lia.
  rewrite andb_true_iff. intros [_ H%IH]. lia.
Qed.

Lemma byte_lt c : (utf8.byte c <? utf8.RuneSelf) = is_ascii c.
Proof.
  unfold utf8.byte, utf8.RuneSelf, is_ascii, Strings.byte.
  destruct (Nat.ltb_spec (nat_of_ascii c) 128), (Z.ltb_spec (Z.of_nat (nat_of_ascii c)) 128);
    try done; lia.
Qed.

Lemma byte_nonneg c : 0 <= utf8.byte c.
Proof. unfold utf8.byte. lia. Qed.

Lemma decode_ascii c t :
  is_ascii c = true → utf8.DecodeRuneInString (String c t) = (utf8.byte c, 1%nat).
Proof. intros H. unfold utf8.DecodeRuneInString. by rewrite byte_lt, H. Qed.

Lemma chunk_ascii c :
  is_ascii c = true → chunk (utf8.byte c) = String (Strings.lower_byte c) "".
Proof.
  intros H. apply String.eqb_eq. revert H.
  generalize (each_byte
    (fun c => implb (is_ascii c)
                (String.eqb (chunk (utf8.byte c)) (String (Strings.lower_byte c) ""))) eq_refl c).
  simpl. by destruct (is_ascii c).
Qed.

Lemma to_byte_top x : Z.testbit x 7 = true → is_ascii (utf8.to_byte x) = false.
Proof.
  intros H. unfold utf8.to_byte. rewrite H.
  by destruct (Z.testbit x 0), (Z.testbit x 1), (Z.testbit x 2), (Z.testbit x 3),
             (Z.testbit x 4), (Z.testbit x 5), (Z.testbit x 6).
Qed.

Lemma AppendRune_nonascii r :
  0x80 <= r → nonascii (utf8.AppendRune r) = true ∧ utf8.AppendRune r ≠ "".
Proof.
  intros H. unfold utf8.AppendRune.
  replace (r <=? 0x7F) with false by (symmetry; apply Z.leb_gt; lia). rewrite andb_false_r.
  unfold nonascii.
  repeat case_match; cbn [url.all_bytes]; (split; [|done]).
  all: rewrite ?andb_true_iff; repeat split; try done.
  all: apply negb_true_iff, to_byte_top; by rewrite Z.lor_spec.
Qed.

(** ** the case table *)

(** beyond ASCII only two runes have a lower-case form in ASCII: U+0130,
    the capital I with a dot, and U+212A, the Kelvin sign *)
Lemma ToLower_nonascii r :
  0x80 <= r →
  0x80 <= unicode.ToLower r ∨ unicode.ToLower r = 0x69 ∨ unicode.ToLower r = 0x6B.
Proof.
  intros H. unfold unicode.ToLower.
  replace (r <=? unicode.MaxASCII) with false
    by (symmetry; apply Z.leb_gt; unfold unicode.MaxASCII; lia).
  unfold unicode.to_lower.
  destruct (find _ unicode.CaseRanges) as [c|] eqn:F; [|by left].
  apply find_some in F as [Hin Hr]. apply andb_true_iff in Hr as [H1%Z.leb_le H2%Z.leb_le].
  assert (Hok : forallb entry_ok unicode.CaseRanges = true) by (by vm_compute).
  rewrite forallb_forall in Hok. specialize (Hok c Hin). unfold entry_ok in Hok.
  destruct (unicode.lower c) as [|d].
  - apply Z.leb_le in Hok. left.
    assert (0 <= Z.lor (Z.ldiff (r - unicode.Lo c) 1) 1); [|lia].
    apply Z.lor_nonneg. split; [|done]. apply Z.ldiff_nonneg. lia.
  - apply orb_true_iff in Hok as [Hok%Z.leb_le|Hok]; [left; lia|].
    apply andb_true_iff in Hok as [He%Z.eqb_eq Hok]. right.
    assert (r = unicode.Lo c) as -> by lia.
    apply orb_true_iff in Hok as [Hok%Z.eqb_eq|Hok%Z.eqb_eq]; auto.
Qed.

Lemma chunk_nonascii r :
  0x80 <= r → chunk r ≠ "" ∧ (chunk r = "i" ∨ chunk r = "k" ∨ nonascii (chunk r) = true).
Proof.
  intros H. unfold chunk.
  destruct (ToLower_nonascii r H) as [H1|[->| ->]].
  - replace (unicode.ToLower r <? 0) with false by (symmetry; apply Z.ltb_ge; lia).
    destruct (AppendRune_nonascii _ H1). auto.
  - split; [done|by left].
  - split; [done|right; by left].
Qed.

(** ** decoding *)

Lemma lor_pow2 a b n :
  0 <= a → 0 <= b → 0 <= n → 2 ^ n <= a ∨ 2 ^ n <= b → 2 ^ n <= Z.lor a b.
Proof.
  intros Ha Hb Hn H.
  assert (0 < 2 ^ n) by (by apply Z.pow_pos_nonneg).
  assert (Hl : 0 <= Z.lor a b) by (by apply Z.lor_nonneg).
  assert (Z.lor a b ≠ 0).
  { intros E. apply Z.lor_eq_0_iff in E as [-> ->]. lia. }
  apply Z.log2_le_pow2; [lia|]. rewrite Z.log2_lor by done.
  destruct H as [H|H]; apply Z.log2_le_pow2 in H; lia.
Qed.

Lemma shiftl_ge x k m :
  0 <= k → m <= x * 2 ^ k → m <= Z.shiftl x k.
Proof. intros. by rewrite Z.shiftl_mul_pow2. Qed.

Lemma shiftl_nonneg x k : 0 <= x → 0 <= Z.shiftl x k.
Proof. intros. by apply Z.shiftl_nonneg. Qed.

Lemma land_byte_nonneg c m : 0 <= Z.land (utf8.byte c) m.
Proof. apply Z.land_nonneg. left. apply byte_nonneg. Qed.

Lemma lead_ok_all c : lead_ok c = true.
Proof. by apply each_byte. Qed.

Lemma second_ok_all c : second_ok c = true.
Proof. by apply each_byte. Qed.

Lemma byte_ge c : is_ascii c = false ↔ 0x80 <= utf8.byte c.
Proof. rewrite <- byte_lt. unfold utf8.RuneSelf. by rewrite Z.ltb_ge. Qed.

(** what a byte that is not ASCII leads: a rune beyond ASCII, over the
    byte itself and continuation bytes, none of them ASCII *)
Lemma decode_multi c t r w :
  is_ascii c = false → utf8.DecodeRuneInString (String c t) = (r, w) →
  0x80 <= r ∧ ∃ k, w = S k ∧ cont_prefix k t = true.
Proof.
  intros Hc. unfold utf8.DecodeRuneInString. rewrite byte_lt, Hc.
  assert (Herr : (utf8.RuneError, 1%nat) = (r, w) →
                 0x80 <= r ∧ ∃ k, w = S k ∧ cont_prefix k t = true).
  { intros [= <- <-]. split; [done|]. by exists 0%nat. }
  pose proof (lead_ok_all c) as Hl. unfold lead_ok in Hl.
  destruct (utf8.first (utf8.byte c)) as [[[sz lo] hi]|]; [|done].
  apply andb_true_iff in Hl as [Hlo Hl].
  apply andb_true_iff in Hlo as [Hlo%Z.leb_le Hhi%Z.leb_le].
  destruct (_ <? sz)%nat; [done|].
  destruct t as [|c1 t1]; [done|].
  destruct (Z.ltb_spec (utf8.byte c1) lo) as [|G1]; [done|]. cbn [orb].
  destruct (Z.ltb_spec hi (utf8.byte c1)) as [|G1']; [done|].
  assert (Hc1 : is_ascii c1 = false) by (apply byte_ge; lia).
  pose proof (second_ok_all c1) as Hs. unfold second_ok in Hs.
  apply andb_true_iff in Hs as [Hs1 Hs2].
  pose proof (land_byte_nonneg c utf8.mask2). pose proof (land_byte_nonneg c utf8.mask3).
  pose proof (land_byte_nonneg c utf8.mask4). pose proof (land_byte_nonneg c1 utf8.maskx).
  destruct sz as [|[|[|[|[|sz]]]]]; try done.
  - (* two bytes *)
    cbn [Nat.leb]. intros [= <- <-]. split; [|exists 1%nat; cbn [cont_prefix]; by rewrite Hc1].
    apply Z.leb_le in Hl.
    apply (lor_pow2 _ _ 7); try done; [by apply shiftl_nonneg|].
    left. apply shiftl_ge; lia.
  - (* three bytes *)
    cbn [Nat.leb]. destruct t1 as [|c2 t2]; [done|].
    destruct (Z.ltb_spec (utf8.byte c2) utf8.locb) as [|G2]; [done|]. cbn [orb].
    destruct (utf8.hicb <? utf8.byte c2); [done|].
    assert (Hc2 : is_ascii c2 = false) by (apply byte_ge; unfold utf8.locb in G2; lia).
    pose proof (land_byte_nonneg c2 utf8.maskx).
    intros [= <- <-]. split; [|exists 2%nat; cbn [cont_prefix]; by rewrite Hc1, Hc2].
    apply (lor_pow2 _ _ 7); try done.
    { apply Z.lor_nonneg; split; by apply shiftl_nonneg. }
    left. apply (lor_pow2 _ _ 7); try done; try (by apply shiftl_nonneg).
    apply orb_true_iff in Hl as [Hl%Z.leb_le|Hl%Z.leb_le].
    + left. apply shiftl_ge; lia.
    + right. apply shiftl_ge; [lia|].
      assert ((0xA0 <=? utf8.byte c1) && (utf8.byte c1 <=? 0xBF) = true) as E
        by (apply andb_true_iff; split; apply Z.leb_le; lia).
      rewrite E in Hs1. apply Z.leb_le in Hs1. lia.
  - (* four bytes *)
    cbn [Nat.leb]. destruct t1 as [|c2 t2]; [done|].
    destruct (Z.ltb_spec (utf8.byte c2) utf8.locb) as [|G2]; [done|]. cbn [orb].
    destruct (utf8.hicb <? utf8.byte c2); [done|].
    assert (Hc2 : is_ascii c2 = false) by (apply byte_ge; unfold utf8.locb in G2; lia).
    destruct t2 as [|c3 t3]; [done|].
    destruct (Z.ltb_spec (utf8.byte c3) utf8.locb) as [|G3]; [done|]. cbn [orb].
    destruct (utf8.hicb <? utf8.byte c3); [done|].
    assert (Hc3 : is_ascii c3 = false) by (apply byte_ge; unfold utf8.locb in G3; lia).
    pose proof (land_byte_nonneg c2 utf8.maskx). pose proof (land_byte_nonneg c3 utf8.maskx).
    intros [= <- <-]. split; [|exists 3%nat; cbn [cont_prefix]; by rewrite Hc1, Hc2, Hc3].
    apply (lor_pow2 _ _ 7); try done.
    { repeat (apply Z.lor_nonneg; split); by apply shiftl_nonneg. }
    left. apply (lor_pow2 _ _ 7); try done; try (by apply shiftl_nonneg).
    { apply Z.lor_nonneg; split; by apply shiftl_nonneg. }
    left. apply (lor_pow2 _ _ 7); try done; try (by apply shiftl_nonneg).
    apply orb_true_iff in Hl as [Hl%Z.leb_le|Hl%Z.leb_le].
    + left. apply shiftl_ge; lia.
    + right. apply shiftl_ge; [lia|].
      assert ((0x90 <=? utf8.byte c1) && (utf8.byte c1 <=? 0xBF) = true) as E
        by (apply andb_true_iff; split; apply Z.leb_le; lia).
      rewrite E in Hs2. apply Z.leb_le in Hs2. lia.
Qed.

(** a rune never reaches over an ASCII byte: what follows it does not
    change how a string starts *)
Lemma decode_boundary c x b :
  starts_ascii b = true →
  utf8.DecodeRuneInString (String c (x +:+ b)) = utf8.DecodeRuneInString (String c x).
Proof.
  destruct b as [|d b]; [by rewrite append_empty_r|]. cbn [starts_ascii]. intros Hd.
  unfold utf8.DecodeRuneInString. destruct (utf8.byte c <? utf8.RuneSelf); [done|].
  pose proof (lead_ok_all c) as Hl. unfold lead_ok in Hl.
  destruct (utf8.first (utf8.byte c)) as [[[sz lo] hi]|]; [|done].
  apply andb_true_iff in Hl as [Hlo Hl].
  apply andb_true_iff in Hlo as [Hlo%Z.leb_le _].
  assert (Hd1 : (utf8.byte d <? lo) = true).
  { apply Z.ltb_lt. rewrite <- byte_lt in Hd. apply Z.ltb_lt in Hd.
    unfold utf8.RuneSelf in Hd. lia. }
  assert (Hd2 : (utf8.byte d <? utf8.locb) = true).
  { apply Z.ltb_lt. rewrite <- byte_lt in Hd. apply Z.ltb_lt in Hd.
    unfold utf8.RuneSelf, utf8.locb in *. lia. }
  destruct sz as [|[|[|[|[|sz]]]]]; try done;
    destruct x as [|c1 [|c2 [|c3 x]]];
    rewrite ?append_cons, ?append_nil; cbn [String.length Nat.ltb Nat.leb];
    rewrite ?Hd1, ?Hd2; cbn [orb];
    try done; repeat (case_match; try done).
Qed.

Lemma decode_width c t r w :
  utf8.DecodeRuneInString (String c t) = (r, w) →
  ∃ k, w = S k ∧ cont_prefix k t = true.
Proof.
  destruct (is_ascii c) eqn:E.
  - rewrite decode_ascii by done. intros [= <- <-]. by exists 0%nat.
  - intros H. by destruct (decode_multi c t r w E H).
Qed.

(** ** [strings.Map] with [unicode.ToLower] *)

Lemma lower_from_0 c t r w :
  utf8.DecodeRuneInString (String c t) = (r, w) →
  lower_from 0 (String c t) = chunk r +:+ lower_from (w - 1) t.
Proof. intros H. unfold lower_from. cbn [Strings.Map_from]. by rewrite H. Qed.

Lemma lower_from_ascii c t :
  is_ascii c = true →
  lower_from 0 (String c t) = String (Strings.lower_byte c) (lower_from 0 t).
Proof.
  intros H. rewrite (lower_from_0 c t _ _ (decode_ascii c t H)), chunk_ascii by done. done.
Qed.

Lemma lower_from_app a :
  ∀ k b, (k <= String.length a)%nat → starts_ascii b = true →
         lower_from k (a +:+ b) = lower_from k a +:+ lower_from 0 b.
Proof.
  induction a as [|c a IH]; intros k b Hk Hb.
  - cbn [String.length] in Hk. by replace k with 0%nat by lia.
  - rewrite append_cons. destruct k as [|k].
    + destruct (utf8.DecodeRuneInString (String c a)) as [r w] eqn:E.
      rewrite (lower_from_0 c a r w E).
      rewrite <- (decode_boundary c a b Hb) in E. rewrite (lower_from_0 c _ r w E).
      rewrite decode_boundary in E by done.
      destruct (decode_width _ _ _ _ E) as (k & -> & Hk').
      apply cont_prefix_length in Hk'.
      rewrite IH by (done || lia). by rewrite append_assoc.
    + unfold lower_from. cbn [Strings.Map_from]. apply IH; [|done]. cbn [String.length] in Hk. lia.
Qed.

Lemma isASCII_lower s : Strings.isASCII s = true → lower_from 0 s = Strings.lower_bytes s.
Proof.
  induction s as [|c s IH]; [done|]. cbn [Strings.isASCII Strings.lower_bytes].
  rewrite andb_true_iff. intros [Hc Hs]. rewrite lower_from_ascii by done. by rewrite IH.
Qed.

(** [strings.ToLower] is the rune-by-rune mapping on every string *)
Lemma ToLower_Map s : Strings.ToLower s = lower_from 0 s.
Proof.
  unfold Strings.ToLower, Strings.Map, lower_from. destruct (Strings.isASCII s) eqn:E; [|done].
  by rewrite isASCII_lower.
Qed.

Lemma ToLower_app a b :
  starts_ascii b = true → Strings.ToLower (a +:+ b) = Strings.ToLower a +:+ Strings.ToLower b.
Proof. intros H. rewrite !ToLower_Map. apply lower_from_app; [lia|done]. Qed.

Lemma ToLower_cons c x :
  is_ascii c = true → Strings.ToLower (String c x) = String (Strings.lower_byte c) (Strings.ToLower x).
Proof. intros H. rewrite !ToLower_Map. by apply lower_from_ascii. Qed.

Lemma plain_lower c : storage.plain (Strings.lower_byte c) = true → storage.plain c = true.
Proof.
  unfold storage.plain, Strings.byte_eqb. rewrite !andb_true_iff, !negb_true_iff.
  intros [H1 H2]. split; apply Ascii.eqb_neq; intros ->; by vm_compute in H1, H2.
Qed.

Lemma lower_dot c : Strings.lower_byte c = "."%char → c = "."%char.
Proof.
  unfold Strings.lower_byte, Strings.byte.
  destruct ((65 <=? nat_of_ascii c)%nat && (nat_of_ascii c <=? 90)%nat) eqn:E; [|done].
  apply andb_true_iff in E as [E1%Nat.leb_le E2%Nat.leb_le]. intros H.
  apply (f_equal nat_of_ascii) in H. rewrite nat_ascii_embedding in H by lia.
  change (nat_of_ascii ".") with 46%nat in H. lia.
Qed.

Lemma nonascii_plain c : is_ascii c = false → storage.plain c = true.
Proof.
  intros Hc. pose proof (each_byte (fun c => is_ascii c || storage.plain c) eq_refl c) as H.
  cbv beta in H. by rewrite Hc in H.
Qed.

Lemma chunk_plain r :
  0x80 <= r → url.all_bytes storage.plain (chunk r) = true ∧ chunk r ≠ "".
Proof.
  intros H. destruct (chunk_nonascii r H) as [Hne [->|[->|Hn]]]; try done.
  split; [|done]. revert Hn. apply all_bytes_impl. intros c Hc.
  apply nonascii_plain. by apply negb_true_iff.
Qed.

Lemma split_plain ch :
  ∀ M out e, url.all_bytes storage.plain ch = true →
             ch +:+ M = out +:+ String "." e →
             ∃ t, out = ch +:+ t ∧ M = t +:+ String "." e.
Proof.
  induction ch as [|h ch IH]; intros M out e Hp H.
  - exists out. by rewrite !append_nil in *.
  - cbn [url.all_bytes] in Hp. apply andb_true_iff in Hp as [Hh Hp].
    rewrite append_cons in H. destruct out as [|o out].
    + rewrite append_nil in H. injection H as -> _. done.
    + rewrite append_cons in H. injection H as -> H.
      destruct (IH _ _ _ Hp H) as (t & -> & ->). by exists t.
Qed.

(** a dot in the lower-cased string comes from a dot of the string, and
    what stands before and after it is lower-cased on its own *)
Lemma lower_from_dot p :
  ∀ k out e, lower_from k p = out +:+ String "." e →
             ∃ a x, p = a +:+ String "." x ∧ (k <= String.length a)%nat ∧
                    lower_from k a = out ∧ lower_from 0 x = e.
Proof.
  induction p as [|c p IH]; intros k out e H.
  - by destruct out.
  - destruct k as [|k].
    + destruct (is_ascii c) eqn:Hc.
      * rewrite lower_from_ascii in H by done. destruct out as [|o out].
        -- rewrite append_nil in H. injection H as Hd H. apply lower_dot in Hd as ->.
           exists "", p. by rewrite append_nil.
        -- rewrite append_cons in H. injection H as <- H.
           destruct (IH _ _ _ H) as (a & x & -> & _ & <- & <-).
           exists (String c a), x. rewrite append_cons, lower_from_ascii by done.
           split_and!; try done. cbn [String.length]. lia.
      * destruct (utf8.DecodeRuneInString (String c p)) as [r w] eqn:E.
        rewrite (lower_from_0 _ _ _ _ E) in H.
        destruct (decode_multi _ _ _ _ Hc E) as (Hr & k1 & -> & Hk1).
        destruct (chunk_plain r Hr) as [Hp _].
        destruct (split_plain _ _ _ _ Hp H) as (t & -> & H').
        replace (S k1 - 1)%nat with k1 in H' by lia.
        destruct (IH _ _ _ H') as (a & x & -> & Hk & <- & <-).
        exists (String c a), x. rewrite append_cons.
        rewrite decode_boundary in E by done.
        rewrite (lower_from_0 _ _ _ _ E).
        replace (S k1 - 1)%nat with k1 by lia.
        split_and!; try done. cbn [String.length]. lia.
    + unfold lower_from in H. cbn [Strings.Map_from] in H.
      destruct (IH _ _ _ H) as (a & x & -> & Hk & <- & <-).
      exists (String c a), x. rewrite append_cons. split_and!; try done.
      cbn [String.length]. lia.
Qed.

Lemma lower_from_plain x :
  ∀ k, cont_prefix k x = true → url.all_bytes storage.plain (lower_from k x) = true →
       url.all_bytes storage.plain x = true.
Proof.
  induction x as [|c x IH]; intros k Hk H; [done|].
  cbn [url.all_bytes]. destruct k as [|k].
  - destruct (is_ascii c) eqn:Hc.
    + rewrite lower_from_ascii in H by done. cbn [url.all_bytes] in H.
      apply andb_true_iff in H as [H1 H2]. rewrite (plain_lower _ H1). by apply (IH 0%nat).
    + destruct (utf8.DecodeRuneInString (String c x)) as [r w] eqn:E.
      rewrite (lower_from_0 _ _ _ _ E), all_bytes_app in H.
      apply andb_true_iff in H as [_ H].
      destruct (decode_multi _ _ _ _ Hc E) as (_ & k1 & -> & Hk1).
      replace (S k1 - 1)%nat with k1 in H by lia.
      rewrite (nonascii_plain _ Hc). by apply (IH k1).
  - cbn [cont_prefix] in Hk. apply andb_true_iff in Hk as [Hc%negb_true_iff Hk].
    rewrite (nonascii_plain _ Hc). by apply (IH k).
Qed.

Lemma ToLower_dot p out e :
  Strings.ToLower p = out +:+ String "." e →
  ∃ a x, p = a +:+ String "." x ∧ Strings.ToLower a = out ∧ Strings.ToLower x = e.
Proof.
  rewrite ToLower_Map. intros H.
  destruct (lower_from_dot _ _ _ _ H) as (a & x & -> & _ & <- & <-).
  exists a, x. by rewrite !ToLower_Map.
Qed.

Lemma all_plain_lower x :
  url.all_bytes storage.plain (Strings.ToLower x) = true → url.all_bytes storage.plain x = true.
Proof. rewrite ToLower_Map. by apply lower_from_plain. Qed.

(** ** [storage/storage.go]: the extension of a file name *)

Lemma from_get i p c :
  String.get i p = Some c → Strings.from i p = String c (Strings.from (S i) p).
Proof.
  revert i. induction p as [|a p IH]; intros [|i]; simpl; try done.
  - by intros [= ->].
  - intros H. by rewrite (IH _ H).
Qed.

Lemma Ext_loop_suffix i p :
  storage.Ext_loop i p = "" ∨
  ∃ k x, (k < i)%nat ∧ storage.Ext_loop i p = Strings.from k p ∧
         Strings.from k p = String "." x.
Proof.
  induction i as [|i IH]; simpl; [by left|].
  destruct (String.get i p) as [c|] eqn:G; [|by left].
  destruct (Strings.byte_eqb c "/"); [by left|].
  destruct (Strings.byte_eqb c ".") eqn:E.
  - right. exists i, (Strings.from (S i) p). split; [lia|]. split; [done|].
    apply Ascii.eqb_eq in E as ->. by apply from_get.
  - destruct IH as [->|(k & x & Hk & -> & Hx)]; [by left|]. right. exists k, x.
    split; [lia|done].
Qed.

Lemma get_Some_lt k x c : String.get k x = Some c → (k < String.length x)%nat.
Proof.
  revert k. induction x as [|a x IH]; intros [|k]; simpl; try done; try lia.
  intros H%IH. lia.
Qed.

Lemma get_all_bytes (q : ascii → bool) x k c :
  url.all_bytes q x = true → String.get k x = Some c → q c = true.
Proof.
  revert k. induction x as [|a x IH]; intros [|k]; simpl; try done.
  - rewrite andb_true_iff. by intros [H _] [= <-].
  - rewrite andb_true_iff. intros [_ H]. by apply IH.
Qed.

Lemma get_lt_Some k x : (k < String.length x)%nat → ∃ c, String.get k x = Some c.
Proof.
  revert k. induction x as [|a x IH]; intros [|k]; simpl; try lia; eauto.
  intros H. apply IH. lia.
Qed.

Lemma Ext_loop_plain a x k :
  url.all_bytes storage.plain x = true → (k <= String.length x)%nat →
  storage.Ext_loop (String.length a + k) (a +:+ x) = storage.Ext_loop (String.length a) (a +:+ x).
Proof.
  intros Hx. induction k as [|k IH]; intros Hk; [by rewrite Nat.add_0_r|].
  rewrite Nat.add_succ_r. simpl. rewrite get_append.
  destruct (get_lt_Some k x) as [c Hc]; [lia|]. rewrite Hc.
  pose proof (get_all_bytes _ _ _ _ Hx Hc) as Hp. unfold storage.plain in Hp.
  apply andb_true_iff in Hp as [H1%negb_true_iff H2%negb_true_iff].
  rewrite H1, H2. apply IH. lia.
Qed.

Lemma Ext_dot a x :
  url.all_bytes storage.plain x = true → storage.Ext (a +:+ String "." x) = String "." x.
Proof.
  intros Hx. unfold storage.Ext.
  assert (E : a +:+ String "." x = (a +:+ ".") +:+ x) by (by rewrite append_assoc).
  rewrite E at 1 2. rewrite (length_append (a +:+ ".") x).
  rewrite Ext_loop_plain by (done || lia).
  rewrite length_append. cbn [String.length]. rewrite Nat.add_1_r. cbn [storage.Ext_loop].
  rewrite <- E.
  replace (String.length a) with (String.length a + 0)%nat at 1 by lia.
  rewrite get_append. cbn [String.get].
  change (Strings.byte_eqb "." "/") with false. change (Strings.byte_eqb "." ".") with true.
  cbn match. apply from_app.
Qed.

(** the extension test is a test of the end of the lower-cased name *)
Lemma Ext_lower p e :
  url.all_bytes storage.plain e = true →
  String.eqb (Strings.ToLower (storage.Ext p)) (String "." e)
  = Strings.HasSuffix (Strings.ToLower p) (String "." e).
Proof.
  intros He. apply eq_true_iff_eq. rewrite String.eqb_eq. split.
  - intros H. unfold storage.Ext in H.
    destruct (Ext_loop_suffix (String.length p) p) as [E|(k & x & Hk & E & Hx)];
      rewrite E in H; [done|].
    rewrite <- (upto_from k p), ToLower_app by (by rewrite Hx).
    rewrite H. apply HasSuffix_append.
  - intros [Hl H]%HasSuffix_spec.
    pose proof (upto_from (String.length (Strings.ToLower p) - String.length (String "." e))
                          (Strings.ToLower p)) as U.
    rewrite H in U. symmetry in U.
    destruct (ToLower_dot _ _ _ U) as (a & x & -> & _ & Hx).
    rewrite Ext_dot by (apply all_plain_lower; by rewrite Hx).
    rewrite ToLower_cons by done. by rewrite Hx.
Qed.

(** X1.  [IsJSONFile] and [IsCSVFile] look at nothing but the end of the
    file name: a name is a JSON file exactly when its lower-cased form ends
    in [.json], a CSV file exactly when it ends in [.csv], and no name is
    both. *)
Theorem IsJSONFile_IsCSVFile_test_the_lowercased_suffix (path : string) :
  storage.IsJSONFile path = Strings.HasSuffix (Strings.ToLower path) ".json" ∧
  storage.IsCSVFile path = Strings.HasSuffix (Strings.ToLower path) ".csv" ∧
  storage.IsJSONFile path && storage.IsCSVFile path = false.
Proof.
  unfold storage.IsJSONFile, storage.IsCSVFile. split_and!.
  - by apply Ext_lower.
  - by apply Ext_lower.
  - destruct (String.eqb_spec (Strings.ToLower (storage.Ext path)) ".json") as [->|]; done.
Qed.

(** ** [storage/csv.go] *)

Lemma row_reflect_Result r : storage.row (storage.reflect_Result r) = storage.result_row r.
Proof. reflexivity. Qed.

Lemma CSV_Save_results r rs :
  storage.CSV_Save (storage.of_results (r :: rs))
  = storage.Returns (storage.result_header :: (storage.result_row <$> (r :: rs))).
Proof.
  unfold storage.CSV_Save, storage.of_results.
  cbn [storage.elements fmap list_fmap storage.reflect_Result].
  fold (storage.reflect_Result r).
  f_equal. change (storage.headers (storage.reflect_Result r)) with (Some storage.result_header).
  cbn [app]. f_equal. rewrite row_reflect_Result. f_equal.
  induction rs as [|r' rs IH]; [done|]. cbn [fmap list_fmap] in *.
  rewrite row_reflect_Result. f_equal. apply IH.
Qed.

(** X2.  For every slice of results the CSV sink writes one record per
    result, in order, after one header: an empty slice gives the fixed
    header of seven names alone; a slice that is not empty gives the header
    of eight names read off the [json] tags, and rows of seven values in
    which the links appear only as their number. *)
Theorem CSV_Save_writes_one_row_per_result (rs : list Result) :
  storage.CSV_Save (storage.of_results rs)
  = storage.Returns (match rs with
                     | [] => [storage.empty_header]
                     | _ => storage.result_header :: (storage.result_row <$> rs)
                     end) ∧
  List.length storage.empty_header = 7%nat ∧ List.length storage.result_header = 8%nat ∧
  Forall (fun r => List.length (storage.result_row r) = 7%nat) rs.
Proof.
  split_and!; try done.
  - destruct rs as [|r rs]; [done|]. apply CSV_Save_results.
  - by apply Forall_forall.
Qed.

(** X3.  Whatever the struct type of the elements: the header that the
    CSV sink writes has one name more than the first row has values, the
    appended [LinksCount]; fields that are not exported appear in neither. *)
Theorem CSV_header_is_one_name_wider_than_the_row
  (v : storage.dynamic) (fields : list storage.field) (rest : list storage.item) :
  storage.elements v = Some (storage.IStruct fields :: rest) →
  ∃ header rows,
    storage.CSV_Save v
    = storage.Returns (header :: storage.row (storage.IStruct fields) :: rows) ∧
    List.length rows = List.length rest ∧
    List.length (storage.row (storage.IStruct fields))
    = List.length (filter (fun f => storage.PkgPath f = "") fields) ∧
    List.length header = S (List.length (storage.row (storage.IStruct fields))) ∧
    last header = Some "LinksCount".
Proof.
  intros He. unfold storage.CSV_Save. rewrite He. cbn [storage.headers].
  exists ((storage.header_of <$> filter (fun f => storage.exported f = true) fields)
            ++ ["LinksCount"]), (storage.row <$> rest).
  split; [reflexivity|]. split_and!.
  - by rewrite length_fmap.
  - cbn [storage.row]. rewrite length_fmap. f_equal.
    apply list_filter_iff. intros f. unfold storage.exported. by rewrite String.eqb_eq.
  - rewrite length_app, !length_fmap. cbn [storage.row List.length]. rewrite length_fmap. lia.
  - by rewrite last_snoc.
Qed.

Lemma CSV_header_witness :
  ∃ header rows,
    storage.CSV_Save
      (storage.SliceOther
         [storage.IStruct [storage.mkField "Name" "" "" (storage.KString "a");
                           storage.mkField "secret" "example.com/pkg" "" (storage.KInt 7);
                           storage.mkField "Tags" "" "tags" (storage.KSlice 2 "[x y]")];
          storage.IOther "17"])
    = storage.Returns
           (header
            :: storage.row
                 (storage.IStruct
                    [storage.mkField "Name" "" "" (storage.KString "a");
                     storage.mkField "secret" "example.com/pkg" "" (storage.KInt 7);
                     storage.mkField "Tags" "" "tags" (storage.KSlice 2 "[x y]")])
            :: rows) ∧
    List.length rows = 1%nat ∧
    List.length
      (storage.row
         (storage.IStruct
            [storage.mkField "Name" "" "" (storage.KString "a");
             storage.mkField "secret" "example.com/pkg" "" (storage.KInt 7);
             storage.mkField "Tags" "" "tags" (storage.KSlice 2 "[x y]")]))
    = 2%nat ∧
    List.length header = 3%nat ∧ last header = Some "LinksCount".
Proof.
  exact (CSV_header_is_one_name_wider_than_the_row
           (storage.SliceOther
              [storage.IStruct [storage.mkField "Name" "" "" (storage.KString "a");
                                storage.mkField "secret" "example.com/pkg" "" (storage.KInt 7);
                                storage.mkField "Tags" "" "tags" (storage.KSlice 2 "[x y]")];
               storage.IOther "17"])
           _ [storage.IOther "17"] eq_refl).
Defined.



(** ** [storage/json.go] *)

(** X5.  The [count] that the JSON sink writes is the number of elements
    exactly when the value is a [[]interface{}], a [[]struct{}] or an empty
    slice; for a slice of any other type that is not empty, and for a value
    that is no slice, it is 0. *)
Theorem JSON_count_is_right_only_for_two_slice_types
  (W : World) (v : storage.dynamic) (items : list storage.item) :
  storage.elements v = Some items →
  (storage.out_count (storage.JSON_Save W v) = Z.of_nat (List.length items) ↔
   (∃ l, v = storage.SliceInterface l) ∨ (∃ n, v = storage.SliceEmptyStruct n) ∨ items = []) ∧
  (storage.out_count (storage.JSON_Save W v) ≠ Z.of_nat (List.length items) →
   storage.out_count (storage.JSON_Save W v) = 0).
Proof.
  intros He. destruct v; simpl in *; simplify_eq; rewrite ?length_fmap, ?length_replicate.
  - split; [split; eauto|done].
  - split; [split; eauto|done].
  - split; [|done]. split.
    + destruct rs; [auto|simpl; lia].
    + intros [[? ?]|[[? ?]|H]]; try done. by destruct rs.
  - split; [|done]. split.
    + destruct items; [auto|simpl; lia].
    + intros [[? ?]|[[? ?]| ->]]; done.
Qed.

Lemma JSON_count_witness :
  (storage.out_count
     (storage.JSON_Save (mkWorld (fun _ => None) "t") (storage.SliceOther [storage.IOther "1"]))
   = 1 ↔
   (∃ l, storage.SliceOther [storage.IOther "1"] = storage.SliceInterface l) ∨
   (∃ n, storage.SliceOther [storage.IOther "1"] = storage.SliceEmptyStruct n) ∨
   [storage.IOther "1"] = []) ∧
  (storage.out_count
     (storage.JSON_Save (mkWorld (fun _ => None) "t") (storage.SliceOther [storage.IOther "1"]))
   ≠ 1 →
   storage.out_count
     (storage.JSON_Save (mkWorld (fun _ => None) "t") (storage.SliceOther [storage.IOther "1"]))
   = 0).
Proof.
  exact (JSON_count_is_right_only_for_two_slice_types
           (mkWorld (fun _ => None) "t") (storage.SliceOther [storage.IOther "1"])
           [storage.IOther "1"] eq_refl).
Defined.

(** ** [main.go] with the two sinks *)


(** ** [crawler/fetcher.go] *)

Lemma each_href_Some pageurl href l :
  (each_href pageurl href).1 = Some l →
  href ≠ "" ∧ Strings.HasPrefix href "#" = false ∧ IsURLValid l = true ∧
  ∃ absoluteURL, ResolveURL pageurl href = Some absoluteURL ∧
                 NormalizeURL absoluteURL = Some l.
Proof.
  unfold each_href.
  destruct (String.eqb_spec href "") as [->|Hne]; [done|].
  destruct (Strings.HasPrefix href "#"); [done|]. cbn [orb].
  destruct (ResolveURL pageurl href) as [a|]; [|done].
  destruct (NormalizeURL a) as [n|] eqn:Hn; [|done].
  destruct (IsURLValid n) eqn:Hv; [|done]. simpl. intros [= <-]. eauto 10.
Qed.

Lemma IsURLValid_prefix u :
  IsURLValid u = true →
  Strings.HasPrefix u "http://" = true ∨ Strings.HasPrefix u "https://" = true.
Proof.
  unfold IsURLValid. destruct (String.eqb u ""); [done|].
  destruct (Strings.HasPrefix u "http://"); [auto|].
  destruct (Strings.HasPrefix u "https://"); [auto|]. done.
Qed.

(** X7.  Whatever happens, the result that [crawlURL] returns carries the
    URL and the depth it was called with and the time of the call.  When it
    returns an error the result has no title and no links; the status code
    and the content length of the response are recorded as soon as there is
    a response, also when the page is then refused. *)
Theorem crawlURL_result_carries_url_and_depth
  (W : World) (done : bool) (u : string) (d : Z) :
  let '(r, err, _) := crawlURL W done u d in
  URL r = u ∧ Depth r = d ∧ Timestamp r = now W ∧
  (err ≠ None → Title r = "" ∧ Links r = []) ∧
  (err = None → StatusCode r = StatusOK) ∧
  (∀ resp, IsURLValid u = true → done = false → fetch W u = Some resp →
           StatusCode r = resp_StatusCode resp ∧
           ContentLength r = resp_ContentLength resp).
Proof.
  unfold crawlURL.
  destruct (IsURLValid u); simpl; [|split_and!; done].
  destruct done; simpl; [split_and!; done|].
  destruct (fetch W u) as [resp|]; simpl; [|split_and!; done].
  destruct (Z.eqb_spec (resp_StatusCode resp) StatusOK) as [Hs|Hs]; simpl;
    [|split_and!; try done; by intros ? _ _ [= <-]].
  destruct (Strings.Contains _ _); simpl; [|split_and!; try done; by intros ? _ _ [= <-]].
  destruct (resp_Body resp); simpl; split_and!; try done; by intros ? _ _ [= <-].
Qed.

(** X8.  Every link in the result of a successful [crawlURL] is a valid
    URL that begins with [http://] or [https://], and it is the normal form
    of what some [href] of the page, neither empty nor a fragment, resolves
    to against the URL of the page; the links keep the order of the anchors
    and there are no more links than anchors. *)
Theorem crawlURL_links_are_valid_and_normalized
  (W : World) (done : bool) (u : string) (d : Z) (r : Result) (lines : list logline) :
  crawlURL W done u d = (r, None, lines) →
  ∃ resp doc,
    fetch W u = Some resp ∧ resp_Body resp = Some doc ∧
    Links r = omap (fun h => (each_href u h).1) (doc_hrefs doc) ∧
    (List.length (Links r) <= List.length (doc_hrefs doc))%nat ∧
    Forall (fun l =>
              IsURLValid l = true ∧
              (Strings.HasPrefix l "http://" = true ∨ Strings.HasPrefix l "https://" = true) ∧
              ∃ href absoluteURL,
                href ∈ doc_hrefs doc ∧ href ≠ "" ∧ Strings.HasPrefix href "#" = false ∧
                ResolveURL u href = Some absoluteURL ∧ NormalizeURL absoluteURL = Some l)
           (Links r).
Proof.
  unfold crawlURL.
  destruct (IsURLValid u); simpl; [|done]. destruct done; simpl; [done|].
  destruct (fetch W u) as [resp|]; simpl; [|done].
  destruct (negb (resp_StatusCode resp =? StatusOK)); simpl; [done|].
  destruct (negb (Strings.Contains _ _)); simpl; [done|].
  destruct (resp_Body resp) as [doc|] eqn:Hb; simpl; [|done].
  intros [= <- <-]. exists resp, doc. cbn [Links]. unfold extract_links.
  split_and!; try done.
  - apply length_omap_le.
  - apply Forall_forall. intros l (href & Hin & Hl)%list_elem_of_omap.
    apply each_href_Some in Hl as (H1 & H2 & H3 & a & H4 & H5).
    split_and!; [done|by apply IsURLValid_prefix|]. exists href, a. done.
Qed.

Lemma crawlURL_links_witness :
  ∃ resp doc,
    fetch runs.mixed_world "https://example.com/" = Some resp ∧ resp_Body resp = Some doc ∧
    ["https://example.com/a/"; "https://other.com/b/"]
    = omap (fun h => (each_href "https://example.com/" h).1) (doc_hrefs doc) ∧
    (2 <= List.length (doc_hrefs doc))%nat ∧
    Forall (fun l =>
              IsURLValid l = true ∧
              (Strings.HasPrefix l "http://" = true ∨ Strings.HasPrefix l "https://" = true) ∧
              ∃ href absoluteURL,
                href ∈ doc_hrefs doc ∧ href ≠ "" ∧ Strings.HasPrefix href "#" = false ∧
                ResolveURL "https://example.com/" href = Some absoluteURL ∧
                NormalizeURL absoluteURL = Some l)
           ["https://example.com/a/"; "https://other.com/b/"].
Proof.
  exact (crawlURL_links_are_valid_and_normalized
           runs.mixed_world false "https://example.com/" 0
           (mkResult "https://example.com/" "page" 200 (-1)
                     ["https://example.com/a/"; "https://other.com/b/"] 0 runs.clock)
           [] eq_refl).
Defined.

(** ** [crawler/crawler.go]: what every run keeps *)

Lemma in_flight_zero_inv ws : in_flight ws = 0 → Forall (fun w => contrib w = 0) ws.
Proof.
  intros H. apply Forall_lookup_2. intros i w Hi.
  pose proof (in_flight_lookup _ _ _ Hi). pose proof (contrib_nonneg w). lia.
Qed.

(** X9.  In every state of every run the pending counter is the number of
    jobs in the queue, plus one for each job a worker is processing, plus
    one for each job that a worker (or [Start], for the seed) has counted
    and not yet sent; a worker that returned while it was adding a job left
    its own job counted.  The counter is never negative and never exceeds
    the capacity of the queue plus two per worker plus one. *)
Theorem pending_counter_counts_the_jobs
  (W : World) (cfg : Config) (s0 : state) (sched : list action) (s : state) :
  crawl_init cfg = Some s0 → run W sched s0 = Some s →
  pendingJobs s
  = Z.of_nat (List.length (jobs s)) + in_flight (workers s) + seed_pending (main s) ∧
  0 <= pendingJobs s <= Z.of_nat jobsCap + 2 * NumWorkers (New_config cfg) + 1.
Proof.
  intros Hi Hr. pose proof (run_reachable _ _ _ _ _ Hi Hr) as Hreach.
  destruct (reachable_inv _ _ _ Hreach) as [_ _ _ _ _ A _].
  split; [apply A|]. by eapply pending_bounded.
Qed.

Lemma pending_counter_witness :
  ∃ s0 s, crawl_init runs.diamond_config = Some s0 ∧
          run runs.diamond_world runs.diamond_tested s0 = Some s ∧
          pendingJobs s
          = Z.of_nat (List.length (jobs s)) + in_flight (workers s) + seed_pending (main s) ∧
          0 <= pendingJobs s
            <= Z.of_nat jobsCap + 2 * NumWorkers (New_config runs.diamond_config) + 1.
Proof.
  eexists _, _. split; [vm_compute; reflexivity|]. split; [vm_compute; reflexivity|].
  eapply (pending_counter_counts_the_jobs runs.diamond_world runs.diamond_config _
            runs.diamond_tested).
  - vm_compute; reflexivity.
  - vm_compute; reflexivity.
Defined.

(** X10.  Once the queue is closed there is no work left anywhere: the
    counter is zero, the queue is empty, [Start] has sent the seed, and
    every worker is at the head of its loop or has returned from there.  So
    the close never comes too early, and no goroutine is left that could
    send on the closed queue. *)
Theorem closed_queue_means_no_work_left
  (W : World) (cfg : Config) (s0 : state) (sched : list action) (s : state) :
  crawl_init cfg = Some s0 → run W sched s0 = Some s → jobs_closed s = true →
  pendingJobs s = 0 ∧ jobs s = [] ∧ main s ≠ MIncr ∧ main s ≠ MSend ∧
  Forall (fun w => w = WStart ∨ w = WSelect ∨
                   w = WExit ExitCancelled ∨ w = WExit ExitClosed) (workers s).
Proof.
  intros Hi Hr Hc. pose proof (run_reachable _ _ _ _ _ Hi Hr) as Hreach.
  destruct (reachable_inv _ _ _ Hreach) as [_ _ _ _ _ A _].
  pose proof (accounted_facts _ A) as (_ & F2 & F3 & F3' & F4 & _).
  destruct (F4 Hc) as [Hp Hm].
  assert (Hj : jobs s = []) by (destruct (jobs s); [done|simpl in F2; lia]).
  assert (Hf : in_flight (workers s) = 0) by lia.
  split_and!; try done.
  - intros Hs. rewrite Hs in F2. simpl in F2. lia.
  - eapply Forall_impl; [by apply in_flight_zero_inv|].
    intros [| | | | | | | | | | |[]]; simpl; intros; try done; auto.
Qed.

Lemma closed_queue_witness :
  ∃ s0 s, crawl_init runs.home_config = Some s0 ∧
          run runs.home_world runs.home_sched s0 = Some s ∧ jobs_closed s = true ∧
          pendingJobs s = 0 ∧ jobs s = [] ∧ main s ≠ MIncr ∧ main s ≠ MSend ∧
          Forall (fun w => w = WStart ∨ w = WSelect ∨
                           w = WExit ExitCancelled ∨ w = WExit ExitClosed) (workers s).
Proof.
  eexists _, _. split; [vm_compute; reflexivity|]. split; [vm_compute; reflexivity|].
  split; [vm_compute; reflexivity|].
  eapply (closed_queue_means_no_work_left runs.home_world runs.home_config _
            runs.home_sched).
  - vm_compute; reflexivity.
  - vm_compute; reflexivity.
  - vm_compute; reflexivity.
Defined.

(** X11.  As long as a run is not cancelled no worker is on a path that
    only cancellation opens: a worker that has returned has returned after
    reading the closed queue, and the queue is closed then. *)
Theorem without_cancellation_workers_leave_through_the_closed_queue
  (W : World) (cfg : Config) (s0 : state) (sched : list action) (s : state) :
  crawl_init cfg = Some s0 → run W sched s0 = Some s → cancelled s = false →
  (∀ i, workers s !! i ≠ Some WAbort) ∧
  (∀ i e, workers s !! i = Some (WExit e) →
          e = ExitClosed ∧ jobs_closed s = true ∧ pendingJobs s = 0).
Proof.
  intros Hi Hr Hc. pose proof (run_reachable _ _ _ _ _ Hi Hr) as Hreach.
  destruct (reachable_inv _ _ _ Hreach) as [_ _ _ _ _ A _].
  pose proof (acc_cancel _ A Hc) as A6. pose proof (acc_exit _ A) as A7.
  split.
  - intros i Hw. eapply Forall_lookup_1 in A6; [|done]. by apply A6.
  - intros i e Hw. eapply Forall_lookup_1 in A6; [|done]. eapply Forall_lookup_1 in A7; [|done].
    destruct e; simpl in A6; try tauto. split; [done|].
    pose proof (A7 eq_refl) as Hcl. split; [done|]. by apply (acc_closed _ A).
Qed.

Lemma without_cancellation_witness :
  ∃ s0 s, crawl_init runs.home_config = Some s0 ∧
          run runs.home_world runs.home_sched s0 = Some s ∧ cancelled s = false ∧
          (∀ i, workers s !! i ≠ Some WAbort) ∧
          (∀ i e, workers s !! i = Some (WExit e) →
                  e = ExitClosed ∧ jobs_closed s = true ∧ pendingJobs s = 0).
Proof.
  eexists _, _. split; [vm_compute; reflexivity|]. split; [vm_compute; reflexivity|].
  split; [vm_compute; reflexivity|].
  eapply (without_cancellation_workers_leave_through_the_closed_queue
            runs.home_world runs.home_config _ runs.home_sched).
  - vm_compute; reflexivity.
  - vm_compute; reflexivity.
  - vm_compute; reflexivity.
Defined.

(** ** Cancellation *)

Lemma worker_moves_when_cancelled W s i w :
  panicked s = false → cancelled s = true → workers s !! i = Some w → exited w = false →
  is_Some (exec W (AWorker i) s) ∨ is_Some (exec W (ADone i) s).
Proof.
  intros Hp Hc Hw He. unfold exec. rewrite Hp. unfold worker_step, worker_done.
  rewrite Hw, Hc. cbn [mbind option_bind negb].
  destruct w; try done; try (left; eauto; fail); try (right; eauto; fail).
  - left. destruct (crawlURL W true (url j) (depth j)) as [[r [e|]] ls]; eauto.
  - left. repeat case_match; eauto.
  - left. repeat case_match; eauto.
Qed.

(** X12.  Once a run is cancelled no goroutine is ever blocked: every
    worker that has not returned can take a step, at a [select] the
    cancellation branch, and so can [Start] until it has returned.  Hence a
    cancelled run can only come to rest with every worker returned, which
    is when [Stop] gets past [c.stopChan], and with [Start] returned. *)
Theorem after_cancellation_nothing_blocks
  (W : World) (cfg : Config) (s0 : state) (sched : list action) (s : state) :
  crawl_init cfg = Some s0 → run W sched s0 = Some s → cancelled s = true →
  (∀ i w, workers s !! i = Some w → exited w = false →
          is_Some (exec W (AWorker i) s) ∨ is_Some (exec W (ADone i) s)) ∧
  (main s ≠ MDone → is_Some (exec W AStart s)) ∧
  (stuck W s → main s = MDone ∧ forallb exited (workers s) = true).
Proof.
  intros Hi Hr Hc. pose proof (run_reachable _ _ _ _ _ Hi Hr) as Hreach.
  destruct (reachable_inv _ _ _ Hreach) as [_ _ _ _ _ A _].
  pose proof (accounted_facts _ A) as (F1 & F2 & F3 & F3' & F4 & F5 & F6).
  assert (Hw : ∀ i w, workers s !! i = Some w → exited w = false →
               is_Some (exec W (AWorker i) s) ∨ is_Some (exec W (ADone i) s)).
  { intros i w. by apply worker_moves_when_cancelled. }
  assert (Hm : main s ≠ MDone → is_Some (exec W AStart s)).
  { intros Hm. unfold exec. rewrite F1. unfold start_step.
    destruct (main s) eqn:E; try done; eauto.
    - destruct (F6 (or_intror eq_refl)) as [Hj Hf].
      unfold send_job. destruct (jobs_closed s) eqn:Hcl.
      + destruct (F4 eq_refl) as [Hp _]. rewrite Hj, Hf in F2. simpl in F2. lia.
      + rewrite Hj. change (List.length (@nil job) <? jobsCap)%nat with true.
        cbn [mbind option_bind panicked emit set_jobs set_trace]. rewrite F1. eauto.
    - rewrite Hc. destruct (forallb exited (workers s)); eauto. }
  split; [done|]. split; [done|]. intros Hst. split.
  - destruct (main s) eqn:E; try done.
    all: destruct Hm as [s' Hs']; [done|]; by rewrite (Hst AStart) in Hs'.
  - apply forallb_forall. intros w Hin%list_elem_of_In.
    apply list_elem_of_lookup in Hin as [i Hi'].
    destruct (exited w) eqn:He; [done|].
    destruct (Hw i w Hi' He) as [[s' Hs']|[s' Hs']].
    + by rewrite (Hst (AWorker i)) in Hs'.
    + by rewrite (Hst (ADone i)) in Hs'.
Qed.

Lemma after_cancellation_witness :
  ∃ s0 s, crawl_init runs.home_config = Some s0 ∧
          run runs.home_world [AStart; AStart; AStart; AWorker 0; ACancel] s0 = Some s ∧
          cancelled s = true ∧
          (∀ i w, workers s !! i = Some w → exited w = false →
                  is_Some (exec runs.home_world (AWorker i) s) ∨
                  is_Some (exec runs.home_world (ADone i) s)) ∧
          (main s ≠ MDone → is_Some (exec runs.home_world AStart s)) ∧
          (stuck runs.home_world s → main s = MDone ∧ forallb exited (workers s) = true).
Proof.
  eexists _, _. split; [vm_compute; reflexivity|]. split; [vm_compute; reflexivity|].
  split; [vm_compute; reflexivity|].
  eapply (after_cancellation_nothing_blocks runs.home_world runs.home_config _
            [AStart; AStart; AStart; AWorker 0; ACancel]).
  - vm_compute; reflexivity.
  - vm_compute; reflexivity.
  - vm_compute; reflexivity.
Defined.

(** ** What a run never undoes *)

Lemma prefix_app_r' {A} (l k : list A) : l `prefix_of` l ++ k.
Proof. by exists k. Qed.

Lemma dec_trace_prefix s : trace s `prefix_of` trace (decrementPendingJobs s).
Proof.
  unfold decrementPendingJobs, close_jobs.
  repeat case_match; proj; rewrite <- ?app_assoc; apply prefix_app_r'.
Qed.

Lemma dec_closed_mono s : jobs_closed s = true → jobs_closed (decrementPendingJobs s) = true.
Proof. unfold decrementPendingJobs, close_jobs. repeat case_match; proj; done. Qed.

Lemma seen_insert_mono (m : gmap string bool) link u :
  default false (m !! u) = true → default false (<[link := true]> m !! u) = true.
Proof.
  intros H. destruct (decide (link = u)) as [->|Hne].
  - by rewrite lookup_insert_eq.
  - by rewrite lookup_insert_ne.
Qed.

Lemma step_monotone W a s s' :
  exec W a s = Some s' →
  results s `prefix_of` results s' ∧ trace s `prefix_of` trace s' ∧
  (∀ u, hasURLBeenSeen s u = true → hasURLBeenSeen s' u = true) ∧
  (cancelled s = true → cancelled s' = true) ∧
  (jobs_closed s = true → jobs_closed s' = true).
Proof.
  intros H. unfold hasURLBeenSeen.
  exec_cases H; proj; rewrite ?dec_results, ?dec_seen, ?dec_cancelled.
  all: split_and!; try done; try apply prefix_app_r'; try apply dec_trace_prefix;
    try apply dec_closed_mono; try (intros u; apply seen_insert_mono).
  all: try (etrans; [|apply dec_trace_prefix]; proj; apply prefix_app_r').
  all: try (etrans; [apply dec_trace_prefix|]; proj; apply prefix_app_r').
  all: try (unfold next_link; case_match; proj; rewrite ?app_nil_r; try done;
            apply prefix_app_r').
  all: rewrite <- app_assoc; apply prefix_app_r'.
Qed.

Lemma run_monotone W sched s s' :
  run W sched s = Some s' →
  results s `prefix_of` results s' ∧ trace s `prefix_of` trace s' ∧
  (∀ u, hasURLBeenSeen s u = true → hasURLBeenSeen s' u = true) ∧
  (cancelled s = true → cancelled s' = true) ∧
  (jobs_closed s = true → jobs_closed s' = true).
Proof.
  revert s. induction sched as [|a sched IH]; intros s H; simpl in H.
  - by injection H as <-.
  - destruct (exec W a s) as [s1|] eqn:He; simpl in H; [|done].
    destruct (step_monotone _ _ _ _ He) as (H1 & H2 & H3 & H4 & H5).
    destruct (IH _ H) as (I1 & I2 & I3 & I4 & I5).
    split_and!; try (by etrans); auto.
Qed.

(** X13.  No step of any goroutine undoes what was recorded: along every
    run, from any state, the result collection and the log only grow at
    their end, a URL that is marked seen stays marked, a cancelled run stays
    cancelled and the closed queue stays closed. *)
Theorem a_run_never_undoes_what_it_recorded
  (W : World) (sched : list action) (s s' : state) :
  run W sched s = Some s' →
  results s `prefix_of` results s' ∧ trace s `prefix_of` trace s' ∧
  (∀ u, hasURLBeenSeen s u = true → hasURLBeenSeen s' u = true) ∧
  (cancelled s = true → cancelled s' = true) ∧
  (jobs_closed s = true → jobs_closed s' = true).
Proof. apply run_monotone. Qed.

Lemma never_undoes_witness :
  ∃ s s', runs.after runs.mixed_world runs.mixed_config
            ([AStart; AStart; AStart] ++ runs.w0 5) = Some s ∧
          run runs.mixed_world (runs.w0 10 ++ [AStart; AStart; AStart]) s = Some s' ∧
          results s `prefix_of` results s' ∧ trace s `prefix_of` trace s' ∧
          (∀ u, hasURLBeenSeen s u = true → hasURLBeenSeen s' u = true) ∧
          (cancelled s = true → cancelled s' = true) ∧
          (jobs_closed s = true → jobs_closed s' = true).
Proof.
  eexists _, _. split; [vm_compute; reflexivity|]. split; [vm_compute; reflexivity|].
  eapply (a_run_never_undoes_what_it_recorded runs.mixed_world
            (runs.w0 10 ++ [AStart; AStart; AStart])).
  vm_compute; reflexivity.
Defined.

(** ** Where the jobs and the results of a run come from *)

Lemma step_extends W a s s' : exec W a s = Some s' → extends s s'.
Proof.
  intros H. destruct (step_monotone _ _ _ _ H) as (M1 & _ & M3 & _).
  destruct (step_frame _ _ _ _ H) as (_ & F2 & F3).
  split; try done.
  intros Hm. unfold hasURLBeenSeen.
  exec_cases H; proj; dec_simpl; auto; try congruence.
  all: try (right; by rewrite lookup_insert_eq).
  all: try (unfold next_link; case_match; proj; auto).
Qed.

Section Extends.
Context (s s' : state) (E : extends s s').

Lemma linked_extends u d : linked s u d → linked s' u d.
Proof.
  destruct E as [E1 _ E3 _ _]. intros [[-> ->]|(p & Hp & Hd & Hu)].
  - left. by rewrite E1.
  - right. exists p. split; [|done]. destruct E3 as [k ->]. apply elem_of_app. by left.
Qed.

Lemma marked_extends u : marked s u → marked s' u.
Proof.
  destruct E as [E1 _ _ E4 E5]. intros [H|[Hm ->]].
  - left. by apply E4.
  - destruct (E5 Hm) as [Hm'|Hs]; [right; by rewrite E1|by left].
Qed.

Lemma sound_job_extends j : sound_job s j → sound_job s' j.
Proof. intros [H1 H2]. split; [by apply linked_extends|by apply marked_extends]. Qed.

Lemma sound_result_extends r : sound_result s r → sound_result s' r.
Proof. intros [H1 H2]. split; [by apply linked_extends|by apply marked_extends]. Qed.

Lemma links_of_stored_extends j links : links_of_stored s j links → links_of_stored s' j links.
Proof.
  destruct E as [_ _ E3 _ _]. intros (p & Hp & Hd & Hl). exists p. split; [|done].
  destruct E3 as [k ->]. apply elem_of_app. by left.
Qed.

Lemma sound_worker_extends w : sound_worker s w → sound_worker s' w.
Proof.
  pose proof sound_job_extends. pose proof links_of_stored_extends.
  destruct E as [_ _ _ E4 _].
  destruct w; simpl; try done; intros; destruct_and?; split_and?; auto.
Qed.

End Extends.

Lemma links_of_stored_tail s j link rest :
  links_of_stored s j (link :: rest) → links_of_stored s j rest.
Proof.
  intros (p & Hp & Hd & Hl). exists p. split_and!; try done.
  intros x Hx. apply Hl. by right.
Qed.

Lemma links_of_stored_head s j link rest :
  links_of_stored s j (link :: rest) → linked s link (depth j + 1).
Proof.
  intros (p & Hp & Hd & Hl). right. exists p. split_and!; [done|lia|]. apply Hl. left.
Qed.

Lemma sound_next_link s i j links added :
  sound_job s j → links_of_stored s j links →
  sound_worker s (next_link i j links added).1.
Proof. intros. unfold next_link. destruct links; simpl; done. Qed.

Lemma linked_nil s u d : results s = [] → linked s u d → d = 0 ∧ u = startURL s.
Proof.
  intros Hr [H|(p & Hp & _)]; [done|]. rewrite Hr in Hp. by apply not_elem_of_nil in Hp.
Qed.

Lemma early_not_storing ws i w :
  Forall early ws → ws !! i = Some w → storing w = false.
Proof.
  intros Hf Hi. eapply Forall_lookup_1 in Hf; [|done]. by destruct w.
Qed.

Ltac lin_old E :=
  first [ apply (sound_job_extends _ _ E) | apply (sound_worker_extends _ _ E)
        | apply (sound_result_extends _ _ E) | apply (links_of_stored_extends _ _ E)
        | apply (linked_extends _ _ E) | apply (marked_extends _ _ E) ].

Lemma lineage_step W a D dom s s' :
  exec W a s = Some s' → accounted s → good D dom s →
  baseDomain s = dom → host_of (startURL s) = Some dom →
  lineage s → lineage s'.
Proof.
  intros H A G Hdom Hseed [L1 L2 L3 L4 L5 L6].
  pose proof (step_extends _ _ _ _ H) as E.
  pose proof (Forall_impl _ _ _ L1 (sound_job_extends _ _ E)) as L1'.
  pose proof (Forall_impl _ _ _ L2 (sound_worker_extends _ _ E)) as L2'.
  pose proof (Forall_impl _ _ _ L3 (sound_result_extends _ _ E)) as L3'.
  pose proof (acc_early _ A) as A4.
  destruct G as [_ G2 _ _].
  exec_cases H; proj; dec_simpl.
  all: try (match goal with Hi : workers _ !! _ = Some _ |- _ =>
              pose proof (Forall_lookup_1 _ _ _ _ L2 Hi) as Lw; simpl in Lw;
              pose proof (Forall_lookup_1 _ _ _ _ G2 Hi) as Gw; simpl in Gw end).
  all: try match goal with E : crawlURL _ _ _ _ = (_, None, _) |- _ =>
              apply crawlURL_ok in E; destruct E end.
  all: split; proj; dec_simpl; try done.
  all: try match goal with E : jobs _ = _ |- _ => rewrite ?E in * end; try done.
  all: try (intros [?|?]; discriminate).
  all: try (apply Forall_insert; [exact L2'|]).
  all: try (match goal with |- Forall _ (<[_:=_]> _) => apply Forall_insert; [done|] end).
  all: try (inversion L1'; subst; done).
  (* the seed has not been sent: no result yet *)
  all: try (intros Hm; apply L5; first [by auto | rewrite Heqm; by auto]).
  all: try (intros Hm; destruct (A4 Hm) as [_ He];
            pose proof (early_not_storing _ _ _ He Heqo); done).
  (* the seen set *)
  all: try (intros u; unfold hasURLBeenSeen; proj; dec_simpl; first [apply L6|
            intros Hu;
            match type of Hu with
            | context [<[?k := _]> _ !! _] =>
                destruct (decide (k = u)) as [<-|Hne];
                [first [exact Hseed | apply Gw]
                |rewrite lookup_insert_ne in Hu by done; by apply L6]
            end]).
  (* the worker that moved *)
  all: try (apply sound_next_link;
            [lin_old E; apply Lw| lin_old E; eapply links_of_stored_tail; apply Lw]).
  all: try (lin_old E; apply Lw).
  - (* Start sends the seed *)
    apply Forall_app. split; [exact L1'|]. constructor; [|constructor].
    split; [by left|by right].
  - (* a result is stored and its links are walked through *)
    apply sound_next_link; [lin_old E; apply Lw|].
    exists r. split_and!; [apply elem_of_app; right; left|apply Lw|done].
  - apply Forall_app. split; [exact L3'|]. constructor; [|constructor].
    destruct Lw as (Hj & Hu & Hd). unfold sound_result. rewrite Hu, Hd.
    by apply (sound_job_extends _ _ E).
  - intros r0. destruct (results s) as [|r1 rs] eqn:Hres; simpl; intros [= <-].
    + destruct Lw as ([Hl _] & Hu & Hd). rewrite Hu, Hd.
      eapply linked_nil in Hl; [|done]. tauto.
    + by apply L4.
  - apply Forall_app. split; [exact L3'|]. constructor; [|constructor].
    destruct Lw as (Hj & Hu & Hd). unfold sound_result. rewrite Hu, Hd.
    by apply (sound_job_extends _ _ E).
  - intros r0. destruct (results s) as [|r1 rs] eqn:Hres; simpl; intros [= <-].
    + destruct Lw as ([Hl _] & Hu & Hd). rewrite Hu, Hd.
      eapply linked_nil in Hl; [|done]. tauto.
    + by apply L4.
  - (* a link is marked *)
    destruct Lw as [Hj Hl]. split_and!; [by lin_old E|by lin_old E|].
    unfold hasURLBeenSeen. proj. by rewrite lookup_insert_eq.
  - (* a link is sent *)
    apply Forall_app. split; [exact L1'|]. constructor; [|constructor].
    destruct Lw as (Hj & Hl & Hs). split; cbn [url depth].
    + lin_old E. by eapply links_of_stored_head.
    + lin_old E. by left.
Qed.

Lemma init_lineage cfg s : crawl_init cfg = Some s → lineage s.
Proof.
  intros (Hc & Hn & Hh & Hw & Hm & Hj & Hr & Ht & Hs & Hcl & Hca & Hp & Hpa)%init_facts.
  split; rewrite ?Hw, ?Hj, ?Hr; try done.
  - apply Forall_replicate. done.
  - intros u. unfold hasURLBeenSeen. by rewrite Hs, lookup_empty.
Qed.

Lemma reachable_lineage W cfg s : reachable W cfg s → lineage s.
Proof.
  induction 1 as [s Hi|s s' Hr IH [a Ha]]; [by eapply init_lineage|].
  destruct (reachable_inv _ _ _ Hr) as [I1 I2 I3 _ _ A G].
  eapply lineage_step; eauto.
Qed.

Lemma crawlURL_fails_done W b u d :
  (crawlURL W false u d).1.2 ≠ None → (crawlURL W b u d).1.2 ≠ None.
Proof.
  destruct b; [|done]. intros _. unfold crawlURL. destruct (IsURLValid u); done.
Qed.

Lemma empty_handed_logs ls : Forall empty_handed (logs ls).
Proof. unfold logs. apply Forall_fmap, Forall_true. done. Qed.

Lemma dec_trace_empty_handed s :
  Forall empty_handed (trace s) → Forall empty_handed (trace (decrementPendingJobs s)).
Proof.
  intros H. unfold decrementPendingJobs, close_jobs.
  repeat case_match; proj; repeat (apply Forall_app; split); try done;
    by repeat constructor.
Qed.

Lemma barren_step W a s s' :
  exec W a s = Some s' → lineage s →
  (crawlURL W false (startURL s) 0).1.2 ≠ None →
  barren s → barren s'.
Proof.
  intros H [_ L2 _ _ _ _] Hfail [B1 B2 B3].
  exec_cases H; proj; dec_simpl.
  all: try (match goal with Hi : workers _ !! _ = Some _ |- _ =>
              pose proof (Forall_lookup_1 _ _ _ _ L2 Hi) as Lw; simpl in Lw;
              pose proof (Forall_lookup_1 _ _ _ _ B2 Hi) as Bw; simpl in Bw end).
  all: try done.
  all: try match goal with
           | E : crawlURL _ ?b (url ?j) (depth ?j) = (_, None, _) |- _ =>
               exfalso; destruct Lw as [Hl _];
               destruct (linked_nil _ _ _ B1 Hl) as [Hd Hu];
               apply (crawlURL_fails_done W b) in Hfail;
               rewrite Hu, Hd in E; rewrite E in Hfail; done
           end.
  all: split; proj; dec_simpl; try done.
  all: try (apply Forall_insert; [done|]; unfold next_link; repeat case_match; done).
  all: try (apply dec_trace_empty_handed; done).
  all: rewrite ?B1.
  all: repeat (apply Forall_app; split); try done; try apply empty_handed_logs;
    try (by repeat constructor).
  all: try (unfold next_link; case_match; by repeat constructor).
  all: try (case_match; by repeat constructor).
  constructor; [done|]. apply Forall_app. split; [apply empty_handed_logs|by repeat constructor].
Qed.

Lemma init_barren cfg s : crawl_init cfg = Some s → barren s.
Proof.
  intros (Hc & Hn & Hh & Hw & Hm & Hj & Hr & Ht & Hs & Hcl & Hca & Hp & Hpa)%init_facts.
  split; rewrite ?Hw, ?Hr, ?Ht; try done. by apply Forall_replicate.
Qed.

Lemma reachable_barren W cfg s :
  reachable W cfg s → (crawlURL W false (startURL s) 0).1.2 ≠ None → barren s.
Proof.
  induction 1 as [s Hi|s s' Hr IH [a Ha]]; intros Hfail; [by eapply init_barren|].
  destruct (step_frame _ _ _ _ Ha) as (_ & F2 & _). rewrite F2 in Hfail.
  eapply barren_step; eauto. by eapply reachable_lineage.
Qed.

(** X14.  Every result of a run was reached by following links: it is
    the page of the seed at depth 0, or its URL is among the links of a
    result of the same run that lies one level higher.  The same holds of
    every job that waits in the queue. *)
Theorem every_result_was_linked_from_a_result_one_level_up
  (W : World) (cfg : Config) (s0 : state) (sched : list action) (s : state) :
  crawl_init cfg = Some s0 → run W sched s0 = Some s →
  NormalizeURL (StartURL cfg) = Some (startURL s) ∧
  (∀ r, r ∈ results s →
        (Depth r = 0 ∧ URL r = startURL s) ∨
        ∃ p, p ∈ results s ∧ Depth p + 1 = Depth r ∧ URL r ∈ Links p) ∧
  (∀ j, j ∈ jobs s → linked s (url j) (depth j)).
Proof.
  intros Hi Hr. pose proof (run_reachable _ _ _ _ _ Hi Hr) as Hreach.
  destruct (reachable_inv _ _ _ Hreach) as [_ I2 _ _ _ _ _].
  destruct (reachable_lineage _ _ _ Hreach) as [L1 _ L3 _ _ _].
  split_and!; [done| |].
  - intros r Hin. eapply Forall_forall in L3; [|done]. apply L3.
  - intros j Hin. eapply Forall_forall in L1; [|done]. apply L1.
Qed.

Lemma every_result_was_linked_witness :
  ∃ s0 s, crawl_init runs.mixed_config = Some s0 ∧
          run runs.mixed_world runs.mixed_sched s0 = Some s ∧
          NormalizeURL (StartURL runs.mixed_config) = Some (startURL s) ∧
          (∀ r, r ∈ results s →
                (Depth r = 0 ∧ URL r = startURL s) ∨
                ∃ p, p ∈ results s ∧ Depth p + 1 = Depth r ∧ URL r ∈ Links p) ∧
          (∀ j, j ∈ jobs s → linked s (url j) (depth j)).
Proof.
  eexists _, _. split; [vm_compute; reflexivity|]. split; [vm_compute; reflexivity|].
  eapply (every_result_was_linked_from_a_result_one_level_up
            runs.mixed_world runs.mixed_config _ runs.mixed_sched).
  - vm_compute; reflexivity.
  - vm_compute; reflexivity.
Defined.

(** X15.  The first result of every run is the page of the seed: whenever
    the result collection is not empty its first element has the normalized
    start URL and depth 0. *)
Theorem first_result_is_the_seed_page
  (W : World) (cfg : Config) (s0 : state) (sched : list action) (s : state) (r : Result) :
  crawl_init cfg = Some s0 → run W sched s0 = Some s → head (results s) = Some r →
  NormalizeURL (StartURL cfg) = Some (URL r) ∧ Depth r = 0.
Proof.
  intros Hi Hr Hh. pose proof (run_reachable _ _ _ _ _ Hi Hr) as Hreach.
  destruct (reachable_inv _ _ _ Hreach) as [_ I2 _ _ _ _ _].
  destruct (reachable_lineage _ _ _ Hreach) as [_ _ _ L4 _ _].
  destruct (L4 _ Hh) as [-> ->]. done.
Qed.

Lemma first_result_witness :
  ∃ s0 s r, crawl_init runs.mixed_config = Some s0 ∧
            run runs.mixed_world runs.mixed_sched s0 = Some s ∧
            head (results s) = Some r ∧
            NormalizeURL (StartURL runs.mixed_config) = Some (URL r) ∧ Depth r = 0.
Proof.
  eexists _, _, _. split; [vm_compute; reflexivity|]. split; [vm_compute; reflexivity|].
  split; [vm_compute; reflexivity|].
  eapply (first_result_is_the_seed_page runs.mixed_world runs.mixed_config _
            runs.mixed_sched).
  - vm_compute; reflexivity.
  - vm_compute; reflexivity.
  - vm_compute; reflexivity.
Defined.

(** X16.  Every URL that is marked seen has the host of the seed.  Every
    URL that is in the queue or in a result is marked seen, with one
    exception: the seed in the one step between [Start] sending it and
    [Start] marking it. *)
Theorem queued_and_crawled_urls_are_marked_seen
  (W : World) (cfg : Config) (s0 : state) (sched : list action) (s : state) :
  crawl_init cfg = Some s0 → run W sched s0 = Some s →
  (∀ u, hasURLBeenSeen s u = true → host_of u = host_of (startURL s)) ∧
  (∀ j, j ∈ jobs s →
        hasURLBeenSeen s (url j) = true ∨ (main s = MMark ∧ url j = startURL s)) ∧
  (∀ r, r ∈ results s →
        hasURLBeenSeen s (URL r) = true ∨ (main s = MMark ∧ URL r = startURL s)).
Proof.
  intros Hi Hr. pose proof (run_reachable _ _ _ _ _ Hi Hr) as Hreach.
  destruct (reachable_inv _ _ _ Hreach) as [_ _ I3 _ _ _ _].
  destruct (reachable_lineage _ _ _ Hreach) as [L1 _ L3 _ _ L6].
  split_and!.
  - intros u Hu. rewrite I3. by apply L6.
  - intros j Hin. eapply Forall_forall in L1; [|done]. apply L1.
  - intros r Hin. eapply Forall_forall in L3; [|done]. apply L3.
Qed.

Lemma queued_and_crawled_witness :
  ∃ s0 s, crawl_init runs.diamond_config = Some s0 ∧
          run runs.diamond_world runs.diamond_sched s0 = Some s ∧
          (∀ u, hasURLBeenSeen s u = true → host_of u = host_of (startURL s)) ∧
          (∀ j, j ∈ jobs s →
                hasURLBeenSeen s (url j) = true ∨ (main s = MMark ∧ url j = startURL s)) ∧
          (∀ r, r ∈ results s →
                hasURLBeenSeen s (URL r) = true ∨ (main s = MMark ∧ URL r = startURL s)).
Proof.
  eexists _, _. split; [vm_compute; reflexivity|]. split; [vm_compute; reflexivity|].
  eapply (queued_and_crawled_urls_are_marked_seen runs.diamond_world runs.diamond_config _
            runs.diamond_sched).
  - vm_compute; reflexivity.
  - vm_compute; reflexivity.
Defined.

(** X17.  When the page of the seed cannot be crawled (its URL is not
    valid, the request fails, the status is not 200, the content is not
    HTML or the body does not parse) no run stores a result: the result
    collection stays empty, and what [Start] saves and returns is the empty
    list. *)
Theorem a_failing_seed_page_gives_no_results
  (W : World) (cfg : Config) (seed : string) (s0 : state) (sched : list action) (s : state) :
  NormalizeURL (StartURL cfg) = Some seed →
  (crawlURL W false seed 0).1.2 ≠ None →
  crawl_init cfg = Some s0 → run W sched s0 = Some s →
  results s = [] ∧
  (∀ rs, EvSave rs ∈ trace s ∨ EvReturn rs ∈ trace s → rs = []).
Proof.
  intros Hn Hfail Hi Hr. pose proof (run_reachable _ _ _ _ _ Hi Hr) as Hreach.
  destruct (reachable_inv _ _ _ Hreach) as [_ I2 _ _ _ _ _].
  assert (seed = startURL s) as -> by congruence.
  destruct (reachable_barren _ _ _ Hreach Hfail) as [B1 _ B3].
  split; [done|]. intros rs [Hin|Hin]; (eapply Forall_forall in B3; [|done]); apply B3.
Qed.

Lemma a_failing_seed_witness :
  ∃ s0 s, NormalizeURL (StartURL (mkConfig "https://example.com/b" 1 1 0 0 true))
          = Some "https://example.com/b/" ∧
          (crawlURL runs.broken_world false "https://example.com/b/" 0).1.2 ≠ None ∧
          crawl_init (mkConfig "https://example.com/b" 1 1 0 0 true) = Some s0 ∧
          run runs.broken_world ([AStart; AStart; AStart] ++ runs.w0 5
                                   ++ [AStart; AStart; AStart]) s0 = Some s ∧
          main s = MDone ∧
          results s = [] ∧
          (∀ rs, EvSave rs ∈ trace s ∨ EvReturn rs ∈ trace s → rs = []).
Proof.
  eexists _, _. split; [vm_compute; reflexivity|]. split; [vm_compute; discriminate|].
  split; [vm_compute; reflexivity|]. split; [vm_compute; reflexivity|].
  split; [vm_compute; reflexivity|].
  eapply (a_failing_seed_page_gives_no_results runs.broken_world
            (mkConfig "https://example.com/b" 1 1 0 0 true) "https://example.com/b/" _
            ([AStart; AStart; AStart] ++ runs.w0 5 ++ [AStart; AStart; AStart])).
  - vm_compute; reflexivity.
  - vm_compute; discriminate.
  - vm_compute; reflexivity.
  - vm_compute; reflexivity.
Defined.

(** ** What [Start] saves and what it returns *)

Lemma silent_current s e : silent e → current s e.
Proof. by destruct e. Qed.

Lemma silent_logs ls : Forall silent (logs ls).
Proof. unfold logs. apply Forall_fmap, Forall_true. done. Qed.

Ltac new_events :=
  repeat first
    [ apply Forall_nil
    | apply Forall_cons; split; [done|]
    | apply Forall_app; split
    | apply silent_logs
    | (eapply Forall_impl; [apply silent_logs|intros ?; apply silent_current])
    | progress (unfold next_link)
    | case_match
    | done ].

Lemma current_eq s s' e : results s' = results s → current s e → current s' e.
Proof. unfold current. by intros ->. Qed.

Lemma handed_step W a s s' :
  exec W a s = Some s' → accounted s → handed s → handed s'.
Proof.
  intros H A [H1 H2]. pose proof (acc_wait _ A) as A8.
  exec_cases H.
  all: split; proj; dec_simpl; try done.
  all: rewrite <- ?app_assoc.
  all: try congruence.
  (* nothing handed over yet *)
  all: try (intros N1 N2; apply H1; congruence).
  all: try (intros N1 N2; apply Forall_app; split;
            [apply H1; congruence|new_events]; fail).
  (* the results are as they were *)
  all: try (intros Hc; specialize (H2 Hc); apply Forall_app; split;
            [eapply Forall_impl; [exact H2|intros e; apply current_eq; proj; dec_simpl; done]
            |new_events]; fail).
  (* a result is stored: nothing was handed over before *)
  all: intros Hc; apply Forall_app; split; [|new_events].
  all: eapply Forall_impl; [|intros e; apply silent_current].
  all: apply H1; intros Hm; destruct A8 as [A8|A8]; auto; try congruence.
  all: eapply Forall_lookup_1 in A8; [|done]; done.
Qed.

Lemma init_handed cfg s : crawl_init cfg = Some s → handed s.
Proof.
  intros (Hc & Hn & Hh & Hw & Hm & Hj & Hr & Ht & Hs & Hcl & Hca & Hp & Hpa)%init_facts.
  split; rewrite Ht; done.
Qed.

Lemma reachable_handed W cfg s : reachable W cfg s → handed s.
Proof.
  induction 1 as [s Hi|s s' Hr IH [a Ha]]; [by eapply init_handed|].
  destruct (reachable_inv _ _ _ Hr) as [_ _ _ _ _ A _].
  by eapply handed_step.
Qed.

(** X20.  In a run that is not cancelled [Start] saves and returns the
    same list, the result collection as it is at the end: every worker has
    returned before [Start] copies the results, so nothing is appended
    afterwards.  (In a cancelled run a worker can append between the copy
    and the return.) *)
Theorem uncancelled_run_saves_what_it_returns
  (W : World) (cfg : Config) (s0 : state) (sched : list action) (s : state)
  (saved returned : list Result) :
  crawl_init cfg = Some s0 → run W sched s0 = Some s → cancelled s = false →
  (EvSave saved ∈ trace s → saved = results s) ∧
  (EvReturn returned ∈ trace s → returned = results s) ∧
  (EvSave saved ∈ trace s ∨ EvReturn returned ∈ trace s →
   Forall (fun w => w = WExit ExitClosed) (workers s)).
Proof.
  intros Hi Hr Hc. pose proof (run_reachable _ _ _ _ _ Hi Hr) as Hreach.
  destruct (reachable_inv _ _ _ Hreach) as [_ _ _ _ _ A _].
  destruct (reachable_handed _ _ _ Hreach) as [H1 H2]. specialize (H2 Hc).
  split_and!.
  - intros Hin. eapply Forall_forall in H2; [|done]. apply H2.
  - intros Hin. eapply Forall_forall in H2; [|done]. apply H2.
  - intros Hin.
    assert (Hm : main s = MReturn ∨ main s = MDone).
    { destruct (main s) eqn:E; auto; exfalso.
      all: assert (Hs : Forall silent (trace s)) by (apply H1; congruence).
      all: destruct Hin as [Hin|Hin]; eapply Forall_forall in Hs; try exact Hin; done. }
    destruct (acc_wait _ A) as [?|He]; [tauto|congruence|].
    pose proof (acc_cancel _ A Hc) as A6.
    apply Forall_lookup_2. intros i w Hw.
    eapply Forall_lookup_1 in He; [|done]. eapply Forall_lookup_1 in A6; [|done].
    destruct w as [| | | | | | | | | | |[]]; simpl in *; try done; tauto.
Qed.

Lemma uncancelled_run_witness :
  ∃ s0 s, crawl_init runs.mixed_config = Some s0 ∧
          run runs.mixed_world runs.mixed_sched s0 = Some s ∧ cancelled s = false ∧
          EvSave (results s) ∈ trace s ∧ EvReturn (results s) ∈ trace s ∧
          (EvSave (results s) ∈ trace s → results s = results s) ∧
          (EvReturn (results s) ∈ trace s → results s = results s) ∧
          (EvSave (results s) ∈ trace s ∨ EvReturn (results s) ∈ trace s →
           Forall (fun w => w = WExit ExitClosed) (workers s)).
Proof.
  eexists _, _. split; [vm_compute; reflexivity|]. split; [vm_compute; reflexivity|].
  split; [vm_compute; reflexivity|].
  split; [vm_compute; apply list_elem_of_In; simpl; tauto|].
  split; [vm_compute; apply list_elem_of_In; simpl; tauto|].
  eapply (uncancelled_run_saves_what_it_returns runs.mixed_world runs.mixed_config _
            runs.mixed_sched).
  - vm_compute; reflexivity.
  - vm_compute; reflexivity.
  - vm_compute; reflexivity.
Defined.

(** ** One worker sends no link twice *)

Lemma sent_links_app a b : sent_links (a ++ b) = sent_links a ++ sent_links b.
Proof. apply omap_app. Qed.

Lemma sent_links_logs ls : sent_links (logs ls) = [].
Proof. unfold sent_links, logs. induction ls as [|l ls IH]; [done|]. simpl. apply IH. Qed.

Lemma sent_links_dec s :
  sent_links (trace (decrementPendingJobs s)) = sent_links (trace s).
Proof.
  rewrite dec_trace, !sent_links_app. repeat case_match; simpl; by rewrite ?app_nil_r.
Qed.

Lemma sent_links_next i j links added : sent_links (next_link i j links added).2 = [].
Proof. unfold next_link. by destruct links. Qed.

Lemma fresh_eq s s' w :
  sent_links (trace s') = sent_links (trace s) → fresh s w → fresh s' w.
Proof. intros E. destruct w; simpl; by rewrite ?E. Qed.

Lemma single_worker ws i (w w' : wstate) :
  List.length ws = 1%nat → ws !! i = Some w → ws = [w] ∧ <[i := w']> ws = [w'].
Proof.
  destruct ws as [|x [|y ws]]; try done. destruct i as [|i]; [|done].
  by intros _ [= ->].
Qed.

(** what a step adds to the links that were sent *)
Lemma step_sent_links W a D dom s s' :
  exec W a s = Some s' → good D dom s →
  sent_links (trace s') = sent_links (trace s) ∨
  ∃ i j link rest added,
    a = AWorker i ∧ workers s !! i = Some (WSend j link rest added) ∧
    sent_links (trace s') = sent_links (trace s) ++ [link] ∧
    workers s' = <[i := (next_link i j rest added).1]> (workers s) ∧
    seen s' = seen s.
Proof.
  intros H [_ G2 _ _].
  exec_cases H; proj; dec_simpl;
    rewrite ?sent_links_app, ?sent_links_logs, ?sent_links_next, ?app_nil_r.
  all: try (left; done).
  all: try (left; repeat case_match; simpl; rewrite ?sent_links_logs, ?app_nil_r; done).
  - left. simpl. rewrite sent_links_app, sent_links_logs. simpl. by rewrite app_nil_r.
  - right. exists i, j, link, rest, added. split_and!; try done.
    pose proof (Forall_lookup_1 _ _ _ _ G2 Heqo) as Gw. simpl in Gw.
    destruct Gw as ((Hd & _) & _). unfold sent_links at 2. cbn [omap list_omap depth url].
    destruct (Z.eqb_spec (depth j + 1) 0); [lia|done].
Qed.

Lemma fresh_next_link s i j links added : fresh s (next_link i j links added).1.
Proof. unfold next_link. by destruct links. Qed.

Lemma step_fresh_same W a s s' :
  exec W a s = Some s' → List.length (workers s) = 1%nat → sent_once s →
  sent_links (trace s') = sent_links (trace s) → Forall (fresh s') (workers s').
Proof.
  intros H Hone [O1 O2 O3] E.
  pose proof (λ w, fresh_eq s s' w E) as F.
  pose proof (Forall_impl _ _ _ O3 F) as O3'.
  exec_cases H; proj; dec_simpl; try done.
  all: try (match goal with Hi : workers _ !! _ = Some _ |- _ =>
              pose proof (Forall_lookup_1 _ _ _ _ O3 Hi) as Ow; simpl in Ow end).
  all: apply Forall_insert; [done|]; apply F; try done; try apply fresh_next_link.
  simpl. intros Hin. apply O2 in Hin. by destruct (hasURLBeenSeen s link).
Qed.

Lemma sent_once_step W a D dom s s' :
  exec W a s = Some s' → List.length (workers s) = 1%nat →
  good D dom s → lineage s → sent_once s → sent_once s'.
Proof.
  intros H Hone G [_ L2 _ _ _ _] O.
  pose proof (step_monotone _ _ _ _ H) as (_ & _ & M3 & _).
  destruct (step_sent_links _ _ _ _ _ _ H G) as [E|(i & j & link & rest & added & _ & Hw & E & Ew & Es)].
  - split; [rewrite E; apply O| |by eapply step_fresh_same].
    intros u Hu. rewrite E in Hu. apply M3. by apply (once_seen _ O).
  - destruct O as [O1 O2 O3].
    pose proof (Forall_lookup_1 _ _ _ _ L2 Hw) as Lw. simpl in Lw.
    pose proof (Forall_lookup_1 _ _ _ _ O3 Hw) as Ow. simpl in Ow.
    split; rewrite ?E.
    + apply NoDup_app. split_and!; [done| |apply NoDup_singleton].
      intros x Hx ->%list_elem_of_singleton. done.
    + intros u [Hu| ->%list_elem_of_singleton]%elem_of_app; apply M3; [by apply O2|].
      apply Lw.
    + rewrite Ew. destruct (single_worker _ _ _ (next_link i j rest added).1 Hone Hw)
        as [_ ->].
      constructor; [|constructor]. unfold fresh, next_link. by destruct rest.
Qed.

Lemma init_sent_once cfg s : crawl_init cfg = Some s → sent_once s.
Proof.
  intros (Hc & Hn & Hh & Hw & Hm & Hj & Hr & Ht & Hs & Hcl & Hca & Hp & Hpa)%init_facts.
  split; rewrite ?Hw, ?Ht; simpl.
  - apply NoDup_nil_2.
  - by intros u ?%not_elem_of_nil.
  - by apply Forall_replicate.
Qed.

Lemma reachable_sent_once W cfg s :
  NumWorkers (New_config cfg) = 1 → reachable W cfg s → sent_once s.
Proof.
  intros Hone. induction 1 as [s Hi|s s' Hr IH [a Ha]]; [by eapply init_sent_once|].
  destruct (reachable_inv _ _ _ Hr) as [_ _ _ I4 _ _ G].
  eapply sent_once_step; eauto.
  - rewrite I4, Hone. done.
  - by eapply reachable_lineage.
Qed.

(** X21.  With a single worker no link is sent twice: in every run with
    one worker the URLs of the jobs that were sent below the seed are
    pairwise different, and each of them is marked seen.  (The seed itself
    can still be sent a second time, by the worker, when it is tested before
    [Start] has marked it.) *)
Theorem one_worker_sends_no_link_twice
  (W : World) (cfg : Config) (s0 : state) (sched : list action) (s : state) :
  NumWorkers (New_config cfg) = 1 →
  crawl_init cfg = Some s0 → run W sched s0 = Some s →
  NoDup (sent_links (trace s)) ∧
  (∀ u, u ∈ sent_links (trace s) → hasURLBeenSeen s u = true).
Proof.
  intros Hone Hi Hr. pose proof (run_reachable _ _ _ _ _ Hi Hr) as Hreach.
  destruct (reachable_sent_once _ _ _ Hone Hreach) as [O1 O2 _]. done.
Qed.

Lemma one_worker_witness :
  ∃ s0 s, NumWorkers (New_config runs.mixed_config) = 1 ∧
          crawl_init runs.mixed_config = Some s0 ∧
          run runs.mixed_world runs.mixed_sched s0 = Some s ∧
          sent_links (trace s) = ["https://example.com/a/"] ∧
          NoDup (sent_links (trace s)) ∧
          (∀ u, u ∈ sent_links (trace s) → hasURLBeenSeen s u = true).
Proof.
  eexists _, _. split; [vm_compute; reflexivity|]. split; [vm_compute; reflexivity|].
  split; [vm_compute; reflexivity|]. split; [vm_compute; reflexivity|].
  eapply (one_worker_sends_no_link_twice runs.mixed_world runs.mixed_config _
            runs.mixed_sched).
  - vm_compute; reflexivity.
  - vm_compute; reflexivity.
  - vm_compute; reflexivity.
Defined.

(** ** [New] *)

Lemma default_positive (x k : Z) :
  0 < k →
  let y := if x <=? 0 then k else x in
  1 <= y ∧ y = (if decide (0 < x) then x else k) ∧ (if y <=? 0 then k else y) = y.
Proof.
  intros Hk y. unfold y. destruct (Z.leb_spec x 0); case_decide; try lia.
  - split_and!; [lia|done|]. destruct (Z.leb_spec k 0); [lia|done].
  - split_and!; [lia|done|]. destruct (Z.leb_spec x 0); [lia|done].
Qed.

(** X22.  [New] leaves a configuration in which the depth, the number of
    workers, the timeout and the rate limit are all positive: a value that
    is positive is kept, any other is replaced by the default (2, 5, ten
    seconds, a hundred milliseconds).  The start URL and the sink are not
    touched, and filling in the defaults a second time changes nothing. *)
Theorem New_fills_in_the_defaults (config : Config) :
  let c := New_config config in
  (1 <= MaxDepth c ∧ 1 <= NumWorkers c ∧ 1 <= Timeout c ∧ 1 <= RateLimit c) ∧
  MaxDepth c = (if decide (0 < MaxDepth config) then MaxDepth config else 2) ∧
  NumWorkers c = (if decide (0 < NumWorkers config) then NumWorkers config else 5) ∧
  Timeout c = (if decide (0 < Timeout config) then Timeout config else 10 * Second) ∧
  RateLimit c
  = (if decide (0 < RateLimit config) then RateLimit config else 100 * Millisecond) ∧
  StartURL c = StartURL config ∧ Storage c = Storage config ∧
  New_config c = c.
Proof.
  destruct config as [u d n t r st]. unfold New_config.
  cbn [StartURL MaxDepth NumWorkers Timeout RateLimit Storage].
  destruct (default_positive d 2) as (D1 & D2 & D3); [done|].
  destruct (default_positive n 5) as (N1 & N2 & N3); [done|].
  destruct (default_positive t (10 * Second)) as (T1 & T2 & T3); [done|].
  destruct (default_positive r (100 * Millisecond)) as (R1 & R2 & R3); [done|].
  split_and!; try done. by rewrite D3, N3, T3, R3.
Qed.

(** X27.  With the buffered queue [Start] never waits to send the seed:
    whenever it is about to send, in a cancelled run or not, the queue is
    open and empty and the counter is 1, so the send goes through at once
    and leaves the seed alone in the queue, not yet marked by [Start]. *)
Theorem Start_sends_the_seed_without_waiting
  (W : World) (cfg : Config) (s0 : state) (sched : list action) (s : state) :
  crawl_init cfg = Some s0 → run W sched s0 = Some s → main s = MSend →
  jobs s = [] ∧ jobs_closed s = false ∧ pendingJobs s = 1 ∧
  ∃ s', exec W AStart s = Some s' ∧ main s' = MMark ∧
        jobs s' = [mkJob (startURL s) 0] ∧ pendingJobs s' = 1 ∧ seen s' = seen s ∧
        panicked s' = false.
Proof.
  intros Hi Hr Hm. pose proof (run_reachable _ _ _ _ _ Hi Hr) as Hreach.
  destruct (reachable_inv _ _ _ Hreach) as [_ _ _ _ _ A _].
  pose proof (accounted_facts _ A) as (F1 & F2 & F3 & F3' & F4 & F5 & F6).
  destruct (F6 (or_intror Hm)) as [Hj Hf].
  assert (Hp : pendingJobs s = 1) by (rewrite F2, Hj, Hf, Hm; done).
  assert (Hc : jobs_closed s = false).
  { destruct (jobs_closed s) eqn:E; [|done]. destruct (F4 eq_refl). lia. }
  split_and!; try done.
  unfold exec, start_step, send_job. rewrite F1, Hm, Hc, Hj.
  change (List.length (@nil job) <? jobsCap)%nat with true.
  cbn [mbind option_bind panicked emit set_jobs set_trace]. rewrite F1.
  eexists. split; [reflexivity|]. proj. rewrite ?Hj. done.
Qed.

Lemma Start_sends_witness :
  ∃ s0 s, crawl_init runs.home_config = Some s0 ∧
          run runs.home_world [AStart; ACancel] s0 = Some s ∧ main s = MSend ∧
          jobs s = [] ∧ jobs_closed s = false ∧ pendingJobs s = 1 ∧
          ∃ s', exec runs.home_world AStart s = Some s' ∧ main s' = MMark ∧
                jobs s' = [mkJob (startURL s) 0] ∧ pendingJobs s' = 1 ∧ seen s' = seen s ∧
                panicked s' = false.
Proof.
  eexists _, _. split; [vm_compute; reflexivity|]. split; [vm_compute; reflexivity|].
  split; [vm_compute; reflexivity|].
  eapply (Start_sends_the_seed_without_waiting runs.home_world runs.home_config _
            [AStart; ACancel]).
  - vm_compute; reflexivity.
  - vm_compute; reflexivity.
  - vm_compute; reflexivity.
Defined.

(** ** [crawler/crawler.go]: closing the queue *)

(** X29.  In every state [s] of every run, when no page has more than [L]
    anchors: no goroutine has panicked, so the queue was not closed twice
    and nothing was sent on it after it was closed; the queue was closed at
    most once, and it is closed exactly when that one close is in the trace;
    a step closes the queue when and only when it takes the pending counter
    from a value other than zero to zero; the run is finite, the steps
    taken and the steps left never exceeding the bound of the initial state;
    and if the run is not cancelled and no goroutine can move, then either
    the run is complete (every worker left through the closed queue,
    [Start] returned, the queue is empty and closed exactly once, the
    counter is zero) or some worker waits to send on the full queue. *)
Theorem queue_is_closed_at_most_once_and_only_at_zero
  (W : World) (cfg : Config) (L : nat) (s0 : state) (sched : list action) (s : state) :
  anchors_bounded W L → crawl_init cfg = Some s0 → run W sched s0 = Some s →
  panicked s = false ∧
  (closes (trace s) <= 1)%nat ∧ (jobs_closed s = true ↔ closes (trace s) = 1%nat) ∧
  (∀ s', step W s s' → (closes_queue s s' ↔ hits_zero s s')) ∧
  (List.length sched + steps_left L s <= steps_left L s0)%nat ∧
  (cancelled s = false → stuck W s → completed s ∨ blocked_on_full_queue s).
Proof.
  intros HL Hi Hr. pose proof (run_reachable _ _ _ _ _ Hi Hr) as Hreach.
  destruct (reachable_inv _ _ _ Hreach) as [_ _ _ _ _ A _].
  pose proof (acc_closes _ A) as Hc.
  split_and!.
  - apply A.
  - rewrite Hc. case_match; lia.
  - rewrite Hc. destruct (jobs_closed s); split; intros; try done; lia.
  - intros s' [a Ha]. by eapply step_close_iff.
  - by eapply run_steps_left.
  - intros. by eapply stuck_cases.
Qed.

Lemma home_anchors : anchors_bounded runs.home_world 1.
Proof.
  intros u resp doc. simpl. destruct (String.eqb u "https://example.com/"); [|done].
  intros [= <-]. simpl. intros [= <-]. simpl. lia.
Qed.

Lemma queue_closed_once_witness :
  ∃ s0 s, crawl_init runs.home_config = Some s0 ∧
          run runs.home_world runs.home_sched s0 = Some s ∧
          panicked s = false ∧ (closes (trace s) <= 1)%nat ∧
          (jobs_closed s = true ↔ closes (trace s) = 1%nat) ∧
          (∀ s', step runs.home_world s s' → (closes_queue s s' ↔ hits_zero s s')) ∧
          (List.length runs.home_sched + steps_left 1 s <= steps_left 1 s0)%nat ∧
          (cancelled s = false → stuck runs.home_world s →
           completed s ∨ blocked_on_full_queue s).
Proof.
  eexists _, _. split; [vm_compute; reflexivity|]. split; [vm_compute; reflexivity|].
  apply (queue_is_closed_at_most_once_and_only_at_zero
           runs.home_world runs.home_config 1 _ runs.home_sched _).
  - exact home_anchors.
  - vm_compute; reflexivity.
  - vm_compute; reflexivity.
Defined.

(** ** [crawler/url.go] *)

Lemma prefix_nil s : String.prefix "" s = true.
Proof. by destruct s. Qed.

Lemma prefix_cons_eq a b s t :
  String.prefix (String a s) (String b t) = Ascii.eqb a b && String.prefix s t.
Proof.
  cbn [String.prefix]. destruct (ascii_dec a b) as [->|Hne].
  - by rewrite Ascii.eqb_refl.
  - apply Ascii.eqb_neq in Hne. by rewrite Hne.
Qed.

Lemma Index_cons c s sub :
  Strings.Index (String c s) sub
  = if String.prefix sub (String c s) then Some O else S <$> Strings.Index s sub.
Proof. reflexivity. Qed.

Lemma Index_no_byte c u f :
  Strings.Contains u (String c "") = false →
  Strings.Index (u +:+ String c f) (String c "") = Some (String.length u).
Proof.
  unfold Strings.Contains. induction u as [|a u IH]; rewrite ?append_cons, ?append_nil.
  - intros _. by rewrite Index_cons, prefix_cons_eq, prefix_nil, Ascii.eqb_refl.
  - rewrite !Index_cons, !prefix_cons_eq, !prefix_nil, !andb_true_r.
    destruct (Ascii.eqb c a); [done|].
    destruct (Strings.Index u (String c "")) eqn:E; [done|]. intros _. by rewrite IH.
Qed.

Lemma upto_app a x : Strings.upto (String.length a) (a +:+ x) = a.
Proof.
  induction a as [|c a IH]; rewrite ?append_cons, ?append_nil; cbn [String.length Strings.upto];
    [by destruct x|].
  f_equal. apply IH.
Qed.

Lemma Cut_none s sep : Strings.Contains s sep = false → Strings.Cut s sep = (s, "", false).
Proof. unfold Strings.Cut, Strings.Contains. by destruct (Strings.Index s sep). Qed.

Lemma Cut_byte c u f :
  Strings.Contains u (String c "") = false →
  Strings.Cut (u +:+ String c f) (String c "") = (u, f, true).
Proof.
  intros H. unfold Strings.Cut. rewrite (Index_no_byte _ _ _ H).
  rewrite upto_app. do 2 f_equal.
  change (String.length (String c "")) with 1%nat.
  change (u +:+ String c f) with (u +:+ (String c "" +:+ f)).
  rewrite <- append_assoc.
  replace (String.length u + 1)%nat with (String.length (u +:+ String c ""))
    by (rewrite length_append; done).
  apply from_app.
Qed.

Lemma HasPrefix_byte c u f p :
  Strings.Contains p (String c "") = false →
  Strings.HasPrefix (u +:+ String c f) p = Strings.HasPrefix u p.
Proof.
  unfold Strings.HasPrefix, Strings.Contains. revert u.
  induction p as [|a p IH]; intros u Hp; [by rewrite !prefix_nil|].
  rewrite Index_cons, prefix_cons_eq, prefix_nil, andb_true_r in Hp.
  destruct (Ascii.eqb c a) eqn:Ea; [done|].
  destruct u as [|b u]; rewrite ?append_cons, ?append_nil.
  - rewrite prefix_cons_eq, Ascii.eqb_sym, Ea. by destruct p.
  - rewrite !prefix_cons_eq. f_equal. apply IH.
    by destruct (Strings.Index p (String c "")).
Qed.

Lemma Contains_append_byte c a u :
  Strings.Contains a (String c "") = false → Strings.Contains u (String c "") = false →
  Strings.Contains (a +:+ u) (String c "") = false.
Proof.
  unfold Strings.Contains. intros Ha Hu.
  induction a as [|b a IH]; rewrite ?append_cons, ?append_nil; [done|].
  rewrite Index_cons, prefix_cons_eq, prefix_nil, andb_true_r in *.
  destruct (Ascii.eqb c b); [done|].
  destruct (Strings.Index a (String c "")); [done|]. specialize (IH eq_refl).
  by destruct (Strings.Index (a +:+ u) (String c "")).
Qed.

(** what [NormalizeURL] makes of a parsed URL *)
Lemma NormalizeURL_parsed rawURL :
  NormalizeURL rawURL
  = (fun parsedURL =>
       let parsedURL :=
         if negb (Strings.Contains (url.Path parsedURL) ".")
            && negb (Strings.HasSuffix (url.Path parsedURL) "/")
         then url.with_Path parsedURL (url.Path parsedURL +:+ "/")
         else parsedURL in
       let query := foldl url.Del (url.Query parsedURL) removeParams in
       let parsedURL := url.with_RawQuery parsedURL (url.Encode query) in
       let parsedURL := url.with_Fragment parsedURL "" in
       let parsedURL :=
         if (String.eqb (url.Scheme parsedURL) "http" && String.eqb (url.Port parsedURL) "80")
            || (String.eqb (url.Scheme parsedURL) "https"
                && String.eqb (url.Port parsedURL) "443")
         then
           match Strings.IndexByte (url.Host parsedURL) ":" with
           | Some colonIndex =>
               url.with_Host parsedURL (Strings.upto colonIndex (url.Host parsedURL))
           | None => parsedURL
           end
         else parsedURL in
       url.String_ parsedURL)
    <$> url.Parse (if negb (Strings.HasPrefix rawURL "http://")
                      && negb (Strings.HasPrefix rawURL "https://")
                   then "https://" +:+ rawURL else rawURL).
Proof. unfold NormalizeURL. by destruct (url.Parse _). Qed.

Lemma Parse_fragment u f :
  Strings.Contains u "#" = false →
  url.Parse (u +:+ String "#" f)
  = p ← url.Parse u; if String.eqb f "" then Some p else url.setFragment p f.
Proof.
  intros H. unfold url.Parse. rewrite (Cut_byte _ _ _ H), (Cut_none _ _ H).
  destruct (url.parse u); done.
Qed.

(** X18.  [NormalizeURL] drops the fragment: a URL followed by [#] and a
    fragment has the normal form of the URL alone, provided the fragment has
    no malformed percent-escape; with one it has no normal form at all. *)
Theorem NormalizeURL_drops_the_fragment (u f : string) :
  Strings.Contains u "#" = false →
  NormalizeURL (u +:+ String "#" f)
  = if url.unescape_ok f url.encodeFragment then NormalizeURL u else None.
Proof.
  intros H. rewrite !NormalizeURL_parsed, !(HasPrefix_byte "#") by done.
  set (raw := if negb (Strings.HasPrefix u "http://") && negb (Strings.HasPrefix u "https://")
              then "https://" +:+ u else u).
  assert (Hraw : Strings.Contains raw "#" = false).
  { unfold raw. case_match; [|done]. by apply (Contains_append_byte "#"). }
  replace (if negb (Strings.HasPrefix u "http://") && negb (Strings.HasPrefix u "https://")
           then "https://" +:+ (u +:+ String "#" f) else u +:+ String "#" f)
    with (raw +:+ String "#" f)
    by (unfold raw; destruct (negb (Strings.HasPrefix u "http://")
                              && negb (Strings.HasPrefix u "https://"));
        [by rewrite append_assoc|done]).
  rewrite Parse_fragment by done.
  destruct (url.Parse raw) as [p|]; cbn [mbind option_bind fmap option_fmap option_map];
    [|by case_match].
  destruct (String.eqb_spec f "") as [->|Hf]; [done|].
  unfold url.setFragment, url.unescape.
  destruct (url.unescape_ok f url.encodeFragment);
    cbn [mbind option_bind fmap option_fmap option_map]; [|done].
  f_equal. destruct p as [sc op us ho pa rp om fq rq fr rfr].
  cbn [url.Scheme url.Opaque url.User url.Host url.Path url.RawPath url.OmitHost
       url.ForceQuery url.RawQuery url.Fragment url.RawFragment].
  unfold url.Port, url.Query.
  repeat (case_match;
          cbn [url.with_Path url.with_RawQuery url.with_Fragment url.with_Host
               url.Scheme url.Opaque url.User url.Host url.Path url.RawPath url.OmitHost
               url.ForceQuery url.RawQuery url.Fragment url.RawFragment] in *);
    simplify_eq; try done.
Qed.

Lemma NormalizeURL_fragment_witness :
  NormalizeURL "https://example.com/a#top" = NormalizeURL "https://example.com/a" ∧
  NormalizeURL "https://example.com/a" = Some "https://example.com/a/" ∧
  NormalizeURL "https://example.com/a#%zz" = None.
Proof.
  pose proof (NormalizeURL_drops_the_fragment "https://example.com/a" "top" eq_refl) as H1.
  pose proof (NormalizeURL_drops_the_fragment "https://example.com/a" "%zz" eq_refl) as H2.
  split; [exact H1|]. split; [vm_compute; reflexivity|exact H2].
Defined.

Lemma upto_slashes n t : Strings.upto (S (S n)) ("//" +:+ t) = "//" +:+ Strings.upto n t.
Proof. reflexivity. Qed.

Lemma Index_slashes_question t :
  Strings.Index ("//" +:+ t) "?" = (fun i => S (S i)) <$> Strings.Index t "?".
Proof.
  change ("//" +:+ t) with (String "/" (String "/" t)).
  rewrite !Index_cons, !prefix_cons_eq. change (Ascii.eqb "?" "/") with false.
  cbn [andb]. by destruct (Strings.Index t "?").
Qed.

(** the part of the URL before the query still begins with two slashes *)
Lemma rest_slashes t :
  ∃ t' force rawq,
    (if Strings.HasSuffix ("//" +:+ t) "?" && (Strings.CountByte ("//" +:+ t) "?" =? 1)%nat
     then (Strings.upto (String.length ("//" +:+ t) - 1) ("//" +:+ t), true, "")
     else let '(r, q, _) := Strings.Cut ("//" +:+ t) "?" in (r, false, q))
    = ("//" +:+ t', force, rawq).
Proof.
  destruct (Strings.HasSuffix ("//" +:+ t) "?" && _) eqn:E.
  - destruct t as [|c t]; [done|].
    exists (Strings.upto (String.length t) (String c t)), true, "". done.
  - unfold Strings.Cut. rewrite Index_slashes_question.
    destruct (Strings.Index t "?") as [i|]; cbn [fmap option_fmap option_map].
    + eexists (Strings.upto i t), false, _. by rewrite upto_slashes.
    + by exists t, false, "".
Qed.

Lemma parse_authority_form u sc t p :
  url.getScheme u = Some (sc, "//" +:+ t) → Strings.nonempty (Strings.ToLower sc) = true →
  url.parse u = Some p →
  url.Scheme p = Strings.ToLower sc ∧ url.Opaque p = "" ∧ url.OmitHost p = false.
Proof.
  intros Hg Hn. unfold url.parse. rewrite Hg.
  destruct (url.stringContainsCTLByte u); [done|].
  destruct (String.eqb_spec u "*") as [->|_]; [done|].
  cbn [mbind option_bind].
  destruct (rest_slashes t) as (t' & force & rawq & ->). rewrite Hn.
  change (Strings.HasPrefix ("//" +:+ t') "/") with true.
  replace (Strings.HasPrefix ("//" +:+ t') "//") with true
    by (unfold Strings.HasPrefix; change ("//" +:+ t') with (String "/" (String "/" t'));
        by rewrite !prefix_cons_eq, prefix_nil).
  cbn [negb andb orb].
  destruct (match Strings.Index (Strings.from 2 ("//" +:+ t')) "/" with
            | Some i => _ | None => _ end) as [authority rest'].
  destruct (url.parseAuthority authority) as [[user host]|]; cbn [mbind option_bind]; [|done].
  unfold url.setPath. destruct (url.unescape rest' url.encodePath); cbn [mbind option_bind];
    [|done].
  by intros [= <-].
Qed.

Lemma Parse_authority_form u sc t p :
  Strings.Contains sc "#" = false →
  url.getScheme (Strings.Cut u "#").1.1 = Some (sc, "//" +:+ t) →
  Strings.nonempty (Strings.ToLower sc) = true →
  url.Parse u = Some p →
  url.Scheme p = Strings.ToLower sc ∧ url.Opaque p = "" ∧ url.OmitHost p = false.
Proof.
  intros _ Hg Hn. unfold url.Parse.
  destruct (Strings.Cut u "#") as [[u' frag] b]. cbn [fst] in Hg.
  destruct (url.parse u') as [p'|] eqn:Hp; cbn [mbind option_bind]; [|done].
  pose proof (parse_authority_form _ _ _ _ Hg Hn Hp) as (H1 & H2 & H3).
  destruct (String.eqb frag ""); [by intros [= <-]|].
  unfold url.setFragment. destruct (url.unescape frag url.encodeFragment);
    cbn [mbind option_bind]; [|done].
  by intros [= <-].
Qed.

Lemma Cut_hash_prefix (pre t : string) :
  Strings.Contains pre "#" = false →
  (Strings.Cut (pre +:+ t) "#").1.1 = pre +:+ (Strings.Cut t "#").1.1.
Proof.
  intros Hp. unfold Strings.Cut, Strings.Contains in *.
  induction pre as [|c pre IH]; rewrite ?append_cons, ?append_nil.
  - by destruct (Strings.Index t "#").
  - rewrite Index_cons, prefix_cons_eq, prefix_nil, andb_true_r in *.
    destruct (Ascii.eqb "#" c); [done|].
    destruct (Strings.Index pre "#") eqn:E; [done|]. specialize (IH eq_refl).
    destruct (Strings.Index (pre +:+ t) "#") as [i|] eqn:E1;
      destruct (Strings.Index t "#") as [k|] eqn:E2;
      cbn [fmap option_fmap option_map fst Strings.upto] in *; rewrite ?append_cons;
      by f_equal.
Qed.

Lemma Parse_http t p :
  url.Parse ("http://" +:+ t) = Some p →
  url.Scheme p = "http" ∧ url.Opaque p = "" ∧ url.OmitHost p = false.
Proof.
  apply (Parse_authority_form _ "http" (Strings.Cut t "#").1.1); try done.
  change "http://" with ("http:" +:+ "//"). rewrite append_assoc.
  rewrite Cut_hash_prefix by done. rewrite Cut_hash_prefix by done. done.
Qed.

Lemma Parse_https t p :
  url.Parse ("https://" +:+ t) = Some p →
  url.Scheme p = "https" ∧ url.Opaque p = "" ∧ url.OmitHost p = false.
Proof.
  apply (Parse_authority_form _ "https" (Strings.Cut t "#").1.1); try done.
  change "https://" with ("https:" +:+ "//"). rewrite append_assoc.
  rewrite Cut_hash_prefix by done. rewrite Cut_hash_prefix by done. done.
Qed.

Lemma HasPrefix_split s p :
  Strings.HasPrefix s p = true → s = p +:+ Strings.from (String.length p) s.
Proof.
  unfold Strings.HasPrefix. revert s. induction p as [|a p IH]; intros s; [done|].
  destruct s as [|c s]; [done|]. rewrite prefix_cons_eq, andb_true_iff, Ascii.eqb_eq.
  intros [-> H]. rewrite append_cons. cbn [String.length Strings.from]. f_equal. by apply IH.
Qed.

Lemma HasPrefix_append p x : Strings.HasPrefix (p +:+ x) p = true.
Proof.
  unfold Strings.HasPrefix. induction p as [|a p IH]; [apply prefix_nil|].
  by rewrite append_cons, prefix_cons_eq, Ascii.eqb_refl.
Qed.

(** the path that [NormalizeURL] prints is not empty *)
Lemma normal_path_nonempty path :
  Strings.nonempty
    (if negb (Strings.Contains path ".") && negb (Strings.HasSuffix path "/")
     then path +:+ "/" else path) = true.
Proof. destruct path as [|c path]; [done|]. by case_match. Qed.

Lemma String_authority_form (u : url.URL) :
  url.Opaque u = "" → url.OmitHost u = false →
  Strings.nonempty (url.Scheme u) = true → Strings.nonempty (url.Path u) = true →
  ∃ rest, url.String_ u = (url.Scheme u +:+ "://") +:+ rest.
Proof.
  intros Ho Hm Hs Hp. unfold url.String_. rewrite Ho, Hm, Hs, Hp.
  cbn [Strings.nonempty orb andb negb]. rewrite orb_true_r. cbn [orb].
  eexists. rewrite !append_assoc. reflexivity.
Qed.

(** X19.  Whatever [NormalizeURL] returns begins with [http://] or
    [https://]: the scheme of an argument that has one of the two is kept,
    and [https] is chosen for every other argument. *)
Theorem NormalizeURL_returns_an_http_or_https_URL (rawURL normalized : string) :
  NormalizeURL rawURL = Some normalized →
  Strings.HasPrefix normalized
    (if Strings.HasPrefix rawURL "http://" then "http://" else "https://") = true.
Proof.
  rewrite NormalizeURL_parsed.
  destruct (url.Parse _) as [p|] eqn:Hparse; [|done]. cbn [fmap option_fmap option_map].
  intros [= <-].
  assert (Hp : url.Opaque p = "" ∧ url.OmitHost p = false ∧
               url.Scheme p = if Strings.HasPrefix rawURL "http://" then "http" else "https").
  { destruct (Strings.HasPrefix rawURL "http://") eqn:E1; cbn [negb andb] in Hparse.
    - apply HasPrefix_split in E1. rewrite E1 in Hparse.
      apply Parse_http in Hparse. tauto.
    - destruct (Strings.HasPrefix rawURL "https://") eqn:E2; cbn [negb andb] in Hparse.
      + apply HasPrefix_split in E2. rewrite E2 in Hparse.
        apply Parse_https in Hparse. tauto.
      + apply Parse_https in Hparse. tauto. }
  destruct Hp as (Ho & Hm & Hs).
  match goal with |- Strings.HasPrefix (url.String_ ?q) _ = true => set (q' := q) end.
  assert (Hq : url.Opaque q' = "" ∧ url.OmitHost q' = false ∧ url.Scheme q' = url.Scheme p ∧
               Strings.nonempty (url.Path q') = true).
  { pose proof (normal_path_nonempty (url.Path p)) as Hn. unfold q'.
    destruct p as [sc op us ho pa rp om fq rq fr rfr].
    cbn [url.Scheme url.Opaque url.User url.Host url.Path url.RawPath url.OmitHost
         url.ForceQuery url.RawQuery url.Fragment url.RawFragment] in *.
    repeat (case_match;
            cbn [url.with_Path url.with_RawQuery url.with_Fragment url.with_Host
                 url.Scheme url.Opaque url.User url.Host url.Path url.RawPath url.OmitHost
                 url.ForceQuery url.RawQuery url.Fragment url.RawFragment] in *);
      simplify_eq; done. }
  destruct Hq as (Ho' & Hm' & Hs' & Hpath).
  destruct (String_authority_form q' Ho' Hm') as [rest ->]; [|done|].
  - rewrite Hs', Hs. by case_match.
  - rewrite Hs', Hs. case_match; apply HasPrefix_append.
Qed.

Lemma NormalizeURL_prefix_witness :
  Strings.HasPrefix "https://example.com/"
    (if Strings.HasPrefix "example.com" "http://" then "http://" else "https://") = true ∧
  Strings.HasPrefix "http://example.com/"
    (if Strings.HasPrefix "http://example.com:80" "http://" then "http://" else "https://")
  = true.
Proof.
  split.
  - apply (NormalizeURL_returns_an_http_or_https_URL "example.com"). vm_compute; reflexivity.
  - apply (NormalizeURL_returns_an_http_or_https_URL "http://example.com:80").
    vm_compute; reflexivity.
Defined.

(** *** A tracking parameter *)

Lemma all_bytes_from (P : ascii → bool) n s :
  url.all_bytes P s = true → url.all_bytes P (Strings.from n s) = true.
Proof.
  revert s. induction n as [|n IH]; intros [|c s]; cbn [Strings.from url.all_bytes]; try done.
  rewrite andb_true_iff. intros [_ H]. by apply IH.
Qed.

Lemma alnum_neq c d : url.is_alnum c = true → url.is_alnum d = false → Ascii.eqb d c = false.
Proof. intros Hc Hd. destruct (Ascii.eqb_spec d c) as [->|]; [congruence|done]. Qed.

Lemma alnum_no_byte d s :
  url.is_alnum d = false → url.all_bytes url.is_alnum s = true →
  Strings.Contains s (String d "") = false.
Proof.
  intros Hd. unfold Strings.Contains. induction s as [|c s IH]; [by destruct d|].
  cbn [url.all_bytes]. rewrite andb_true_iff. intros [Hc Hs].
  rewrite Index_cons, prefix_cons_eq, prefix_nil, andb_true_r, (alnum_neq c d) by done.
  specialize (IH Hs). by destruct (Strings.Index s (String d "")).
Qed.

Lemma alnum_no_CTL s :
  url.all_bytes url.is_alnum s = true → url.stringContainsCTLByte s = false.
Proof.
  intros H. unfold url.stringContainsCTLByte. apply negb_false_iff.
  revert H. apply all_bytes_impl. intros c.
  unfold url.is_alnum, url.is_lower, url.is_upper, url.is_digit.
  rewrite !orb_true_iff, !andb_true_iff, !Nat.leb_le, negb_true_iff, orb_false_iff,
    Nat.ltb_ge, Nat.eqb_neq. lia.
Qed.

Lemma CTL_app a b :
  url.stringContainsCTLByte (a +:+ b)
  = url.stringContainsCTLByte a || url.stringContainsCTLByte b.
Proof. unfold url.stringContainsCTLByte. by rewrite all_bytes_app, negb_andb. Qed.

Lemma from_app_add a b k :
  Strings.from (String.length a + k) (a +:+ b) = Strings.from k b.
Proof. induction a as [|c a IH]; rewrite ?append_cons, ?append_nil; done. Qed.

Lemma HasSuffix_app a b suf :
  (String.length suf <= String.length b)%nat →
  Strings.HasSuffix (a +:+ b) suf = Strings.HasSuffix b suf.
Proof.
  intros H. unfold Strings.HasSuffix. rewrite length_append.
  replace (String.length a + String.length b - String.length suf)%nat
    with (String.length a + (String.length b - String.length suf))%nat by lia.
  rewrite from_app_add. f_equal.
  destruct (Nat.leb_spec (String.length suf) (String.length b)); [|lia].
  destruct (Nat.leb_spec (String.length suf) (String.length a + String.length b)); [done|lia].
Qed.

Lemma alnum_no_suffix d s :
  url.is_alnum d = false → url.all_bytes url.is_alnum s = true →
  Strings.HasSuffix s (String d "") = false.
Proof.
  intros Hd Hs. destruct (Strings.HasSuffix s (String d "")) eqn:E; [|done].
  apply HasSuffix_spec in E as [_ E].
  apply (all_bytes_from _ (String.length s - String.length (String d ""))) in Hs.
  rewrite E in Hs. cbn [url.all_bytes] in Hs. by rewrite Hd in Hs.
Qed.

Lemma no_byte_no_suffix d s :
  Strings.Contains s (String d "") = false → Strings.HasSuffix s (String d "") = false.
Proof.
  intros Hc. destruct (Strings.HasSuffix s (String d "")) eqn:E; [|done].
  apply HasSuffix_spec in E as [Hl E]. rewrite <- (upto_from (String.length s - 1) s) in Hc.
  change (String.length (String d "")) with 1%nat in E. rewrite E in Hc.
  unfold Strings.Contains in Hc.
  set (a := Strings.upto _ _) in Hc. clearbody a.
  induction a as [|c a IH]; rewrite ?append_cons, ?append_nil in Hc.
  - by rewrite Index_cons, prefix_cons_eq, prefix_nil, Ascii.eqb_refl in Hc.
  - rewrite Index_cons, prefix_cons_eq, prefix_nil, andb_true_r in Hc.
    destruct (Ascii.eqb d c); [done|].
    destruct (Strings.Index (a +:+ String d "") (String d "")); [done|]. by apply IH.
Qed.

(** the value of a simple parameter decodes to itself *)
Lemma QueryUnescape_alnum s :
  url.all_bytes url.is_alnum s = true → url.QueryUnescape s = Some s.
Proof.
  intros H. unfold url.QueryUnescape, url.unescape.
  assert (Hok : url.unescape_ok s url.encodeQueryComponent = true
                ∧ url.unescape_bytes s url.encodeQueryComponent = s).
  { induction s as [|c s IH]; [done|]. cbn [url.all_bytes] in H.
    apply andb_true_iff in H as [Hc Hs]. destruct (IH Hs) as [I1 I2].
    cbn [url.unescape_ok url.unescape_bytes]. unfold Strings.byte_eqb.
    rewrite (Ascii.eqb_sym c "%"), (Ascii.eqb_sym c "+"),
      (alnum_neq c "%"), (alnum_neq c "+") by done.
    cbn [url.hostish andb]. by rewrite I1, I2. }
  destruct Hok as [-> ->]. done.
Qed.

Lemma pieces_from_plain s cur :
  Strings.Contains s "&" = false → url.pieces_from s cur = [cur +:+ s].
Proof.
  unfold Strings.Contains. revert cur. induction s as [|c s IH]; intros cur.
  - intros _. cbn [url.pieces_from]. f_equal. induction cur as [|a cur IHc]; [done|].
    rewrite append_cons. by f_equal.
  - rewrite Index_cons, prefix_cons_eq, prefix_nil, andb_true_r.
    destruct (Ascii.eqb "&" c) eqn:E; [done|]. intros H.
    cbn [url.pieces_from]. unfold Strings.byte_eqb. rewrite Ascii.eqb_sym, E.
    rewrite IH by (by destruct (Strings.Index s "&")).
    f_equal. by rewrite append_assoc.
Qed.

Lemma lookup_foldl_Del (m : gmap string (list string)) (ks : list string) (i : string) :
  foldl url.Del m ks !! i = if decide (i ∈ ks) then None else m !! i.
Proof.
  revert m. induction ks as [|k ks IH]; intros m; cbn [foldl].
  - by rewrite decide_False by apply not_elem_of_nil.
  - rewrite IH. unfold url.Del. destruct (decide (i ∈ ks)) as [Hin|Hin].
    + rewrite decide_True by (by right). done.
    + destruct (decide (i = k)) as [->|Hne].
      * rewrite decide_True by left. by rewrite lookup_delete_eq.
      * rewrite decide_False by (intros [?|?]%elem_of_cons; done).
        by rewrite lookup_delete_ne.
Qed.

Lemma Parse_no_fragment s : Strings.Contains s "#" = false → url.Parse s = url.parse s.
Proof.
  intros H. unfold url.Parse. rewrite (Cut_none _ _ H). by destruct (url.parse s).
Qed.

Lemma Contains_app_r c a u :
  Strings.Contains (a +:+ u) (String c "") = false → Strings.Contains u (String c "") = false.
Proof.
  unfold Strings.Contains. induction a as [|b a IH]; rewrite ?append_cons, ?append_nil; [done|].
  rewrite Index_cons, prefix_cons_eq, prefix_nil, andb_true_r.
  destruct (Ascii.eqb c b); [done|]. intros H. apply IH.
  by destruct (Strings.Index (a +:+ u) (String c "")).
Qed.

(** a query after a URL that has none is parsed into [RawQuery], and into
    nothing else *)
Lemma parse_with_query sc pre t q :
  (∀ X, url.getScheme (pre +:+ X) = Some (sc, "//" +:+ X)) →
  (∀ X, String.eqb (pre +:+ X) "*" = false) →
  Strings.Contains t "?" = false →
  Strings.HasSuffix ("//" +:+ (t +:+ String "?" q)) "?" = false →
  url.stringContainsCTLByte (String "?" q) = false →
  url.parse ((pre +:+ t) +:+ String "?" q)
  = (fun p => url.with_RawQuery p q) <$> url.parse (pre +:+ t) ∧
  (∀ p, url.parse (pre +:+ t) = Some p → url.RawQuery p = "").
Proof.
  intros Hg He Ht Hs Hc. unfold url.parse.
  rewrite CTL_app, Hc, orb_false_r, append_assoc, !Hg, !He.
  destruct (url.stringContainsCTLByte (pre +:+ t)); [done|].
  cbn [mbind option_bind]. rewrite Hs.
  assert (Ht' : Strings.Contains ("//" +:+ t) "?" = false)
    by (by apply (Contains_append_byte "?")).
  rewrite (no_byte_no_suffix _ _ Ht'). cbn [andb].
  rewrite <- (append_assoc "//" t (String "?" q)).
  rewrite (Cut_byte _ _ _ Ht'), (Cut_none _ _ Ht').
  set (rest := "//" +:+ t).
  split.
  - repeat (case_match; simplify_eq; try done).
    all: unfold url.setPath.
    all: repeat match goal with
         | |- context [url.parseAuthority ?a] => destruct (url.parseAuthority a) as [[? ?]|]
         | |- context [url.unescape ?a ?m] => destruct (url.unescape a m)
         | _ => progress cbn [mbind option_bind fmap option_fmap option_map url.with_RawQuery
                   url.setPath url.Scheme url.Opaque url.User url.Host url.Path url.RawPath
                   url.OmitHost url.ForceQuery url.RawQuery url.Fragment url.RawFragment]
         end; done.
  - intros p.
    repeat (case_match; simplify_eq; try done).
    all: unfold url.setPath.
    all: repeat match goal with
         | |- context [url.parseAuthority ?a] => destruct (url.parseAuthority a) as [[? ?]|]
         | |- context [url.unescape ?a ?m] => destruct (url.unescape a m)
         | _ => progress cbn [mbind option_bind url.setPath
                   url.Scheme url.Opaque url.User url.Host url.Path url.RawPath
                   url.OmitHost url.ForceQuery url.RawQuery url.Fragment url.RawFragment]
         end; try done.
    all: by intros [= <-].
Qed.

Lemma ParseQuery_empty : url.ParseQuery "" = ∅.
Proof. reflexivity. Qed.

Lemma ParseQuery_single key value :
  key ≠ "" →
  Strings.Contains key "&" = false → Strings.Contains key ";" = false →
  Strings.Contains key "=" = false → url.QueryUnescape key = Some key →
  url.all_bytes url.is_alnum value = true →
  url.ParseQuery (key +:+ String "=" value) = {[ key := [value] ]}.
Proof.
  intros Hne Ha Hs He Hk Hv. unfold url.ParseQuery.
  rewrite pieces_from_plain, append_nil.
  2:{ apply (Contains_append_byte "&"); [done|].
      change (String "=" value) with ("=" +:+ value).
      apply (Contains_append_byte "&"); [done|by apply alnum_no_byte]. }
  cbn [foldl]. unfold url.parsePair.
  rewrite (Contains_append_byte ";" key (String "=" value)); [|done|].
  2:{ change (String "=" value) with ("=" +:+ value).
      apply (Contains_append_byte ";"); [done|by apply alnum_no_byte]. }
  replace (String.eqb (key +:+ String "=" value) "") with false
    by (destruct key; [done|by rewrite append_cons]).
  rewrite (Cut_byte _ _ _ He), Hk, (QueryUnescape_alnum _ Hv).
  unfold url.add_value. by rewrite lookup_empty.
Qed.

Lemma Del_removes_all (m : gmap string (list string)) :
  (∀ i, i ∉ removeParams → m !! i = None) → foldl url.Del m removeParams = ∅.
Proof.
  intros H. apply map_eq. intros i. rewrite lookup_foldl_Del, lookup_empty.
  case_decide; [done|by apply H].
Qed.

(** X28.  A query that is one tracking parameter ([utm_source] and the
    like, with a value of letters and digits) is normalised away: such a URL
    has the normal form of the URL without the query. *)
Theorem NormalizeURL_ignores_a_tracking_parameter (u key value : string) :
  Strings.Contains u "?" = false → Strings.Contains u "#" = false →
  key ∈ removeParams → url.all_bytes url.is_alnum value = true →
  NormalizeURL (u +:+ String "?" (key +:+ String "=" value)) = NormalizeURL u.
Proof.
  intros Hq Hh Hk Hv.
  set (q := key +:+ String "=" value).
  assert (Hkey : key ≠ "" ∧ Strings.Contains key "&" = false
                 ∧ Strings.Contains key ";" = false ∧ Strings.Contains key "=" = false
                 ∧ url.QueryUnescape key = Some key ∧ Strings.Contains key "#" = false
                 ∧ url.stringContainsCTLByte key = false).
  { unfold removeParams in Hk.
    repeat (apply elem_of_cons in Hk as [->|Hk]; [by split_and!|]).
    by apply elem_of_nil in Hk. }
  destruct Hkey as (Hne & Ha & Hs & He & Hu & Hkh & Hkc).
  assert (Hqh : Strings.Contains q "#" = false).
  { apply (Contains_append_byte "#"); [done|].
    change (String "=" value) with ("=" +:+ value).
    apply (Contains_append_byte "#"); [done|by apply alnum_no_byte]. }
  assert (Hqc : url.stringContainsCTLByte (String "?" q) = false).
  { change (String "?" q) with ("?" +:+ q). unfold q.
    change (String "=" value) with ("=" +:+ value).
    by rewrite !CTL_app, Hkc, (alnum_no_CTL value Hv). }
  assert (Hqs : ∀ a, Strings.HasSuffix (a +:+ String "?" q) "?" = false).
  { intros a. unfold q.
    change (a +:+ String "?" (key +:+ String "=" value))
      with (a +:+ ("?" +:+ (key +:+ ("=" +:+ value)))).
    rewrite <- (append_assoc a "?" _), <- (append_assoc _ key _).
    rewrite HasSuffix_app by (rewrite length_append; cbn; lia).
    destruct value as [|c value]; [done|].
    rewrite HasSuffix_app by (cbn; lia). by apply alnum_no_suffix. }
  rewrite !NormalizeURL_parsed, !(HasPrefix_byte "?") by done.
  set (raw := if negb (Strings.HasPrefix u "http://") && negb (Strings.HasPrefix u "https://")
              then "https://" +:+ u else u).
  replace (if negb (Strings.HasPrefix u "http://") && negb (Strings.HasPrefix u "https://")
           then "https://" +:+ (u +:+ String "?" q) else u +:+ String "?" q)
    with (raw +:+ String "?" q)
    by (unfold raw; destruct (negb (Strings.HasPrefix u "http://")
                              && negb (Strings.HasPrefix u "https://"));
        [by rewrite append_assoc|done]).
  assert (Hraw : ∃ sc pre t, raw = pre +:+ t ∧ Strings.Contains t "?" = false
                 ∧ Strings.Contains raw "#" = false
                 ∧ (∀ X, url.getScheme (pre +:+ X) = Some (sc, "//" +:+ X))
                 ∧ (∀ X, String.eqb (pre +:+ X) "*" = false)).
  { unfold raw. destruct (Strings.HasPrefix u "http://") eqn:E1; cbn [negb andb].
    - exists "http", "http://", (Strings.from 7 u). pose proof (HasPrefix_split _ _ E1) as Hu'.
      change (String.length "http://") with 7%nat in Hu'.
      split_and!; [exact Hu'| |done..]. apply (Contains_app_r "?" "http://"). by rewrite <- Hu'.
    - destruct (Strings.HasPrefix u "https://") eqn:E2; cbn [negb].
      + exists "https", "https://", (Strings.from 8 u).
        pose proof (HasPrefix_split _ _ E2) as Hu'.
        change (String.length "https://") with 8%nat in Hu'.
        split_and!; [exact Hu'| |done..].
        apply (Contains_app_r "?" "https://"). by rewrite <- Hu'.
      + exists "https", "https://", u. split_and!; try done.
        by apply (Contains_append_byte "#"). }
  destruct Hraw as (sc & pre & t & -> & Ht & Hrh & Hg & Hstar).
  rewrite !Parse_no_fragment.
  2: done.
  2:{ apply (Contains_append_byte "#" (pre +:+ t) (String "?" q)); [done|].
      change (String "?" q) with ("?" +:+ q). by apply (Contains_append_byte "#"). }
  destruct (parse_with_query sc pre t q Hg Hstar Ht) as [Hp Hr]; [|done|].
  { rewrite <- append_assoc. apply Hqs. }
  rewrite Hp. destruct (url.parse (pre +:+ t)) as [p|]; [|done].
  specialize (Hr p eq_refl).
  cbn [fmap option_fmap option_map]. f_equal.
  destruct p as [sc' op us ho pa rp om fq rq fr rfr].
  cbn [url.RawQuery] in Hr. subst rq.
  cbn [url.with_RawQuery url.Scheme url.Opaque url.User url.Host url.Path url.RawPath
       url.OmitHost url.ForceQuery url.RawQuery url.Fragment url.RawFragment].
  unfold url.Port, url.Query.
  assert (E : foldl url.Del (url.ParseQuery q) removeParams
              = foldl url.Del (url.ParseQuery "") removeParams).
  { rewrite !Del_removes_all; [done|by intros i _|].
    intros i Hi. unfold q. rewrite ParseQuery_single by done.
    apply lookup_singleton_ne. by intros ->. }
  destruct (negb (Strings.Contains pa ".") && negb (Strings.HasSuffix pa "/"));
    cbn [url.with_Path url.with_RawQuery url.with_Fragment url.with_Host
         url.Scheme url.Opaque url.User url.Host url.Path url.RawPath url.OmitHost
         url.ForceQuery url.RawQuery url.Fragment url.RawFragment];
    by rewrite E.
Qed.

Lemma NormalizeURL_tracking_witness :
  NormalizeURL "https://example.com/a?utm_source=feed" = NormalizeURL "https://example.com/a" ∧
  NormalizeURL "https://example.com/a" = Some "https://example.com/a/".
Proof.
  split; [|by vm_compute].
  apply (NormalizeURL_ignores_a_tracking_parameter "https://example.com/a" "utm_source" "feed").
  - reflexivity.
  - reflexivity.
  - unfold removeParams. apply list_elem_of_here.
  - reflexivity.
Defined.

(** ** [crawler/crawler.go] without the pending-job counter *)

Section Unbuffered.
Import crawler0.

Ltac proj0 :=
  cbn [config startURL baseDomain seen results cancelled main workers trace
       set_seen set_results set_cancelled set_main set_workers set_trace emit goto
       markURLSeen fst snd] in *.

Ltac exec_cases0 H :=
  unfold exec in H;
  match type of H with
  | match ?a with _ => _ end = _ => destruct a as [|?|[?|] ?|?|]
  end;
  [ unfold start_step in H
  | unfold worker_step in H
  | unfold hand in H
  | unfold hand in H
  | unfold worker_done in H
  | idtac ];
  repeat (first [progress simplify_option_eq | case_match | progress simplify_eq];
          try discriminate).

Lemma next_link0_alive j links : exited (next_link j links) = false.
Proof. by destruct links. Qed.

Lemma forallb_exited0 ws : forallb exited ws = true → Forall (fun w => exited w = true) ws.
Proof.
  intros H. apply Forall_forall. intros w Hw%list_elem_of_In.
  by eapply forallb_forall in H.
Qed.

Ltac lookup_facts I :=
  repeat match goal with
         | Hi : workers ?s !! ?i = Some ?w |- _ =>
             lazymatch goal with
             | _ : I w |- _ => fail
             | _ => let F := fresh "F" in
                    assert (F : I w) by (eapply (Forall_lookup_1 I); [eassumption|exact Hi]);
                    simpl in F
             end
         end.

Lemma inv0_step W N a s s' :
  exec W a s = Some s' → inv N s → inv N s'.
Proof.
  intros H [I1 I2 I3 I4].
  exec_cases0 H; split; proj0; rewrite ?length_insert; try done.
  (* no worker returns before the run is cancelled *)
  all: try (intros Hc; specialize (I2 Hc);
            repeat (apply Forall_insert; [|first [done|apply next_link0_alive]]); done).
  all: try (intros Hc; destruct (cancelled s); done).
  (* while the seed is not sent the workers wait *)
  all: try (intros Hm; specialize (I3 Hm);
            repeat match goal with
                   | Hi : workers _ !! _ = Some _ |- _ =>
                       eapply Forall_lookup_1 in Hi; [|exact I3]; simpl in Hi;
                       destruct Hi; try discriminate
                   end;
            try discriminate; try (apply Forall_insert; auto); fail).
  (* Start goes on when every worker has returned or the run is cancelled *)
  all: try (intros _; right; by apply forallb_exited0).
  all: try (intros _; by left).
  all: try (intros [?|[?|?]]; discriminate).
  all: try (intros Hm; apply I4; rewrite ?Heqm; auto; fail).
  all: try (intros Hm; destruct (I4 Hm) as [Hc|He]; [by left|];
            repeat match goal with
                   | Hi : workers _ !! _ = Some _ |- _ =>
                       eapply Forall_lookup_1 in Hi; [|exact He]; simpl in Hi;
                       try discriminate
                   end; fail).
Qed.

Lemma init0_inv cfg s :
  crawl_init cfg = Some s → inv (Z.to_nat (NumWorkers (New_config cfg))) s.
Proof.
  unfold crawl_init, Start. intros H. simplify_option_eq.
  split; proj0; rewrite ?length_replicate; try done.
  - intros _. by apply Forall_replicate.
  - intros _. apply Forall_replicate. by left.
  - intros [?|[?|?]]; done.
Qed.

Lemma run0_inv W N sched s s' : run W sched s = Some s' → inv N s → inv N s'.
Proof.
  revert s. induction sched as [|a sched IH]; intros s H I; simpl in H.
  - by injection H as <-.
  - destruct (exec W a s) as [s1|] eqn:He; simpl in H; [|done].
    eapply IH; [done|]. by eapply inv0_step.
Qed.

Lemma workers0_nonempty cfg s :
  inv (Z.to_nat (NumWorkers (New_config cfg))) s → ∃ w, workers s !! 0%nat = Some w.
Proof.
  intros [I1 _ _ _]. pose proof (New_config_bounds cfg) as [_ HN].
  destruct (workers s) as [|w ws]; [cbn [List.length] in I1; lia|]. by exists w.
Qed.

(** what keeps a worker from moving alone *)
Lemma worker0_blocked W i s w :
  workers s !! i = Some w → worker_step W i s = None →
  selecting w = true ∨ sending w = true ∨ exited w = true.
Proof.
  intros Hi. unfold worker_step. rewrite Hi. simpl.
  destruct w; simpl; auto; repeat case_match; done.
Qed.

(** X24.  In the revision without the counter nothing ends a crawl but a
    cancellation: as long as the run is not cancelled no worker has
    returned, and [Start] has not got past its wait for the workers, so it
    has neither saved nor returned anything; at that wait it cannot move. *)
Theorem without_counter_only_cancellation_ends_the_crawl
  (W : World) (cfg : Config) (s0 : state) (sched : list action) (s : state) :
  crawl_init cfg = Some s0 → run W sched s0 = Some s → cancelled s = false →
  Forall (fun w => exited w = false) (workers s) ∧
  (main s = MSend ∨ main s = MMark ∨ main s = MWait) ∧
  (main s = MWait → exec W AStart s = None).
Proof.
  intros Hi Hr Hc. pose proof (run0_inv _ _ _ _ _ Hr (init0_inv _ _ Hi)) as I.
  destruct (workers0_nonempty _ _ I) as [w Hw]. destruct I as [I1 I2 I3 I4].
  specialize (I2 Hc). pose proof (Forall_lookup_1 _ _ _ _ I2 Hw) as Hw2. simpl in Hw2.
  split_and!; [done| |].
  - destruct (main s) eqn:E; auto; exfalso.
    all: destruct I4 as [I4|I4]; auto; try congruence.
    all: eapply Forall_lookup_1 in I4; [|done]; simpl in I4; congruence.
  - intros Hm. unfold exec, start_step. rewrite Hm, Hc.
    destruct (forallb exited (workers s)) eqn:E; [|done].
    apply forallb_exited0 in E. eapply Forall_lookup_1 in E; [|done]. simpl in E. congruence.
Qed.

Lemma without_counter_witness :
  ∃ s0 s, crawl_init runs.home_config = Some s0 ∧
          run runs.home_world runs.idle_sched s0 = Some s ∧
          cancelled s = false ∧
          URL <$> results s = ["https://example.com/"] ∧
          Forall (fun w => exited w = false) (workers s) ∧
          (main s = MSend ∨ main s = MMark ∨ main s = MWait) ∧
          (main s = MWait → exec runs.home_world AStart s = None).
Proof.
  eexists _, _. split; [vm_compute; reflexivity|]. split; [vm_compute; reflexivity|].
  split; [vm_compute; reflexivity|]. split; [vm_compute; reflexivity|].
  eapply (without_counter_only_cancellation_ends_the_crawl runs.home_world runs.home_config _
            runs.idle_sched).
  - vm_compute; reflexivity.
  - vm_compute; reflexivity.
  - vm_compute; reflexivity.
Defined.

(** X25.  In that revision a run that is not cancelled and in which no
    goroutine can move has [Start] waiting for the workers and the workers
    all waiting on the queue: either every worker waits to receive a job,
    the crawl being over without anybody noticing, or every worker waits to
    send one, with nobody left to receive it. *)
Theorem without_counter_a_crawl_ends_idle_or_deadlocked
  (W : World) (cfg : Config) (s0 : state) (sched : list action) (s : state) :
  crawl_init cfg = Some s0 → run W sched s0 = Some s → cancelled s = false →
  stuck W s →
  main s = MWait ∧
  (Forall (fun w => w = WSelect) (workers s) ∨
   Forall (fun w => sending w = true) (workers s)).
Proof.
  intros Hi Hr Hc Hst. pose proof (run0_inv _ _ _ _ _ Hr (init0_inv _ _ Hi)) as I.
  destruct (workers0_nonempty _ _ I) as [w0 Hw0]. destruct I as [I1 I2 I3 I4].
  specialize (I2 Hc).
  assert (Hw : ∀ i w, workers s !! i = Some w → selecting w = true ∨ sending w = true).
  { intros i w Hi'. pose proof (Forall_lookup_1 _ _ _ _ I2 Hi') as Hx. simpl in Hx.
    destruct (worker0_blocked W i s w Hi') as [?|[?|?]]; auto; [|congruence].
    by apply (Hst (AWorker i)). }
  assert (Hno : ∀ i k wi wk, workers s !! i = Some wi → workers s !! k = Some wk →
                sending wi = true → selecting wk = true → False).
  { intros i k wi wk Hi' Hk Hs Hr'. specialize (Hst (AHand (Some i) k)).
    unfold exec, hand in Hst. rewrite Hk, Hi' in Hst.
    destruct wk; try done. destruct wi; try done. simpl in Hst.
    specialize (Hst ltac:(done)). discriminate Hst. }
  split.
  - destruct (main s) eqn:E; try done; exfalso.
    + specialize (I3 eq_refl). pose proof (Forall_lookup_1 _ _ _ _ I3 Hw0) as Hx.
      pose proof (Forall_lookup_1 _ _ _ _ I2 Hw0) as Hy. simpl in Hx, Hy.
      destruct Hx as [->| ->]; [|done].
      specialize (Hst (AHand None 0%nat)). unfold exec, hand in Hst.
      rewrite Hw0, E in Hst. simpl in Hst. specialize (Hst ltac:(done)). discriminate Hst.
    + specialize (Hst AStart). unfold exec, start_step in Hst. rewrite E in Hst.
      specialize (Hst ltac:(done)). discriminate Hst.
    + destruct I4 as [I4|I4]; auto; try congruence.
      eapply Forall_lookup_1 in I4; [|done]. eapply Forall_lookup_1 in I2; [|done].
      simpl in *. congruence.
    + destruct I4 as [I4|I4]; auto; try congruence.
      eapply Forall_lookup_1 in I4; [|done]. eapply Forall_lookup_1 in I2; [|done].
      simpl in *. congruence.
    + destruct I4 as [I4|I4]; auto; try congruence.
      eapply Forall_lookup_1 in I4; [|done]. eapply Forall_lookup_1 in I2; [|done].
      simpl in *. congruence.
  - destruct (Forall_or_Exists sending (workers s)) as [Hf|He].
    + left. apply Forall_lookup_2. intros i w Hi'.
      pose proof (Forall_lookup_1 _ _ _ _ Hf Hi') as Hx. simpl in Hx.
      destruct (Hw i w Hi') as [Hs|Hs]; [|congruence]. by destruct w.
    + right. apply Exists_exists in He as (wi & Hin & Hs).
      apply list_elem_of_lookup in Hin as [i Hi'].
      apply Forall_lookup_2. intros k wk Hk.
      destruct (Hw k wk Hk) as [Hr'|Hs']; [|done]. exfalso.
      exact (Hno i k wi wk Hi' Hk Hs Hr').
Qed.

Lemma one_worker_stuck W (s : state) (w : wstate) :
  workers s = [w] → selecting w = true ∨ sending w = true → main s = MWait →
  cancelled s = false → stuck W s.
Proof.
  intros Hw Hs Hm Hc a Ha.
  destruct a as [|i|[i|] k|i|]; try done; unfold exec.
  - unfold start_step. rewrite Hm, Hw, Hc. simpl. by destruct w, Hs.
  - unfold worker_step. rewrite Hw. destruct i as [|[|i]]; try done. simpl.
    by destruct w, Hs.
  - unfold hand. rewrite Hw. destruct k as [|[|k]]; try done. simpl.
    destruct w; try done. by destruct i as [|[|i]].
  - unfold hand. rewrite Hw, Hm. destruct k as [|[|k]]; try done. simpl. by destruct w.
  - unfold worker_done. rewrite Hw, Hc. by destruct i as [|[|i]].
Qed.

Lemma without_counter_deadlock_witness :
  ∃ s0 s, crawl_init runs.home_config = Some s0 ∧
          run runs.broken_world runs.deadlock_sched s0 = Some s ∧
          cancelled s = false ∧ stuck runs.broken_world s ∧
          workers s = [WSend (mkJob "https://example.com/" 0) "https://example.com/b/" []] ∧
          main s = MWait ∧
          (Forall (fun w => w = WSelect) (workers s) ∨
           Forall (fun w => sending w = true) (workers s)).
Proof.
  eexists _, _. split; [vm_compute; reflexivity|]. split; [vm_compute; reflexivity|].
  split; [vm_compute; reflexivity|].
  split; [eapply one_worker_stuck; [vm_compute; reflexivity|by right|vm_compute; reflexivity
                                    |vm_compute; reflexivity]|].
  split; [vm_compute; reflexivity|].
  eapply (without_counter_a_crawl_ends_idle_or_deadlocked runs.broken_world runs.home_config _
            runs.deadlock_sched).
  - vm_compute; reflexivity.
  - vm_compute; reflexivity.
  - vm_compute; reflexivity.
  - eapply one_worker_stuck; [vm_compute; reflexivity|by right|vm_compute; reflexivity
                              |vm_compute; reflexivity].
Defined.

(** X26.  In that revision a cancelled run in which no goroutine can move
    has every worker returned, and [Start] has either returned or is still
    waiting to send the seed: [Start] sends the seed outside any [select],
    so a cancellation that reaches the workers before one of them has taken
    the seed leaves [Start] blocked for good. *)
Theorem without_counter_cancellation_can_strand_Start
  (W : World) (cfg : Config) (s0 : state) (sched : list action) (s : state) :
  crawl_init cfg = Some s0 → run W sched s0 = Some s → cancelled s = true →
  stuck W s →
  Forall (fun w => exited w = true) (workers s) ∧ (main s = MDone ∨ main s = MSend).
Proof.
  intros Hi Hr Hc Hst.
  assert (Hw : Forall (fun w => exited w = true) (workers s)).
  { apply Forall_lookup_2. intros i w Hi'.
    destruct (worker0_blocked W i s w Hi') as [Hs|[Hs|?]]; [by apply (Hst (AWorker i))| | |done].
    - specialize (Hst (ADone i)). unfold exec, worker_done in Hst. rewrite Hi', Hc in Hst.
      destruct w; try done. simpl in Hst. specialize (Hst ltac:(done)). discriminate Hst.
    - specialize (Hst (ADone i)). unfold exec, worker_done in Hst. rewrite Hi', Hc in Hst.
      destruct w; try done. simpl in Hst. specialize (Hst ltac:(done)). discriminate Hst. }
  split; [done|].
  specialize (Hst AStart ltac:(done)). unfold exec, start_step in Hst.
  destruct (main s) eqn:E; auto; try discriminate Hst.
  rewrite Hc in Hst. destruct (forallb exited (workers s)); discriminate Hst.
Qed.

Lemma stranded_stuck W (s : state) :
  workers s = [WExit ExitCancelled] → main s = MSend → stuck W s.
Proof.
  intros Hw Hm a Ha.
  destruct a as [|i|[i|] k|i|]; try done; unfold exec.
  - unfold start_step. by rewrite Hm.
  - unfold worker_step. rewrite Hw. by destruct i as [|[|i]].
  - unfold hand. rewrite Hw. by destruct k as [|[|k]].
  - unfold hand. rewrite Hw. by destruct k as [|[|k]].
  - unfold worker_done. rewrite Hw. destruct i as [|[|i]]; simpl; try done.
    by destruct (cancelled s).
Qed.

Lemma without_counter_stranded_witness :
  ∃ s0 s, crawl_init runs.home_config = Some s0 ∧
          run runs.home_world runs.strand_sched s0 = Some s ∧
          cancelled s = true ∧ stuck runs.home_world s ∧ main s = MSend ∧
          Forall (fun w => exited w = true) (workers s) ∧
          (main s = MDone ∨ main s = MSend).
Proof.
  eexists _, _. split; [vm_compute; reflexivity|]. split; [vm_compute; reflexivity|].
  split; [vm_compute; reflexivity|].
  split; [apply stranded_stuck; vm_compute; reflexivity|].
  split; [vm_compute; reflexivity|].
  eapply (without_counter_cancellation_can_strand_Start runs.home_world runs.home_config _
            runs.strand_sched).
  - vm_compute; reflexivity.
  - vm_compute; reflexivity.
  - vm_compute; reflexivity.
  - apply stranded_stuck; vm_compute; reflexivity.
Defined.

End Unbuffered.
